(** * The 3p-frame message codec, sentinel scheme and bootstrap-URL resolver

    A shallow embedding of [src/3p-frame.js] and the properties its
    specification states.  JavaScript strings are modelled by [string]
    (sequences of 16-bit code units), numbers by [number] (the doubles),
    JavaScript values by the inductive type [json], windows and data
    objects by records held in finite maps, and the effects of the module
    (cache writes, log entries, thrown assertion failures, consumed
    entropy) by a state-and-exception monad. *)

From Stdlib Require Import ZArith NArith Ascii List Bool Lia.
From Stdlib Require Import Decimal DecimalN DecimalPos DecimalFacts.
From stdpp Require Import base option gmap list.

Local Open Scope Z_scope.

(** ** JavaScript strings *)

(** A code unit: 16 bits, given by its high and its low byte. *)
Inductive code : Set :=
| Code (hi lo : ascii).

(** A string: a sequence of code units. *)
Inductive string : Set :=
| EmptyString
| String (c : code) (s : string).

(** String literals denote the code units 0..255 of their bytes. *)
Definition code_of_byte (b : Byte.byte) : code := Code Ascii.zero (ascii_of_byte b).

Definition byte_of_code (c : code) : option Byte.byte :=
  match c with
  | Code hi lo => if Ascii.eqb hi Ascii.zero then Some (byte_of_ascii lo) else None
  end.

Fixpoint string_of_bytes (l : list Byte.byte) : string :=
  match l with
  | [] => EmptyString
  | b :: r => String (code_of_byte b) (string_of_bytes r)
  end.

Fixpoint bytes_of_string (s : string) : option (list Byte.byte) :=
  match s with
  | EmptyString => Some []
  | String c r =>
      match byte_of_code c, bytes_of_string r with
      | Some b, Some l => Some (b :: l)
      | _, _ => None
      end
  end.

Declare Scope code_scope.
Undelimit Scope char_scope.
Delimit Scope code_scope with char.
Bind Scope code_scope with code.
String Notation code code_of_byte byte_of_code : code_scope.

Declare Scope js_scope.
Delimit Scope js_scope with string.
Bind Scope js_scope with string.
String Notation string string_of_bytes bytes_of_string : js_scope.
Open Scope js_scope.

(** The number of a code unit, from 0 to 65535. *)
Definition code_to_N (c : code) : N :=
  match c with
  | Code hi lo => (N_of_ascii hi * 256 + N_of_ascii lo)%N
  end.

Definition code_of_N (n : N) : code :=
  Code (ascii_of_N (n / 256)) (ascii_of_N (n mod 256)).

Definition code_eqb (a b : code) : bool :=
  match a, b with
  | Code h l, Code h' l' => Ascii.eqb h h' && Ascii.eqb l l'
  end.

Fixpoint string_eqb (a b : string) : bool :=
  match a, b with
  | EmptyString, EmptyString => true
  | String c a', String d b' => code_eqb c d && string_eqb a' b'
  | _, _ => false
  end.

Fixpoint append (a b : string) : string :=
  match a with
  | EmptyString => b
  | String c a' => String c (append a' b)
  end.

Infix "+:+" := append (at level 60, right associativity) : js_scope.

(** [s.length]. *)
Fixpoint string_length (s : string) : nat :=
  match s with
  | EmptyString => O
  | String _ r => S (string_length r)
  end.

(** [strip p s]: [s] without its prefix [p], when it has it. *)
Fixpoint strip (p s : string) : option string :=
  match p, s with
  | EmptyString, _ => Some s
  | String a p', String b s' => if code_eqb a b then strip p' s' else None
  | String _ _, EmptyString => None
  end.

(** [s.indexOf(t)]: position of the first occurrence of [t] in [s], or
    [-1]. *)
Fixpoint indexOf (s t : string) : Z :=
  match strip t s with
  | Some _ => 0
  | None =>
      match s with
      | EmptyString => -1
      | String _ r =>
          match indexOf r t with
          | Z.neg _ => -1
          | i => i + 1
          end
      end
  end.

(** [s.substr(n)] for a start position [n >= 0] (a negative start counts
    from the end of the string). *)
Fixpoint drop_chars (n : nat) (s : string) : string :=
  match n, s with
  | O, _ => s
  | S m, EmptyString => EmptyString
  | S m, String _ r => drop_chars m r
  end.

Definition substr (s : string) (start : Z) : string :=
  if start <? 0
  then drop_chars (string_length s - Z.to_nat (- start)) s
  else drop_chars (Z.to_nat start) s.

(** Truthiness of a string-valued expression that may be [undefined] or
    [null] ([None]): only a non-empty string is truthy. *)
Definition nonempty (s : string) : bool :=
  match s with EmptyString => false | String _ _ => true end.

(** The string a truthy operand holds. *)
Definition if_truthy (o : option string) : option string :=
  match o with
  | Some s => if nonempty s then Some s else None
  | None => None
  end.

(** [a || b] on strings that may be absent. *)
Definition or_else (a : option string) (b : string) : string :=
  match if_truthy a with
  | Some s => s
  | None => b
  end.

Fixpoint string_of_uint (d : uint) : string :=
  match d with
  | Nil => EmptyString
  | D0 d => String "0" (string_of_uint d)
  | D1 d => String "1" (string_of_uint d)
  | D2 d => String "2" (string_of_uint d)
  | D3 d => String "3" (string_of_uint d)
  | D4 d => String "4" (string_of_uint d)
  | D5 d => String "5" (string_of_uint d)
  | D6 d => String "6" (string_of_uint d)
  | D7 d => String "7" (string_of_uint d)
  | D8 d => String "8" (string_of_uint d)
  | D9 d => String "9" (string_of_uint d)
  end.

(** [String(n)] for a non-negative integer below 2^53: its decimal
    digits. *)
Definition String_N (n : N) : string := string_of_uint (N.to_uint n).

Definition String_Z (z : Z) : string :=
  match z with
  | Zneg p => String "-" (String_N (Npos p))
  | _ => String_N (Z.to_N z)
  end.

Definition is_digit (c : code) : bool :=
  let n := code_to_N c in ((48 <=? n) && (n <=? 57))%N.

Fixpoint all_digits (s : string) : bool :=
  match s with
  | EmptyString => true
  | String c r => is_digit c && all_digits r
  end.

(** The number a string of decimal digits denotes, after the digits
    [acc]. *)
Fixpoint digits_value (acc : N) (s : string) : N :=
  match s with
  | EmptyString => acc
  | String c r => digits_value (10 * acc + (code_to_N c - 48))%N r
  end.

(** ** Number to string conversion *)

(** A positive double, or zero, as Number::toString sees it: zero, or the
    digits [s] (with as few digits [k] as possible) and the exponent [n]
    such that the number is [s * 10^(n - k)]. *)
Inductive float : Type :=
| FZero
| FDec (s : positive) (n : Z).

(** The doubles [Math.random()] returns: those in [0, 1). *)
Definition unit_interval (x : float) : Prop :=
  match x with
  | FZero => True
  | FDec s n => n <= 0 /\ (Zpos s) mod 10 <> 0
  end.

Fixpoint zeros (n : nat) : string :=
  match n with
  | O => EmptyString
  | S m => String "0" (zeros m)
  end.

Fixpoint take_chars (n : nat) (s : string) : string :=
  match n, s with
  | S m, String c r => String c (take_chars m r)
  | _, _ => EmptyString
  end.

(** [String(x)], Number::toString of ECMA-262 in radix 10. *)
Definition String_float (x : float) : string :=
  match x with
  | FZero => "0"
  | FDec s n =>
      let digits := String_N (Npos s) in
      let k := Z.of_nat (string_length digits) in
      if (k <=? n) && (n <=? 21) then digits +:+ zeros (Z.to_nat (n - k))
      else if (0 <? n) && (n <=? 21) then
        take_chars (Z.to_nat n) digits +:+ "." +:+ drop_chars (Z.to_nat n) digits
      else if (-6 <? n) && (n <=? 0) then
        "0." +:+ zeros (Z.to_nat (- n)) +:+ digits
      else
        let e := n - 1 in
        let sign := if e <? 0 then "-" else "+" in
        let mantissa :=
          if k =? 1 then digits
          else take_chars 1 digits +:+ "." +:+ drop_chars 1 digits in
        mantissa +:+ "e" +:+ sign +:+ String_N (Z.to_N (Z.abs e))
  end.

(** ** Numbers *)

(** A double: not-a-number, an infinity, or the finite number
    [(-1)^negative * m * 2^e]. *)
Inductive number : Set :=
| NaN
| Infinity (negative : bool)
| Finite (negative : bool) (m e : Z).

(** The form in which a [number] stands for a double: a mantissa of 53
    bits with its leading bit set and an exponent from -1074 to 971, or a
    smaller mantissa (zero and the subnormal numbers) with the exponent
    -1074. *)
Definition is_double (x : number) : bool :=
  match x with
  | NaN | Infinity _ => true
  | Finite _ m e =>
      (0 <=? m) && (m <? 2 ^ 52) && (e =? -1074)
      || (2 ^ 52 <=? m) && (m <? 2 ^ 53) && (-1074 <=? e) && (e <=? 971)
  end.

Definition number_eqb (x y : number) : bool :=
  match x, y with
  | NaN, NaN => true
  | Infinity a, Infinity b => Bool.eqb a b
  | Finite a m e, Finite b m' e' => Bool.eqb a b && (m =? m') && (e =? e')
  | _, _ => false
  end.

(** [p / d] rounded to an integer, a tie to the even one. *)
Definition div_half_even (p d : Z) : Z :=
  let q := p / d in
  match 2 * (p mod d) ?= d with
  | Lt => q
  | Gt => q + 1
  | Eq => if Z.even q then q else q + 1
  end.

(** The Number value of the rational [p / d], for [0 <= p] and [0 < d]:
    the double nearest to it, a tie going to the even mantissa, and an
    infinity from [2^1024 - 2^970] on.  The rational is taken in units of
    [2^-1074], the least positive double; the exponent is the one that
    leaves 53 bits before the point, and not below that unit. *)
Definition round_ratio (negative : bool) (p d : Z) : number :=
  let u := p * 2 ^ 1074 in
  let e := Z.max (Z.log2 (u / d) - 52) 0 in
  let m := div_half_even u (d * 2 ^ e) in
  let m' := if m =? 2 ^ 53 then 2 ^ 52 else m in
  let e' := if m =? 2 ^ 53 then e + 1 else e in
  if 2045 <? e' then Infinity negative else Finite negative m' (e' - 1074).

(** The Number value of the decimal [D * 10^E], with its sign. *)
Definition decimal_to_number (negative : bool) (D E : Z) : number :=
  round_ratio negative (D * 10 ^ Z.max E 0) (10 ^ Z.max (- E) 0).

(** The double of an integer. *)
Definition number_of_Z (z : Z) : number :=
  decimal_to_number (z <? 0) (Z.abs z) 0.

(** *** Number::toString *)

(** [s * 10^E] without trailing zeros of [s]. *)
Fixpoint strip_zeros (fuel : nat) (s E : Z) : Z * Z :=
  match fuel with
  | O => (s, E)
  | S fuel =>
      if (0 <? s) && (s mod 10 =? 0)
      then strip_zeros fuel (s / 10) (E + 1)
      else (s, E)
  end.

(** The number of decimal digits of [s]. *)
Definition decimal_length (s : Z) : nat := string_length (String_N (Z.to_N s)).

(** The decimal [s * 10^E], without its trailing zeros, when its Number
    value is the double [m * 2^e]. *)
Definition candidate (m e s E : Z) : option (Z * Z) :=
  let c := strip_zeros (Z.to_nat (Z.log2 s)) s E in
  if number_eqb (decimal_to_number false (fst c) (snd c)) (Finite false m e)
  then Some c else None.

(** The search for the shortest decimal whose Number value is the double
    [m * 2^e], which is [s * 10^E] exactly: with all but [j] of the digits
    of [s] first, then with one digit more, and so on; among the two
    decimals next to the double, the nearer one, and the even one when
    they are as near. *)
Fixpoint shortest_from (j : nat) (m e s E : Z) : Z * Z :=
  match j with
  | O => strip_zeros (Z.to_nat (Z.log2 s)) s E
  | S j' =>
      let p := 10 ^ Z.of_nat j in
      let lo := s / p in
      match candidate m e lo (E + Z.of_nat j),
            candidate m e (lo + 1) (E + Z.of_nat j) with
      | Some c, None => c
      | None, Some c => c
      | Some c, Some c' =>
          match 2 * (s mod p) ?= p with
          | Lt => c
          | Gt => c'
          | Eq => if Z.even lo then c else c'
          end
      | None, None => shortest_from j' m e s E
      end
  end.

(** The digits and the exponent that Number::toString prints for the
    positive double [m * 2^e]: the double is [m * 2^e * 5^-e / 10^-e] for a
    negative [e]. *)
Definition shortest_decimal (m e : Z) : float :=
  let s := m * 2 ^ Z.max e 0 * 5 ^ Z.max (- e) 0 in
  let c := shortest_from (decimal_length s - 1) m e s (Z.min e 0) in
  FDec (Z.to_pos (fst c)) (Z.of_nat (decimal_length (fst c)) + snd c).

(** [String(x)] for a number. *)
Definition Number_toString (x : number) : string :=
  match x with
  | NaN => "NaN"
  | Infinity negative => (if negative then "-" else EmptyString) +:+ "Infinity"
  | Finite negative m e =>
      if m =? 0 then "0"
      else (if negative then "-" else EmptyString) +:+ String_float (shortest_decimal m e)
  end.

(** ** JavaScript values and JSON *)

Unset Elimination Schemes.
(** The values that travel through the codec.  An object is the list of its
    own properties in the order in which they are enumerated. *)
Inductive json : Type :=
| JUndefined
| JNull
| JBool (b : bool)
| JNum (x : number)
| JStr (s : string)
| JArr (l : list json)
| JObj (o : list (string * json)).
Set Elimination Schemes.

Definition object := list (string * json).

Definition is_undefined (v : json) : bool :=
  match v with JUndefined => true | _ => false end.

(** The own property [k] of [o]. *)
Fixpoint obj_get (k : string) (o : object) : option json :=
  match o with
  | [] => None
  | (k', v) :: r => if string_eqb k k' then Some v else obj_get k r
  end.

(** An array index: the decimal digits of an integer from 0 to 2^32 - 2,
    as [String] prints them. *)
Definition array_index (k : string) : option N :=
  let n := digits_value 0 k in
  if string_eqb (String_N n) k && (n <=? 4294967294)%N then Some n else None.

Fixpoint replace_value (k : string) (v : json) (o : object) : object :=
  match o with
  | [] => []
  | (k', v') :: r =>
      if string_eqb k k' then (k, v) :: r else (k', v') :: replace_value k v r
  end.

(** The place of a new property whose key is the array index [i]: before
    the first property whose key is a greater array index or no array
    index. *)
Fixpoint insert_index (i : N) (k : string) (v : json) (o : object) : object :=
  match o with
  | [] => [(k, v)]
  | (k', v') :: r =>
      match array_index k' with
      | Some j =>
          if (j <? i)%N then (k', v') :: insert_index i k v r
          else (k, v) :: o
      | None => (k, v) :: o
      end
  end.

(** The own property [k] of [o] set to [v]: an existing property keeps its
    place; a new one is enumerated after the array indices below it when
    its key is an array index, and last when it is not. *)
Definition obj_set (k : string) (v : json) (o : object) : object :=
  match obj_get k o with
  | Some _ => replace_value k v o
  | None =>
      match array_index k with
      | Some i => insert_index i k v o
      | None => o ++ [(k, v)]
      end
  end.

(** *** JSON.stringify *)

Definition dquote : code := Code "000" "034".

Definition hex_digit (n : N) : code :=
  if (n <? 10)%N then code_of_N (48 + n) else code_of_N (87 + n).

(** The escape [\uXXXX] of a code unit. *)
Definition unicode_escape (c : code) : string :=
  let n := code_to_N c in
  String "\" (String "u"
    (String (hex_digit (n / 4096)) (String (hex_digit ((n / 256) mod 16))
      (String (hex_digit ((n / 16) mod 16)) (String (hex_digit (n mod 16))
        EmptyString))))).

(** QuoteJSONString on a code unit that is no surrogate. *)
Definition escape_char (c : code) : string :=
  let n := code_to_N c in
  if (n =? 8)%N then "\b"
  else if (n =? 9)%N then "\t"
  else if (n =? 10)%N then "\n"
  else if (n =? 12)%N then "\f"
  else if (n =? 13)%N then "\r"
  else if (n =? 34)%N then String "\" (String dquote EmptyString)
  else if (n =? 92)%N then "\\"
  else if (n <? 32)%N then unicode_escape c
  else String c EmptyString.

Definition is_leading_surrogate (c : code) : bool :=
  let n := code_to_N c in ((55296 <=? n) && (n <=? 56319))%N.

Definition is_trailing_surrogate (c : code) : bool :=
  let n := code_to_N c in ((56320 <=? n) && (n <=? 57343))%N.

(** QuoteJSONString: a leading surrogate with the trailing surrogate after
    it stands as it is, a surrogate without its partner is escaped. *)
Fixpoint escape (s : string) : string :=
  match s with
  | EmptyString => EmptyString
  | String c r =>
      if is_leading_surrogate c then
        match r with
        | String c' r' =>
            if is_trailing_surrogate c' then String c (String c' (escape r'))
            else unicode_escape c +:+ escape r
        | EmptyString => unicode_escape c
        end
      else if is_trailing_surrogate c then unicode_escape c +:+ escape r
      else escape_char c +:+ escape r
  end.

Definition quote (s : string) : string :=
  String dquote (escape s +:+ String dquote EmptyString).

Fixpoint join_comma (l : list string) : string :=
  match l with
  | [] => EmptyString
  | [x] => x
  | x :: r => x +:+ String "," (join_comma r)
  end.

(** SerializeJSONProperty on a number: a number that is not finite is
    printed as [null]. *)
Definition stringify_number (x : number) : string :=
  match x with
  | Finite _ _ _ => Number_toString x
  | _ => "null"
  end.

(** SerializeJSONProperty: [undefined] is printed as [null] inside an
    array and its property is left out of an object. *)
Fixpoint stringify_value (v : json) : string :=
  match v with
  | JUndefined => "null"
  | JNull => "null"
  | JBool true => "true"
  | JBool false => "false"
  | JNum x => stringify_number x
  | JStr s => quote s
  | JArr l => String "[" (join_comma (List.map stringify_value l) +:+ "]")
  | JObj o =>
      String "{"
        (join_comma
           ((fix members (o : list (string * json)) : list string :=
               match o with
               | [] => []
               | (k, v) :: r =>
                   if is_undefined v then members r
                   else (quote k +:+ String ":" (stringify_value v)) :: members r
               end) o)
         +:+ "}")
  end.

(** [JSON.stringify(o)] for an object [o]. *)
Definition JSON_stringify (o : object) : string := stringify_value (JObj o).

(** *** JSON.parse *)

Definition is_ws (c : code) : bool :=
  let n := code_to_N c in
  ((n =? 32) || (n =? 9) || (n =? 10) || (n =? 13))%N.

Fixpoint skip_ws (s : string) : string :=
  match s with
  | String c r => if is_ws c then skip_ws r else s
  | EmptyString => s
  end.

Definition hex_value (c : code) : option N :=
  let n := code_to_N c in
  if is_digit c then Some (n - 48)%N
  else if ((97 <=? n) && (n <=? 102))%N then Some (n - 87)%N
  else if ((65 <=? n) && (n <=? 70))%N then Some (n - 55)%N
  else None.

Definition hex4 (a b c d : code) : option N :=
  match hex_value a, hex_value b, hex_value c, hex_value d with
  | Some x, Some y, Some z, Some w => Some (((x * 16 + y) * 16 + z) * 16 + w)%N
  | _, _, _, _ => None
  end.

(** The character a single-letter escape stands for. *)
Definition unescape (e : code) : option code :=
  let n := code_to_N e in
  if (n =? 34)%N then Some dquote
  else if (n =? 92)%N then Some "\"%char
  else if (n =? 47)%N then Some "/"%char
  else if (n =? 98)%N then Some (Code "000" "008")
  else if (n =? 102)%N then Some (Code "000" "012")
  else if (n =? 110)%N then Some (Code "000" "010")
  else if (n =? 114)%N then Some (Code "000" "013")
  else if (n =? 116)%N then Some (Code "000" "009")
  else None.

Definition cons_char (c : code) (p : string * string) : string * string :=
  (String c (fst p), snd p).

(** The characters of a string literal after its opening quote, up to and
    including the closing quote. *)
Fixpoint parse_chars (s : string) : option (string * string) :=
  match s with
  | EmptyString => None
  | String c r =>
      if code_eqb c dquote then Some (EmptyString, r)
      else if code_eqb c "\" then
        match r with
        | String e r1 =>
            if code_eqb e "u" then
              match r1 with
              | String h1 (String h2 (String h3 (String h4 r2))) =>
                  match hex4 h1 h2 h3 h4 with
                  | Some n => option_map (cons_char (code_of_N n)) (parse_chars r2)
                  | None => None
                  end
              | _ => None
              end
            else
              match unescape e with
              | Some c' => option_map (cons_char c') (parse_chars r1)
              | None => None
              end
        | EmptyString => None
        end
      else if (code_to_N c <? 32)%N then None
      else option_map (cons_char c) (parse_chars r)
  end.

(** The longest run of decimal digits at the head of [s], and what
    follows it. *)
Fixpoint span_digits (s : string) : string * string :=
  match s with
  | EmptyString => (EmptyString, s)
  | String c r =>
      if is_digit c then let p := span_digits r in (String c (fst p), snd p)
      else (EmptyString, s)
  end.

(** The integer part of a numeral: one digit, or digits that do not start
    with a zero. *)
Definition valid_int (ds : string) : bool :=
  match ds with
  | EmptyString => false
  | String _ EmptyString => true
  | String c _ => negb (code_eqb c "0")
  end.

(** The fraction of a numeral, when there is one: its digits. *)
Definition parse_fraction (s : string) : option (string * string) :=
  match s with
  | String c r =>
      if code_eqb c "." then
        let p := span_digits r in
        if nonempty (fst p) then Some p else None
      else Some (EmptyString, s)
  | EmptyString => Some (EmptyString, s)
  end.

Definition parse_sign (s : string) : bool * string :=
  match s with
  | String c r =>
      if code_eqb c "-" then (true, r)
      else if code_eqb c "+" then (false, r)
      else (false, s)
  | EmptyString => (false, s)
  end.

(** The exponent of a numeral, 0 when there is none. *)
Definition parse_exponent (s : string) : option (Z * string) :=
  match s with
  | String c r =>
      if code_eqb c "e" || code_eqb c "E" then
        let sg := parse_sign r in
        let p := span_digits (snd sg) in
        if nonempty (fst p) then
          let n := Z.of_N (digits_value 0 (fst p)) in
          Some (if fst sg then - n else n, snd p)
        else None
      else Some (0, s)
  | EmptyString => Some (0, s)
  end.

(** A JSON numeral: an optional minus sign, an integer part, an optional
    fraction and an optional exponent; its value is the Number value of
    the decimal it denotes. *)
Definition parse_number (s : string) : option (number * string) :=
  let sg :=
    match s with
    | String c r => if code_eqb c "-" then (true, r) else (false, s)
    | EmptyString => (false, s)
    end in
  let int := span_digits (snd sg) in
  if valid_int (fst int) then
    match parse_fraction (snd int) with
    | Some (frac, s3) =>
        match parse_exponent s3 with
        | Some (exp, s4) =>
            Some (decimal_to_number (fst sg)
                    (Z.of_N (digits_value 0 (fst int +:+ frac)))
                    (exp - Z.of_nat (string_length frac)),
                  s4)
        | None => None
        end
    | None => None
    end
  else None.

(** Properties defined in order of appearance: a repeated key overwrites
    the earlier value. *)
Definition define_properties (m : list (string * json)) : object :=
  fold_left (fun o kv => obj_set (fst kv) (snd kv) o) m [].

Definition with_value {A B} (f : A -> B) (p : option (A * string)) : option (B * string) :=
  match p with
  | Some (a, r) => Some (f a, r)
  | None => None
  end.

(** [expect c s]: what follows the character [c], when [c] is the first
    character of [s] after white space. *)
Definition expect (c : code) (s : string) : option string :=
  match skip_ws s with
  | String c' r => if code_eqb c' c then Some r else None
  | EmptyString => None
  end.

Fixpoint parse_value (fuel : nat) (s : string) : option (json * string) :=
  match fuel with
  | O => None
  | S fuel =>
      match skip_ws s with
      | EmptyString => None
      | String c r =>
          if code_eqb c "{" then
            match expect "}" r with
            | Some r' => Some (JObj [], r')
            | None =>
                with_value (fun m => JObj (define_properties m))
                  (parse_members fuel r)
            end
          else if code_eqb c "[" then
            match expect "]" r with
            | Some r' => Some (JArr [], r')
            | None => with_value JArr (parse_elements fuel r)
            end
          else if code_eqb c dquote then with_value JStr (parse_chars r)
          else if code_eqb c "n" then
            option_map (pair JNull) (strip "ull" r)
          else if code_eqb c "t" then
            option_map (pair (JBool true)) (strip "rue" r)
          else if code_eqb c "f" then
            option_map (pair (JBool false)) (strip "alse" r)
          else with_value JNum (parse_number (String c r))
      end
  end
with parse_elements (fuel : nat) (s : string) : option (list json * string) :=
  match fuel with
  | O => None
  | S fuel =>
      match parse_value fuel s with
      | Some (v, r) =>
          match expect "," r with
          | Some r' => with_value (cons v) (parse_elements fuel r')
          | None =>
              match expect "]" r with
              | Some r' => Some ([v], r')
              | None => None
              end
          end
      | None => None
      end
  end
with parse_members (fuel : nat) (s : string)
    : option (list (string * json) * string) :=
  match fuel with
  | O => None
  | S fuel =>
      match expect dquote s with
      | Some r =>
          match parse_chars r with
          | Some (k, r1) =>
              match expect ":" r1 with
              | Some r2 =>
                  match parse_value fuel r2 with
                  | Some (v, r3) =>
                      match expect "," r3 with
                      | Some r' =>
                          with_value (cons (k, v)) (parse_members fuel r')
                      | None =>
                          match expect "}" r3 with
                          | Some r' => Some ([(k, v)], r')
                          | None => None
                          end
                      end
                  | None => None
                  end
              | None => None
              end
          | None => None
          end
      | None => None
      end
  end.

(** [JSON.parse(s)]: [None] stands for the SyntaxError it throws.  The
    fuel exceeds the number of nested calls a text of that length can
    cause. *)
Definition JSON_parse (s : string) : option json :=
  match parse_value (2 * string_length s + 2) s with
  | Some (v, r) => match skip_ws r with EmptyString => Some v | _ => None end
  | None => None
  end.

Fixpoint keys_distinct (ks : list string) : bool :=
  match ks with
  | [] => true
  | k :: r => negb (existsb (string_eqb k) r) && keys_distinct r
  end.

(** Whether the key [k] may be enumerated before the key [k']: array
    indices come in ascending order, and before the other keys. *)
Definition key_before (k k' : string) : bool :=
  match array_index k, array_index k' with
  | Some i, Some j => (i <? j)%N
  | Some _, None => true
  | None, Some _ => false
  | None, None => true
  end.

(** The keys of an object in the order of their enumeration. *)
Fixpoint keys_ordered (ks : list string) : bool :=
  match ks with
  | [] => true
  | k :: r => forallb (key_before k) r && keys_ordered r
  end.

(** The JSON-safe values, which [JSON.parse (JSON.stringify v)] gives back
    unchanged: every value but [undefined], not-a-number, the infinities
    and the negative zero, and what holds one of them.  A number is given
    in the form of a double, and an object with one entry per property, in
    the order of enumeration. *)
Fixpoint json_safe (v : json) : bool :=
  match v with
  | JUndefined => false
  | JNull | JBool _ | JStr _ => true
  | JNum x =>
      match x with
      | Finite negative m e => is_double x && negb (negative && (m =? 0))
      | _ => false
      end
  | JArr l => forallb json_safe l
  | JObj o =>
      keys_distinct (List.map fst o) && keys_ordered (List.map fst o)
      && (fix members (o : list (string * json)) : bool :=
            match o with
            | [] => true
            | (_, v) :: r => json_safe v && members r
            end) o
  end.

(** The form in which a [json] stands for a JavaScript value: a number is
    a double, and an object has one entry per property, in the order of
    enumeration. *)
Fixpoint well_formed (v : json) : bool :=
  match v with
  | JNum x => is_double x
  | JArr l => forallb well_formed l
  | JObj o =>
      keys_distinct (List.map fst o) && keys_ordered (List.map fst o)
      && (fix members (o : list (string * json)) : bool :=
            match o with
            | [] => true
            | (_, v) :: r => well_formed v && members r
            end) o
  | _ => true
  end.

(** What [JSON.stringify] and then [JSON.parse] make of a value:
    [undefined] becomes [null] in an array and is left out of an object,
    not-a-number and the infinities become [null], and the negative zero
    becomes zero. *)
Fixpoint transmitted (v : json) : json :=
  match v with
  | JUndefined => JNull
  | JNum (Finite negative m e) => JNum (Finite (negative && negb (m =? 0)) m e)
  | JNum _ => JNull
  | JArr l => JArr (List.map transmitted l)
  | JObj o =>
      JObj ((fix members (o : list (string * json)) : list (string * json) :=
               match o with
               | [] => []
               | (k, v) :: r =>
                   if is_undefined v then members r
                   else (k, transmitted v) :: members r
               end) o)
  | _ => v
  end.
(** ** Windows, the object store and effects *)

Record Location := { href : string; port : string }.

(** What [parseUrl] returns. *)
Record Url := { protocol : string; hostname : string; origin : string }.

Record Window := {
  parent : option nat;
  location : Location;
  crypto : option (nat -> N);
  Math_random : nat -> float;
  drawn : nat;
  meta_amp_3p_iframe_src : option string;
  bootstrapBaseUrl : option string
}.

(** [getMode()] and the [urls] of [./config]. *)
Record Mode := { localDev : bool; test : bool; minified : bool }.

Record Urls := {
  thirdParty : string;
  thirdPartyFrameHost : string;
  urls_localDev : bool
}.

(** The objects of the store are plain objects.  [prototypes] holds the
    prototype an object has been given by an assignment to [__proto__]; an
    object without entry there has [Object.prototype]. *)
Record World := {
  windows : gmap nat Window;
  objects : gmap nat object;
  prototypes : gmap nat json;
  overrideBootstrapBaseUrl : option string;
  log : list (string * string)
}.

Inductive error : Type :=
| AssertionFailure (msg : string)
| TypeError
| OutOfFuel.

Inductive result (A : Type) : Type :=
| Ret (a : A)
| Throw (e : error).
Arguments Ret {A} a.
Arguments Throw {A} e.

(** A computation reads and updates the world and returns or throws; a
    loop that has not ended within its fuel ends in [Throw OutOfFuel]. *)
Definition M (A : Type) : Type := World -> result A * World.

Definition ret {A} (a : A) : M A := fun w => (Ret a, w).
Definition throw {A} (e : error) : M A := fun w => (Throw e, w).
Definition bind {A B} (m : M A) (k : A -> M B) : M B :=
  fun w => match m w with
           | (Ret a, w') => k a w'
           | (Throw e, w') => (Throw e, w')
           end.

Global Instance M_ret : MRet M := @ret.
Global Instance M_bind : MBind M := fun A B k m => bind m k.

Definition with_bootstrapBaseUrl (u : option string) (w : Window) : Window :=
  {| parent := parent w; location := location w; crypto := crypto w;
     Math_random := Math_random w; drawn := drawn w;
     meta_amp_3p_iframe_src := meta_amp_3p_iframe_src w;
     bootstrapBaseUrl := u |}.

Definition with_drawn (n : nat) (w : Window) : Window :=
  {| parent := parent w; location := location w; crypto := crypto w;
     Math_random := Math_random w; drawn := n;
     meta_amp_3p_iframe_src := meta_amp_3p_iframe_src w;
     bootstrapBaseUrl := bootstrapBaseUrl w |}.

Definition with_windows (ws : gmap nat Window) (w : World) : World :=
  {| windows := ws; objects := objects w; prototypes := prototypes w;
     overrideBootstrapBaseUrl := overrideBootstrapBaseUrl w; log := log w |}.

Definition with_objects (os : gmap nat object) (w : World) : World :=
  {| windows := windows w; objects := os; prototypes := prototypes w;
     overrideBootstrapBaseUrl := overrideBootstrapBaseUrl w; log := log w |}.

Definition with_prototypes (ps : gmap nat json) (w : World) : World :=
  {| windows := windows w; objects := objects w; prototypes := ps;
     overrideBootstrapBaseUrl := overrideBootstrapBaseUrl w; log := log w |}.

Definition with_override (u : option string) (w : World) : World :=
  {| windows := windows w; objects := objects w; prototypes := prototypes w;
     overrideBootstrapBaseUrl := u; log := log w |}.

Definition with_log (l : list (string * string)) (w : World) : World :=
  {| windows := windows w; objects := objects w; prototypes := prototypes w;
     overrideBootstrapBaseUrl := overrideBootstrapBaseUrl w; log := l |}.

(** Reading a property of something that is not an object is a
    TypeError. *)
Definition getWindow (win : nat) : M Window :=
  fun w => match windows w !! win with
           | Some x => (Ret x, w)
           | None => (Throw TypeError, w)
           end.

Definition updateWindow (win : nat) (f : Window -> Window) : M unit :=
  fun w => match windows w !! win with
           | Some x => (Ret tt, with_windows (<[win := f x]> (windows w)) w)
           | None => (Throw TypeError, w)
           end.

Definition getObject (l : nat) : M object :=
  fun w => match objects w !! l with
           | Some o => (Ret o, w)
           | None => (Throw TypeError, w)
           end.

(** The values that can be a prototype: an object, an array or [null]. *)
Definition object_like (v : json) : bool :=
  match v with
  | JNull | JArr _ | JObj _ => true
  | _ => false
  end.

(** Whether the assignment [o.__proto__ = v] arrives at the accessor
    [__proto__] of [Object.prototype]: the object has no own property of
    that name, and the prototype it has been given, if any, is an object
    or an array without such a property, after which [Object.prototype]
    comes.  A [null] prototype leaves nothing to inherit. *)
Definition reaches_proto_accessor (o : object) (proto : option json) : bool :=
  match obj_get "__proto__" o with
  | Some _ => false
  | None =>
      match proto with
      | None => true
      | Some (JObj p) =>
          match obj_get "__proto__" p with Some _ => false | None => true end
      | Some (JArr _) => true
      | Some _ => false
      end
  end.

(** The assignment [o[k] = v] on the plain object at [l].  It sets the own
    property [k], except where the key [__proto__] arrives at the accessor
    of [Object.prototype]: that one makes an object, an array or [null] the
    prototype of [o], sets no property, and does nothing for another
    value. *)
Definition setProperty (l : nat) (k : string) (v : json) : M unit :=
  fun w =>
    match objects w !! l with
    | Some o =>
        if string_eqb k "__proto__"
           && reaches_proto_accessor o (prototypes w !! l)
        then
          if object_like v
          then (Ret tt, with_prototypes (<[l := v]> (prototypes w)) w)
          else (Ret tt, w)
        else (Ret tt, with_objects (<[l := obj_set k v o]> (objects w)) w)
    | None => (Throw TypeError, w)
    end.

(** A new empty object [{}], at a reference that is not in use. *)
Definition newObject : M nat :=
  fun w => let l := fresh (dom (objects w) ∪ dom (prototypes w)) in
           (Ret l, with_objects (<[l := []]> (objects w)) w).

(** [user().assert(cond, msg)]. *)
Definition user_assert (cond : bool) (msg : string) : M unit :=
  if cond then ret tt else throw (AssertionFailure msg).

(** [dev().error(tag, msg)]: reports and returns. *)
Definition dev_error (tag msg : string) : M unit :=
  fun w => (Ret tt, with_log (log w ++ [(tag, msg)]) w).

(** ** The functions of [3p-frame.js] *)

Section Frame.

(** [parseUrl] of [./url], the build's version token
    [$internalRuntimeVersion$], [getMode()] and [urls] of [./config]. *)
Variable parseUrl : string -> Url.
Variable internalRuntimeVersion : string.
Variable mode : Mode.
Variable urls : Urls.

(** Modelled from the spec: [assertHttpsUrl] of [./url], which is not part
    of the sources at hand: "assert the URL scheme is HTTPS (fail
    otherwise)"; it returns the URL string it was given. *)
Definition assertHttpsUrl (urlString : string) : M string :=
  user_assert (string_eqb (protocol (parseUrl urlString)) "https:")
    "source must start with https://";;
  mret urlString.

Definition getRandom (win : nat) : M string :=
  w ← getWindow win;
  match crypto w with
  | Some getRandomValues =>
      let uint32array0 := (getRandomValues (drawn w) mod 2 ^ 32)%N in
      let uint32array1 := (getRandomValues (S (drawn w)) mod 2 ^ 32)%N in
      updateWindow win (with_drawn (drawn w + 2)%nat);;
      mret (String_N uint32array0 +:+ String_N uint32array1)
  | None =>
      let x := Math_random w (drawn w) in
      updateWindow win (with_drawn (drawn w + 1)%nat);;
      mret (substr (String_float x) 2 +:+ "0")
  end.

Definition getSubDomain (win : nat) : M string :=
  rand ← getRandom win;
  mret ("d-" +:+ rand).

Definition getAdsLocalhost (win : nat) : M string :=
  if urls_localDev urls then mret ("//" +:+ thirdPartyFrameHost urls)
  else
    w ← getWindow win;
    match if_truthy (Some (port (location w))) with
    | Some p => mret ("http://ads.localhost:" +:+ p)
    | None =>
        match parent w with
        | Some parentWin =>
            pw ← getWindow parentWin;
            mret ("http://ads.localhost:" +:+ port (location pw))
        | None => throw TypeError
        end
    end.

Definition getOverrideBootstrapBaseUrl : M (option string) :=
  fun σ => (Ret (overrideBootstrapBaseUrl σ), σ).

Definition getDefaultBootstrapBaseUrl (parentWindow : nat)
    (opt_srcFileBasename : option string) : M string :=
  let srcFileBasename := or_else opt_srcFileBasename "frame" in
  if localDev mode || test mode then
    override ← getOverrideBootstrapBaseUrl;
    match if_truthy override with
    | Some u => mret u
    | None =>
        host ← getAdsLocalhost parentWindow;
        mret (host +:+ "/dist.3p/"
              +:+ (if minified mode
                   then internalRuntimeVersion +:+ "/" +:+ srcFileBasename
                   else "current/" +:+ srcFileBasename +:+ ".max")
              +:+ ".html")
    end
  else
    sub ← getSubDomain parentWindow;
    mret ("https://" +:+ sub +:+ "." +:+ thirdPartyFrameHost urls +:+ "/"
          +:+ internalRuntimeVersion +:+ "/" +:+ srcFileBasename +:+ ".html").

Definition getCustomBootstrapBaseUrl (parentWindow : nat)
    (opt_strictForUnitTest : bool) : M (option string) :=
  w ← getWindow parentWindow;
  match meta_amp_3p_iframe_src w with
  | None => mret None
  | Some content =>
      url ← assertHttpsUrl content;
      user_assert (indexOf url "?" =? -1)
        "3p iframe url must not include query string";;
      let parsed := parseUrl url in
      user_assert
        ((string_eqb (hostname parsed) "localhost" && negb opt_strictForUnitTest)
         || negb (string_eqb (origin parsed)
                    (origin (parseUrl (href (location w))))))
        "3p iframe url must not be on the same origin as the current document";;
      mret (Some (url +:+ "?" +:+ internalRuntimeVersion))
  end.

Definition getBootstrapBaseUrl (parentWindow : nat)
    (opt_strictForUnitTest : bool) : M string :=
  w ← getWindow parentWindow;
  match if_truthy (bootstrapBaseUrl w) with
  | Some cached => mret cached
  | None =>
      custom ← getCustomBootstrapBaseUrl parentWindow opt_strictForUnitTest;
      url ← match if_truthy custom with
            | Some u => mret u
            | None => getDefaultBootstrapBaseUrl parentWindow None
            end;
      updateWindow parentWindow (with_bootstrapBaseUrl (Some url));;
      mret url
  end.

Definition setDefaultBootstrapBaseUrlForTesting (url : option string) : M unit :=
  fun σ => (Ret tt, with_override url σ).

Definition resetBootstrapBaseUrlForTesting (win : nat) : M unit :=
  updateWindow win (with_bootstrapBaseUrl None).

(** The loop of [generateSentinel]: it ends at a window that is [null] or
    its own parent. *)
Fixpoint windowDepth_from (fuel : nat) (ws : gmap nat Window)
    (win : option nat) (windowDepth : N) : result N :=
  match fuel with
  | O => Throw OutOfFuel
  | S fuel =>
      match win with
      | None => Ret windowDepth
      | Some i =>
          match ws !! i with
          | None => Throw TypeError
          | Some w =>
              if decide (parent w = Some i) then Ret windowDepth
              else windowDepth_from fuel ws (parent w) (windowDepth + 1)
          end
      end
  end.

Definition generateSentinel (fuel : nat) (parentWindow : nat) : M string :=
  windowDepth ← (fun σ =>
    (windowDepth_from fuel (windows σ) (Some parentWindow) 0, σ));
  rand ← getRandom parentWindow;
  mret (String_N windowDepth +:+ "-" +:+ rand).

Definition AMP_MESSAGE_PREFIX : string := "amp-".

Inductive MessageType : Type :=
| SEND_EMBED_STATE
| EMBED_STATE
| SEND_EMBED_CONTEXT
| EMBED_CONTEXT
| SEND_INTERSECTIONS
| INTERSECTION
| EMBED_SIZE
| EMBED_SIZE_CHANGED
| EMBED_SIZE_DENIED
| SEND_POSITIONS
| POSITION.

Definition MessageType_value (t : MessageType) : string :=
  match t with
  | SEND_EMBED_STATE => "send-embed-state"
  | EMBED_STATE => "embed-state"
  | SEND_EMBED_CONTEXT => "send-embed-context"
  | EMBED_CONTEXT => "embed-context"
  | SEND_INTERSECTIONS => "send-intersections"
  | INTERSECTION => "intersection"
  | EMBED_SIZE => "embed-size"
  | EMBED_SIZE_CHANGED => "embed-size-changed"
  | EMBED_SIZE_DENIED => "embed-size-denied"
  | SEND_POSITIONS => "send-positions"
  | POSITION => "position"
  end.

(** [data] is a reference into the object store; leaving it out makes a
    new [{}]. *)
Definition serializeMessage (type sentinel : string) (data : option nat)
    (rtvVersion : option string) : M string :=
  message ← match data with
            | Some l => mret l
            | None => newObject
            end;
  setProperty message "type" (JStr type);;
  setProperty message "sentinel" (JStr sentinel);;
  o ← getObject message;
  mret (AMP_MESSAGE_PREFIX +:+ or_else rtvVersion EmptyString +:+ JSON_stringify o).

Definition isAmpMessage (message : json) : bool :=
  match message with
  | JStr s => indexOf s AMP_MESSAGE_PREFIX =? 0
  | _ => false
  end.

(** The result [null] is [JNull]; [message.indexOf] on a value that has
    passed [isAmpMessage] is the string method. *)
Definition deserializeMessage (message : json) : M json :=
  if negb (isAmpMessage message) then mret JNull
  else
    match message with
    | JStr s =>
        let startPos := indexOf s "{" in
        if startPos =? -1 then
          dev_error "MESSAGING" ("Failed to parse message: " +:+ s);;
          mret JNull
        else
          match JSON_parse (substr s startPos) with
          | Some v => mret v
          | None =>
              dev_error "MESSAGING" ("Failed to parse message: " +:+ s);;
              mret JNull
          end
    | _ => throw TypeError
    end.

(** [nested ws win n]: the parent chain of [win] reaches, after [n]
    steps, a window that is its own parent. *)
Inductive nested (ws : gmap nat Window) : nat -> nat -> Prop :=
| nested_top win w :
    ws !! win = Some w -> parent w = Some win -> nested ws win 0
| nested_child win w p n :
    ws !! win = Some w -> parent w = Some p -> p <> win ->
    nested ws p n -> nested ws win (S n).

End Frame.

(** ** Attribute scraping and preloading *)

(** An element, as far as [addDataAndJsonAttributes_] reads it: its
    attributes, name and value, in document order. *)
Record Element := { element_attributes : list (string * string) }.

(** [element.getAttribute(name)]: [None] is [null]. *)
Fixpoint getAttribute (attrs : list (string * string)) (name : string)
    : option string :=
  match attrs with
  | [] => None
  | (n, v) :: r => if string_eqb n name then Some v else getAttribute r name
  end.

Fixpoint indexed_from {A} (i : N) (l : list A) : list (string * A) :=
  match l with
  | [] => []
  | x :: r => (String_N i, x) :: indexed_from (i + 1)%N r
  end.

Fixpoint chars (s : string) : list json :=
  match s with
  | EmptyString => []
  | String c r => JStr (String c EmptyString) :: chars r
  end.

(** What [for (const key in obj)] visits, each key with [obj[key]], for a
    value [obj] that [JSON.parse] has made: the properties of an object,
    the indices of an array or of a string, and nothing for the other
    values. *)
Definition for_in (obj : json) : list (string * json) :=
  match obj with
  | JObj o => o
  | JArr l => indexed_from 0 l
  | JStr s => indexed_from 0 (chars s)
  | _ => []
  end.

(** [window.preconnect.preload(url, as)] calls, oldest first. *)
Definition Preloads := list (string * string).

(** [nested] for a hierarchy that ends in a window without parent:
    [detached ws win n] when the loop of [generateSentinel] leaves the
    hierarchy through a [null] parent after [n] steps. *)
Inductive detached (ws : gmap nat Window) : nat -> nat -> Prop :=
| detached_orphan win w :
    ws !! win = Some w -> parent w = None -> detached ws win 1
| detached_child win w p n :
    ws !! win = Some w -> parent w = Some p -> p <> win ->
    detached ws p n -> detached ws win (S n).

(** The entries the data attributes give: the name without [data-], in
    camel case, and the value. *)
Definition data_entries (dashToCamelCase : string -> string)
    (attrs : list (string * string)) : list (string * json) :=
  List.map (fun a => (dashToCamelCase (substr (fst a) 5), JStr (snd a)))
    (List.filter (fun a => indexOf (fst a) "data-" =? 0) attrs).

(** The assignment [o[k] = v] of [setProperty] on an object given by its
    own properties and by the prototype it has been given, if any. *)
Definition assign (s : object * option json) (kv : string * json)
    : object * option json :=
  if string_eqb (fst kv) "__proto__" && reaches_proto_accessor (fst s) (snd s)
  then if object_like (snd kv) then (fst s, Some (snd kv)) else s
  else (obj_set (fst kv) (snd kv) (fst s), snd s).

(** Assignments [o[k] = v] one after the other. *)
Definition assign_all (entries : list (string * json))
    (s : object * option json) : object * option json :=
  fold_left assign entries s.

(** The world in which the object at [l] has the own properties and the
    prototype [s]. *)
Definition put_object (l : nat) (s : object * option json) (σ : World) : World :=
  with_prototypes (partial_alter (fun _ => snd s) l (prototypes σ))
    (with_objects (<[l := fst s]> (objects σ)) σ).

(** What the [json] attribute of an element gives: the properties of the
    value it parses to, nothing when the attribute is absent or empty. *)
Definition json_entries (tryParseJson : string -> json)
    (attrs : list (string * string)) : list (string * json) :=
  match if_truthy (getAttribute attrs "json") with
  | Some json => for_in (tryParseJson json)
  | None => []
  end.

(** The doubles of the unit interval that [String] prints without
    exponent: zero and those from [1e-6] on. *)
Definition plain_decimal (x : float) : Prop :=
  match x with
  | FZero => True
  | FDec _ n => -6 < n
  end.

(** [σ'] differs from [σ] at most in the entropy consumed in window
    [win]. *)
Definition drew_only (win : nat) (σ σ' : World) : Prop :=
  σ' = σ
  \/ exists w n, windows σ !! win = Some w
                 /\ σ' = with_windows (<[win := with_drawn n w]> (windows σ)) σ.

Section Scraping.

(** [dashToCamelCase] of [./string] and [tryParseJson] of [./json], which
    returns [undefined] for a text that is not JSON; the version token,
    [getMode()] and [urls] as before. *)
Variable parseUrl : string -> Url.
Variable internalRuntimeVersion : string.
Variable mode : Mode.
Variable urls : Urls.
Variable dashToCamelCase : string -> string.
Variable tryParseJson : string -> json.

(** The first loop of [addDataAndJsonAttributes_]. *)
Fixpoint copyDataAttributes (attrs : list (string * string)) (attributes : nat)
    : M unit :=
  match attrs with
  | [] => mret tt
  | (name, value) :: rest =>
      (if negb (indexOf name "data-" =? 0) then mret tt
       else setProperty attributes (dashToCamelCase (substr name 5)) (JStr value));;
      copyDataAttributes rest attributes
  end.

(** The loop [for (const key in obj) attributes[key] = obj[key]]. *)
Fixpoint copyProperties (entries : list (string * json)) (attributes : nat)
    : M unit :=
  match entries with
  | [] => mret tt
  | (key, v) :: rest =>
      setProperty attributes key v;;
      copyProperties rest attributes
  end.

(** [attributes] is a reference into the object store; the error
    [user().createError] makes is an assertion failure, as that of
    [user().assert]. *)
Definition addDataAndJsonAttributes_ (element : Element) (attributes : nat)
    : M unit :=
  copyDataAttributes (element_attributes element) attributes;;
  match if_truthy (getAttribute (element_attributes element) "json") with
  | Some json =>
      let obj := tryParseJson json in
      if is_undefined obj then
        throw (AssertionFailure "Error parsing JSON in json attribute in element")
      else copyProperties (for_in obj) attributes
  | None => mret tt
  end.

(** [preconnect] is the list of the preloads asked for so far; the calls
    made before an exception stay made. *)
Definition preloadBootstrap (window : nat) (preconnect : Preloads) (σ : World)
    : result unit * (World * Preloads) :=
  match getBootstrapBaseUrl parseUrl internalRuntimeVersion mode urls window false σ with
  | (Throw e, σ1) => (Throw e, (σ1, preconnect))
  | (Ret url, σ1) =>
      let preconnect1 := preconnect ++ [(url, "document"%string)] in
      match
        (if localDev mode
         then host ← getAdsLocalhost urls window;
              mret (host +:+ "/dist.3p/current/integration.js")
         else mret (thirdParty urls +:+ "/" +:+ internalRuntimeVersion +:+ "/f.js"))
          σ1
      with
      | (Throw e, σ2) => (Throw e, (σ2, preconnect1))
      | (Ret scriptUrl, σ2) =>
          (Ret tt, (σ2, preconnect1 ++ [(scriptUrl, "script"%string)]))
      end
  end.

End Scraping.

(** A [tryParseJson] on the JSON of this development. *)
Definition example_tryParseJson (s : string) : json :=
  match JSON_parse s with
  | Some v => v
  | None => JUndefined
  end.

(** ** Notions used to state the round trip of the codec *)

(** Structural induction on values, with the elements of arrays and
    objects. *)
Definition json_ind (P : json -> Prop)
    (Hundefined : P JUndefined) (Hnull : P JNull)
    (Hbool : forall b, P (JBool b)) (Hnum : forall x, P (JNum x))
    (Hstr : forall s, P (JStr s))
    (Harr : forall l, Forall P l -> P (JArr l))
    (Hobj : forall o, Forall (fun kv => P (snd kv)) o -> P (JObj o)) :
  forall v, P v :=
  fix go (v : json) : P v :=
    match v with
    | JUndefined => Hundefined
    | JNull => Hnull
    | JBool b => Hbool b
    | JNum x => Hnum x
    | JStr s => Hstr s
    | JArr l =>
        Harr l ((fix all (l : list json) : Forall P l :=
                   match l with
                   | [] => List.Forall_nil P
                   | x :: r => List.Forall_cons P x r (go x) (all r)
                   end) l)
    | JObj o =>
        Hobj o ((fix all (o : list (string * json)) : Forall (fun kv => P (snd kv)) o :=
                   match o with
                   | [] => List.Forall_nil _
                   | kv :: r => List.Forall_cons _ kv r (go (snd kv)) (all r)
                   end) o)
    end.

(** The printed properties of an object. *)
Fixpoint stringify_members (o : object) : list string :=
  match o with
  | [] => []
  | (k, v) :: r =>
      if is_undefined v then stringify_members r
      else (quote k +:+ String ":" (stringify_value v)) :: stringify_members r
  end.

Fixpoint members_safe (o : object) : bool :=
  match o with
  | [] => true
  | (_, v) :: r => json_safe v && members_safe r
  end.

Fixpoint members_well_formed (o : object) : bool :=
  match o with
  | [] => true
  | (_, v) :: r => well_formed v && members_well_formed r
  end.

(** The properties of an object as they come back. *)
Fixpoint transmitted_members (o : object) : object :=
  match o with
  | [] => []
  | (k, v) :: r =>
      if is_undefined v then transmitted_members r
      else (k, transmitted v) :: transmitted_members r
  end.

(** The head of what follows a numeral is not a digit. *)
Definition no_digit_head (s : string) : Prop :=
  match s with String c _ => is_digit c = false | EmptyString => True end.

(** What may follow a value inside a JSON text. *)
Definition delim (s : string) : Prop :=
  match s with
  | EmptyString => True
  | String c _ => c = ","%char \/ c = "]"%char \/ c = "}"%char
  end.

(** A first character of a printed value. *)
Definition value_head (c : code) : Prop :=
  is_ws c = false /\ code_eqb c "]" = false /\ code_eqb c "}" = false.

(** [parse_value] reads back a printed value and leaves what follows. *)
Definition roundtrips (v : json) : Prop :=
  json_safe v = true ->
  forall fuel rest,
    (string_length (stringify_value v) <= fuel)%nat -> delim rest ->
    parse_value fuel (stringify_value v +:+ rest) = Some (v, rest).

(** A number with another sign. *)
Definition with_sign (negative : bool) (x : number) : number :=
  match x with
  | NaN => NaN
  | Infinity _ => Infinity negative
  | Finite _ m e => Finite negative m e
  end.

(** A numeral given by its parts, as [parse_number] reads it: the sign,
    the digits of the integer part and of the fraction, and the sign and
    the digits of the exponent when there is one. *)
Definition numeral (negative : bool) (int frac : string)
    (exponent : option (bool * string)) : string :=
  (if negative then "-" else EmptyString)
  +:+ int
  +:+ (if nonempty frac then String "." frac else EmptyString)
  +:+ match exponent with
      | Some (eneg, ed) => String "e" ((if eneg : bool then "-" else "+") +:+ ed)
      | None => EmptyString
      end.

Definition exponent_value (exponent : option (bool * string)) : Z :=
  match exponent with
  | Some (eneg, ed) =>
      if eneg : bool then - Z.of_N (digits_value 0 ed) else Z.of_N (digits_value 0 ed)
  | None => 0
  end.

(** ** Example pages *)

Definition example_urls : Urls :=
  {| thirdParty := "https://3p.ampproject.net";
     thirdPartyFrameHost := "ampproject.net";
     urls_localDev := false |}.

Definition production : Mode :=
  {| localDev := false; test := false; minified := true |}.

Definition development : Mode :=
  {| localDev := true; test := false; minified := false |}.

Definition minified_development : Mode :=
  {| localDev := true; test := false; minified := true |}.

(** A [parseUrl] for the URLs of the examples. *)
Definition example_parseUrl (u : string) : Url :=
  match strip "https://localhost:8000" u with
  | Some _ =>
      {| protocol := "https:"; hostname := "localhost";
         origin := "https://localhost:8000" |}
  | None =>
      match strip "https://" u with
      | Some _ =>
          {| protocol := "https:"; hostname := "3p.example.com";
             origin := "https://3p.example.com" |}
      | None =>
          {| protocol := "http:"; hostname := "localhost";
             origin := "http://localhost:8000" |}
      end
  end.

(** A window of a document served from [https://localhost:8000]. *)
Definition example_window (p : nat) (c : option (nat -> N))
    (meta : option string) : Window :=
  {| parent := Some p;
     location := {| href := "https://localhost:8000/article.html"; port := "8000" |};
     crypto := c;
     Math_random := fun _ => FDec 1 (-6);
     drawn := 0;
     meta_amp_3p_iframe_src := meta;
     bootstrapBaseUrl := None |}.

Definition example_world (ws : gmap nat Window) : World :=
  {| windows := ws;
     objects := {[ 7%nat := [("width"%string, JNum (number_of_Z 300));
                             ("height"%string, JNum (number_of_Z 250))] ]};
     prototypes := ∅;
     overrideBootstrapBaseUrl := None;
     log := [] |}.

Definition counting (i : nat) : N := N.of_nat (S i).

(** A top-level page with a strong random source. *)
Definition top_page : World :=
  example_world {[ 0%nat := example_window 0 (Some counting) None ]}.

(** A top-level page where only [Math.random] is at hand; it returns
    [1e-7]. *)
Definition weak_page : World :=
  example_world {[ 0%nat := example_window 0 None None ]}.

(** A page that declares a custom bootstrap URL. *)
Definition custom_page (content : string) : World :=
  example_world {[ 0%nat := example_window 0 (Some counting) (Some content) ]}.

(** Window 3 inside window 2 inside window 1 inside the top window 0. *)
Definition nested_page : World :=
  example_world
    (<[3%nat := example_window 2 (Some counting) None]>
       (<[2%nat := example_window 1 (Some counting) None]>
          (<[1%nat := example_window 0 (Some counting) None]>
             {[ 0%nat := example_window 0 (Some counting) None ]}))).

Definition is_lower (c : code) : bool :=
  let n := code_to_N c in ((97 <=? n) && (n <=? 122))%N.

(** A [dashToCamelCase] for the examples: a hyphen before a small letter
    goes and the letter becomes a capital. *)
Fixpoint example_dashToCamelCase (s : string) : string :=
  match s with
  | EmptyString => EmptyString
  | String a t =>
      if code_eqb a "-" then
        match t with
        | String c r =>
            if is_lower c
            then String (code_of_N (code_to_N c - 32)) (example_dashToCamelCase r)
            else String a (example_dashToCamelCase t)
        | EmptyString => String a EmptyString
        end
      else String a (example_dashToCamelCase t)
  end.

(** An [amp-ad] element with two data attributes and a [json]
    attribute. *)
Definition example_element (json : string) : Element :=
  {| element_attributes :=
       [("type"%string, "adsense"%string);
        ("data-ad-client"%string, "ca-pub-1"%string);
        ("data-slot"%string, "7"%string);
        ("json"%string, json)] |}.

(** A window without parent and without port in its location. *)
Definition orphan_window : Window :=
  {| parent := None;
     location := {| href := "https://localhost/article.html";
                    port := EmptyString |};
     crypto := Some counting;
     Math_random := fun _ => FZero;
     drawn := 0;
     meta_amp_3p_iframe_src := None;
     bootstrapBaseUrl := None |}.

(** Window 1 inside the window 0, which has no parent. *)
Definition orphan_page : World :=
  example_world
    (<[1%nat := example_window 0 (Some counting) None]>
       {[ 0%nat := orphan_window ]}).


(** Data with a fraction, a number beyond [2^53], a number printed with an
    exponent, a string with a character beyond Latin-1, with a lone
    surrogate and with characters that are escaped, an array index among
    the keys, and nested values. *)
Definition example_payload : object :=
  [("7"%string, JBool true);
   ("ratio"%string, JNum (decimal_to_number false 5 (-1)));
   ("offset"%string, JNum (decimal_to_number true 15 (-9)));
   ("area"%string, JNum (decimal_to_number false 123456789012345678 4));
   ("price"%string,
    JStr (String (Code "032" "172") (String (Code "216" "061") "5 \ a")));
   ("sizes"%string,
    JArr [JNum (number_of_Z 300); JNull;
          JObj [("__proto__"%string, JArr []); ("w"%string, JNum (number_of_Z 0))]])].

Definition payload_page : World :=
  with_objects {[ 9%nat := example_payload ]} top_page.

(** Data with values that JSON does not carry. *)
Definition example_lossy : object :=
  [("width"%string, JNum NaN);
   ("height"%string, JUndefined);
   ("left"%string, JNum (Finite true 0 (-1074)));
   ("sizes"%string, JArr [JUndefined; JNum (Infinity false); JNum (number_of_Z 1)])].

Definition lossy_page : World :=
  with_objects {[ 9%nat := example_lossy ]} top_page.

(** ** Strings *)

Lemma append_cons c a b : String c a +:+ b = String c (a +:+ b).
Proof. reflexivity. Qed.

Lemma append_nil_r a : a +:+ EmptyString = a.
Proof. induction a as [|c a IH]; [reflexivity|]. rewrite append_cons. by rewrite IH. Qed.

Lemma append_assoc a b c : (a +:+ b) +:+ c = a +:+ (b +:+ c).
Proof. induction a as [|x a IH]; [reflexivity|]. rewrite !append_cons. by rewrite IH. Qed.

Lemma length_append a b :
  string_length (a +:+ b) = (string_length a + string_length b)%nat.
Proof. induction a as [|x a IH]; [reflexivity|]. rewrite append_cons. simpl. by rewrite IH. Qed.

Lemma code_eqb_spec a b : reflect (a = b) (code_eqb a b).
Proof.
  destruct a as [h l], b as [h' l']. simpl.
  destruct (Ascii.eqb_spec h h'), (Ascii.eqb_spec l l'); constructor; congruence.
Qed.

Lemma code_eqb_refl c : code_eqb c c = true.
Proof. by destruct (code_eqb_spec c c). Qed.

Lemma string_eqb_spec a b : reflect (a = b) (string_eqb a b).
Proof.
  revert b. induction a as [|c a IH]; intros [|d b]; simpl; try by constructor.
  destruct (code_eqb_spec c d) as [->|]; simpl; [|constructor; congruence].
  destruct (IH b); constructor; congruence.
Qed.

Lemma string_eqb_refl s : string_eqb s s = true.
Proof. by destruct (string_eqb_spec s s). Qed.

Lemma string_eqb_eq a b : string_eqb a b = true <-> a = b.
Proof. by destruct (string_eqb_spec a b). Qed.

Lemma string_eqb_neq a b : string_eqb a b = false <-> a <> b.
Proof. by destruct (string_eqb_spec a b). Qed.

Lemma string_eqb_sym a b : string_eqb a b = string_eqb b a.
Proof.
  destruct (string_eqb_spec a b) as [->|H]; [by rewrite string_eqb_refl|].
  symmetry. apply string_eqb_neq. congruence.
Qed.

(** *** Code units as numbers *)

Lemma code_to_N_bound c : (code_to_N c < 65536)%N.
Proof.
  destruct c as [h l]. simpl.
  pose proof (N_ascii_bounded h). pose proof (N_ascii_bounded l). lia.
Qed.

Lemma code_of_to_N c : code_of_N (code_to_N c) = c.
Proof.
  destruct c as [h l]. unfold code_of_N, code_to_N.
  pose proof (N_ascii_bounded h). pose proof (N_ascii_bounded l).
  replace ((N_of_ascii h * 256 + N_of_ascii l) / 256)%N with (N_of_ascii h)
    by (apply N.div_unique with (N_of_ascii l); lia).
  replace ((N_of_ascii h * 256 + N_of_ascii l) mod 256)%N with (N_of_ascii l)
    by (apply N.mod_unique with (N_of_ascii h); lia).
  by rewrite !ascii_N_embedding.
Qed.

Lemma code_to_of_N n : (n < 65536)%N -> code_to_N (code_of_N n) = n.
Proof.
  intros H. unfold code_of_N, code_to_N.
  rewrite !N_ascii_embedding.
  - pose proof (N.div_mod n 256). lia.
  - apply N.mod_lt. lia.
  - apply N.Div0.div_lt_upper_bound. lia.
Qed.

Lemma code_to_N_inj a b : code_to_N a = code_to_N b -> a = b.
Proof. intros H. by rewrite <- (code_of_to_N a), <- (code_of_to_N b), H. Qed.

Lemma code_eqb_N a b : code_eqb a b = (code_to_N a =? code_to_N b)%N.
Proof.
  destruct (code_eqb_spec a b) as [->|H]; [by rewrite N.eqb_refl|].
  symmetry. apply N.eqb_neq. intros E. by apply H, code_to_N_inj.
Qed.

(** A code unit below 256, as the literals give it. *)
Lemma code_small c : (code_to_N c < 256)%N -> exists lo, c = Code Ascii.zero lo.
Proof.
  destruct c as [h l]. simpl. intros H. exists l. f_equal.
  rewrite <- (ascii_N_embedding h). replace (N_of_ascii h) with 0%N; [done|].
  pose proof (N_ascii_bounded l). lia.
Qed.

Lemma is_digit_spec c :
  is_digit c = true <-> (48 <= code_to_N c <= 57)%N.
Proof. unfold is_digit. rewrite andb_true_iff, !N.leb_le. tauto. Qed.

(** ** String literals of JSON *)

Lemma hex_value_hex_digit d : (d < 16)%N -> hex_value (hex_digit d) = Some d.
Proof.
  intros H.
  assert (d = 0 \/ d = 1 \/ d = 2 \/ d = 3 \/ d = 4 \/ d = 5 \/ d = 6 \/ d = 7
          \/ d = 8 \/ d = 9 \/ d = 10 \/ d = 11 \/ d = 12 \/ d = 13 \/ d = 14
          \/ d = 15)%N as Hd by lia.
  repeat (destruct Hd as [->|Hd]; [reflexivity|]). by subst.
Qed.

Lemma hex4_unicode n :
  (n < 65536)%N ->
  hex4 (hex_digit (n / 4096)) (hex_digit ((n / 256) mod 16))
       (hex_digit ((n / 16) mod 16)) (hex_digit (n mod 16)) = Some n.
Proof.
  intros H. unfold hex4.
  rewrite !hex_value_hex_digit;
    try (apply N.mod_lt; lia); try (apply N.Div0.div_lt_upper_bound; lia).
  f_equal.
  pose proof (N.div_mod n 16). pose proof (N.div_mod (n / 16) 16).
  pose proof (N.div_mod (n / 256) 16).
  replace (n / 256)%N with (n / 16 / 16)%N in * by (rewrite N.Div0.div_div; f_equal).
  replace (n / 4096)%N with (n / 16 / 16 / 16)%N by (rewrite !N.Div0.div_div; f_equal).
  lia.
Qed.

Lemma parse_chars_plain c r :
  (32 <= code_to_N c)%N -> code_to_N c <> 34%N -> code_to_N c <> 92%N ->
  parse_chars (String c r) = option_map (cons_char c) (parse_chars r).
Proof.
  intros H1 H2 H3. cbn [parse_chars]. rewrite !code_eqb_N.
  change (code_to_N dquote) with 34%N. change (code_to_N "\") with 92%N.
  apply N.eqb_neq in H2, H3. rewrite H2, H3.
  apply N.ltb_ge in H1. by rewrite H1.
Qed.

Lemma parse_chars_unicode_escape c tail :
  parse_chars (unicode_escape c +:+ tail)
  = option_map (cons_char c) (parse_chars tail).
Proof.
  unfold unicode_escape. rewrite !append_cons.
  change (EmptyString +:+ tail) with tail.
  set (h1 := hex_digit _). set (h2 := hex_digit _).
  set (h3 := hex_digit _). set (h4 := hex_digit _).
  change (parse_chars (String "\" (String "u"
            (String h1 (String h2 (String h3 (String h4 tail)))))))
    with (match hex4 h1 h2 h3 h4 with
          | Some n => option_map (cons_char (code_of_N n)) (parse_chars tail)
          | None => None
          end).
  subst h1 h2 h3 h4. rewrite hex4_unicode by apply code_to_N_bound.
  by rewrite code_of_to_N.
Qed.

Lemma escape_char_plain c :
  (256 <= code_to_N c)%N -> escape_char c = String c EmptyString.
Proof.
  intros H. unfold escape_char.
  repeat (match goal with
          | |- context [(code_to_N c =? ?k)%N] =>
              replace (code_to_N c =? k)%N with false by (symmetry; apply N.eqb_neq; lia)
          end).
  replace (code_to_N c <? 32)%N with false by (symmetry; apply N.ltb_ge; lia).
  reflexivity.
Qed.

Lemma parse_chars_escape_char c tail :
  parse_chars (escape_char c +:+ tail) = option_map (cons_char c) (parse_chars tail).
Proof.
  destruct (N.lt_ge_cases (code_to_N c) 256) as [H|H].
  - destruct (code_small c H) as [lo ->].
    destruct lo as [[] [] [] [] [] [] [] []]; reflexivity.
  - rewrite escape_char_plain by done. rewrite append_cons.
    change (EmptyString +:+ tail) with tail. apply parse_chars_plain; lia.
Qed.

Lemma parse_chars_surrogate c r :
  is_leading_surrogate c = true \/ is_trailing_surrogate c = true ->
  parse_chars (String c r) = option_map (cons_char c) (parse_chars r).
Proof.
  unfold is_leading_surrogate, is_trailing_surrogate.
  rewrite !andb_true_iff, !N.leb_le. intros H. apply parse_chars_plain; lia.
Qed.

Lemma parse_chars_escape_length n s rest :
  (string_length s <= n)%nat ->
  parse_chars (escape s +:+ String dquote rest) = Some (s, rest).
Proof.
  revert s. induction n as [|n IH]; intros s Hn.
  { destruct s; [reflexivity|simpl in Hn; lia]. }
  destruct s as [|c s]; [reflexivity|]. simpl in Hn.
  cbn [escape].
  destruct (is_leading_surrogate c) eqn:Hl.
  - destruct s as [|c' s'].
    + rewrite parse_chars_unicode_escape. reflexivity.
    + destruct (is_trailing_surrogate c') eqn:Ht.
      * rewrite !append_cons. rewrite !parse_chars_surrogate by auto.
        simpl in Hn. rewrite IH by lia. reflexivity.
      * rewrite append_assoc, parse_chars_unicode_escape.
        rewrite IH by (simpl in *; lia). reflexivity.
  - destruct (is_trailing_surrogate c) eqn:Ht.
    + rewrite append_assoc, parse_chars_unicode_escape.
      rewrite IH by lia. reflexivity.
    + rewrite append_assoc, parse_chars_escape_char.
      rewrite IH by lia. reflexivity.
Qed.

Lemma parse_chars_escape s rest :
  parse_chars (escape s +:+ String dquote rest) = Some (s, rest).
Proof. by apply (parse_chars_escape_length (string_length s)). Qed.

(** ** Numbers: rounding and the shortest decimal *)

Lemma number_eqb_eq x y : number_eqb x y = true -> x = y.
Proof.
  destruct x as [|a|a m e], y as [|b|b m' e']; simpl; try done.
  - intros H. apply Bool.eqb_prop in H. by subst.
  - rewrite !andb_true_iff. intros [[H1 H2] H3].
    apply Bool.eqb_prop in H1. apply Z.eqb_eq in H2, H3. by subst.
Qed.

Lemma pow2_split e :
  -1074 <= e ->
  2 ^ Z.max e 0 * 2 ^ 1074 = 2 ^ (e + 1074) * 2 ^ Z.max (- e) 0.
Proof.
  intros He. destruct (Z.le_gt_cases 0 e).
  - rewrite Z.max_l, Z.max_r by lia. rewrite <- !Z.pow_add_r by lia.
    f_equal. lia.
  - rewrite Z.max_r, Z.max_l by lia. rewrite <- !Z.pow_add_r by lia.
    f_equal. lia.
Qed.

Lemma is_double_cases negative m e :
  is_double (Finite negative m e) = true ->
  0 <= m < 2 ^ 52 /\ e = -1074
  \/ 2 ^ 52 <= m < 2 ^ 53 /\ -1074 <= e <= 971.
Proof.
  unfold is_double. rewrite orb_true_iff, !andb_true_iff.
  rewrite !Z.leb_le, !Z.ltb_lt, Z.eqb_eq. tauto.
Qed.

Lemma div_half_even_exact m d : 0 < d -> div_half_even (m * d) d = m.
Proof.
  intros Hd. unfold div_half_even.
  rewrite Z.div_mul, Z.mod_mul by lia.
  change (2 * 0) with 0. by destruct (Z.compare_spec 0 d); try lia.
Qed.

(** Rounding gives back a double from any ratio that is this double. *)
Lemma round_ratio_exact negative m e p d :
  0 < d ->
  is_double (Finite negative m e) = true ->
  p * 2 ^ Z.max (- e) 0 = m * 2 ^ Z.max e 0 * d ->
  round_ratio negative p d = Finite negative m e.
Proof.
  intros Hd Hx Hp. apply is_double_cases in Hx.
  assert (-1074 <= e <= 971) as He by lia.
  assert (0 <= m < 2 ^ 53) as Hm.
  { assert (2 ^ 52 < 2 ^ 53) by (apply Z.pow_lt_mono_r; lia). lia. }
  assert (0 < 2 ^ Z.max (- e) 0) as Hpos by (apply Z.pow_pos_nonneg; lia).
  assert (0 < 2 ^ (e + 1074)) as Hpos' by (apply Z.pow_pos_nonneg; lia).
  assert (p * 2 ^ 1074 = m * (d * 2 ^ (e + 1074))) as Hu.
  { apply (Z.mul_reg_r _ _ (2 ^ Z.max (- e) 0)); [lia|].
    transitivity (p * 2 ^ Z.max (- e) 0 * 2 ^ 1074); [ring|].
    rewrite Hp.
    transitivity (m * d * (2 ^ Z.max e 0 * 2 ^ 1074)); [ring|].
    rewrite pow2_split by lia. ring. }
  unfold round_ratio. cbv zeta. rewrite Hu.
  assert (m * (d * 2 ^ (e + 1074)) / d = m * 2 ^ (e + 1074)) as ->.
  { replace (m * (d * 2 ^ (e + 1074))) with (m * 2 ^ (e + 1074) * d) by ring.
    apply Z.div_mul. lia. }
  assert (Z.max (Z.log2 (m * 2 ^ (e + 1074)) - 52) 0 = e + 1074) as ->.
  { destruct (Z.eq_dec m 0) as [->|Hm0].
    - rewrite Z.mul_0_l. change (Z.log2 0) with 0. lia.
    - rewrite Z.log2_mul_pow2 by lia.
      destruct Hx as [[Hs ->]|[Hn _]].
      + assert (Z.log2 m < 52) by (apply Z.log2_lt_pow2; lia). lia.
      + rewrite (Z.log2_unique m 52) by (change (2 ^ (52 + 1)) with (2 ^ 53); lia).
        lia. }
  rewrite div_half_even_exact by nia.
  destruct (Z.eqb_spec m (2 ^ 53)); [lia|].
  destruct (Z.ltb_spec 2045 (e + 1074)); [lia|].
  f_equal. lia.
Qed.

Lemma decimal_to_number_exact negative m e D E :
  is_double (Finite negative m e) = true ->
  D * 10 ^ Z.max E 0 * 2 ^ Z.max (- e) 0 = m * 2 ^ Z.max e 0 * 10 ^ Z.max (- E) 0 ->
  decimal_to_number negative D E = Finite negative m e.
Proof.
  intros Hx H. unfold decimal_to_number.
  apply round_ratio_exact; [apply Z.pow_pos_nonneg; lia|done..].
Qed.

Lemma decimal_to_number_zero negative E :
  decimal_to_number negative 0 E = Finite negative 0 (-1074).
Proof. apply decimal_to_number_exact; [done|]. by rewrite !Z.mul_0_l. Qed.

Lemma decimal_to_number_sign negative D E :
  decimal_to_number negative D E = with_sign negative (decimal_to_number false D E).
Proof.
  unfold decimal_to_number, round_ratio. cbv zeta.
  by destruct (2045 <? _).
Qed.

Lemma strip_zeros_value fuel s E :
  0 <= s ->
  exists t, 0 <= t /\ s = fst (strip_zeros fuel s E) * 10 ^ t
            /\ snd (strip_zeros fuel s E) = E + t
            /\ 0 <= fst (strip_zeros fuel s E).
Proof.
  revert s E. induction fuel as [|fuel IH]; intros s E Hs.
  { exists 0. simpl. lia. }
  simpl. destruct (Z.ltb_spec 0 s); simpl.
  2:{ exists 0. simpl. lia. }
  destruct (Z.eqb_spec (s mod 10) 0) as [Hm|Hm].
  2:{ exists 0. simpl. lia. }
  destruct (IH (s / 10) (E + 1)) as (t & Ht & Hv & He & Hp).
  { apply Z.div_pos; lia. }
  exists (t + 1). split; [lia|]. split; [|lia].
  rewrite Z.pow_add_r by lia. change (10 ^ 1) with 10.
  set (F := fst (strip_zeros fuel (s / 10) (E + 1))) in *.
  replace (F * (10 ^ t * 10)) with (10 * (F * 10 ^ t)) by ring.
  rewrite <- Hv. pose proof (Z.div_mod s 10 ltac:(lia)). lia.
Qed.

Lemma pow10_split n : 0 <= n -> 10 ^ n = 2 ^ n * 5 ^ n.
Proof. intros. by rewrite <- Z.pow_mul_l. Qed.

(** The decimal expansion of a double, with or without its trailing
    zeros, has the double as its Number value. *)
Lemma exact_decimal_represents m e t s0 :
  is_double (Finite false m e) = true ->
  0 <= t ->
  m * 2 ^ Z.max e 0 * 5 ^ Z.max (- e) 0 = s0 * 10 ^ t ->
  decimal_to_number false s0 (Z.min e 0 + t) = Finite false m e.
Proof.
  intros Hx Ht Hs. apply decimal_to_number_exact; [done|].
  set (a := Z.max e 0) in *. set (b := Z.max (- e) 0) in *.
  assert (0 <= a) by lia. assert (0 <= b) by lia.
  assert (Z.min e 0 = - b) as -> by lia.
  assert (0 < 5 ^ b) by (apply Z.pow_pos_nonneg; lia).
  assert (0 < 10 ^ t) by (apply Z.pow_pos_nonneg; lia).
  destruct (Z.le_gt_cases t b) as [Hle|Hgt].
  - rewrite Z.max_r by lia. rewrite Z.max_l by lia.
    change (10 ^ 0) with 1. rewrite Z.mul_1_r.
    apply (Z.mul_reg_r _ _ (10 ^ t)); [lia|].
    transitivity (s0 * 10 ^ t * 2 ^ b); [ring|]. rewrite <- Hs.
    transitivity (m * 2 ^ a * (10 ^ (- (- b + t)) * 10 ^ t)); [|ring].
    rewrite <- Z.pow_add_r by lia.
    replace (- (- b + t) + t) with b by lia.
    rewrite (pow10_split b) by lia. ring.
  - rewrite Z.max_l by lia. rewrite Z.max_r by lia.
    change (10 ^ 0) with 1. rewrite Z.mul_1_r.
    apply (Z.mul_reg_r _ _ (5 ^ b)); [lia|].
    rewrite Hs.
    replace t with ((- b + t) + b) at 2 by lia.
    rewrite (Z.pow_add_r 10 (- b + t) b) by lia. rewrite (pow10_split b) by lia. ring.
Qed.

Lemma candidate_represents m e s E c :
  candidate m e s E = Some c ->
  decimal_to_number false (fst c) (snd c) = Finite false m e.
Proof.
  unfold candidate.
  destruct (number_eqb _ _) eqn:H; [|done].
  intros Hc. inversion Hc; subst. by apply number_eqb_eq.
Qed.

Lemma candidate_nonneg m e s E c :
  0 <= s -> candidate m e s E = Some c -> 0 <= fst c.
Proof.
  unfold candidate. intros Hs.
  destruct (number_eqb _ _); [|done].
  intros Hc. inversion Hc; subst.
  by destruct (strip_zeros_value (Z.to_nat (Z.log2 s)) s E Hs) as (t & _ & _ & _ & ?).
Qed.

Lemma shortest_from_represents j m e E :
  is_double (Finite false m e) = true ->
  forall s, 0 <= s -> s = m * 2 ^ Z.max e 0 * 5 ^ Z.max (- e) 0 -> E = Z.min e 0 ->
  decimal_to_number false (fst (shortest_from j m e s E)) (snd (shortest_from j m e s E))
  = Finite false m e
  /\ 0 <= fst (shortest_from j m e s E).
Proof.
  intros Hx s Hs Hv HE. induction j as [|j IH].
  - cbn [shortest_from].
    destruct (strip_zeros_value (Z.to_nat (Z.log2 s)) s E Hs) as (t & Ht & Hs0 & HE0 & Hp).
    split; [|done]. rewrite HE0, HE.
    apply exact_decimal_represents; [done..|]. congruence.
  - cbn [shortest_from]. cbv zeta.
    assert (0 <= s / 10 ^ Z.of_nat (S j)) as Hlo
      by (apply Z.div_pos; [lia|apply Z.pow_pos_nonneg; lia]).
    destruct (candidate m e (s / 10 ^ Z.of_nat (S j)) _) as [c|] eqn:Hc;
      destruct (candidate m e (s / 10 ^ Z.of_nat (S j) + 1) _) as [c'|] eqn:Hc';
      try done.
    + pose proof (candidate_represents _ _ _ _ _ Hc).
      pose proof (candidate_represents _ _ _ _ _ Hc').
      pose proof (candidate_nonneg _ _ _ _ _ Hlo Hc).
      assert (0 <= s / 10 ^ Z.of_nat (S j) + 1) as Hhi by lia.
      pose proof (candidate_nonneg _ _ _ _ _ Hhi Hc').
      destruct (_ ?= _); [destruct (Z.even _)|..]; done.
    + split; [by eapply candidate_represents|by eapply candidate_nonneg].
    + split; [by eapply candidate_represents|eapply candidate_nonneg; [|done]; lia].
Qed.

(** What [shortest_decimal] gives has the double as its Number value. *)
Lemma shortest_decimal_represents m e :
  is_double (Finite false m e) = true -> 0 < m ->
  exists s n,
    shortest_decimal m e = FDec s n
    /\ decimal_to_number false (Z.pos s) (n - Z.of_nat (decimal_length (Z.pos s)))
       = Finite false m e.
Proof.
  intros Hx Hm. unfold shortest_decimal. cbv zeta.
  set (s := m * 2 ^ Z.max e 0 * 5 ^ Z.max (- e) 0).
  assert (0 <= s) as Hs.
  { subst s. apply Z.mul_nonneg_nonneg; [apply Z.mul_nonneg_nonneg|];
      try apply Z.pow_nonneg; lia. }
  destruct (shortest_from_represents (decimal_length s - 1) m e (Z.min e 0) Hx s Hs
              eq_refl eq_refl) as [Hr Hp].
  set (c := shortest_from _ _ _ _ _) in *.
  assert (fst c <> 0) as Hne.
  { intros H0. rewrite H0, decimal_to_number_zero in Hr. inversion Hr. lia. }
  do 2 eexists. split; [reflexivity|].
  rewrite Z2Pos.id by lia.
  replace (Z.of_nat (decimal_length (fst c)) + snd c - Z.of_nat (decimal_length (fst c)))
    with (snd c) by lia.
  exact Hr.
Qed.

(** ** Decimal digits *)

Lemma of_uint_acc_digits d acc :
  N.pos (Pos.of_uint_acc d acc) = digits_value (N.pos acc) (string_of_uint d).
Proof.
  revert acc. induction d; intros acc; simpl; [done|..]; rewrite IHd; f_equal; lia.
Qed.

Lemma of_uint_digits d : N.of_uint d = digits_value 0 (string_of_uint d).
Proof.
  unfold N.of_uint. induction d; simpl; [done|done|..]; by rewrite of_uint_acc_digits.
Qed.

Lemma digits_value_String_N n : digits_value 0 (String_N n) = n.
Proof. unfold String_N. by rewrite <- of_uint_digits, DecimalN.Unsigned.of_to. Qed.

Lemma digits_value_append acc a b :
  digits_value acc (a +:+ b) = digits_value (digits_value acc a) b.
Proof. revert acc. induction a as [|c a IH]; intros acc; [done|]. simpl. by rewrite IH. Qed.

Lemma digits_value_zeros acc j :
  digits_value acc (zeros j) = (acc * 10 ^ N.of_nat j)%N.
Proof.
  revert acc. induction j as [|j IH]; intros acc.
  - simpl. lia.
  - cbn [zeros digits_value]. rewrite IH.
    change (code_to_N "0" - 48)%N with 0%N.
    rewrite Nat2N.inj_succ, N.pow_succ_r'. lia.
Qed.

Lemma all_digits_append a b : all_digits (a +:+ b) = all_digits a && all_digits b.
Proof.
  induction a as [|c a IH]; [done|]. rewrite append_cons. simpl.
  by rewrite IH, andb_assoc.
Qed.

Lemma all_digits_String_N n : all_digits (String_N n) = true.
Proof. unfold String_N. induction (N.to_uint n); simpl; auto. Qed.

Lemma all_digits_zeros n : all_digits (zeros n) = true.
Proof. induction n; simpl; auto. Qed.

Lemma to_uint_normal n : unorm (N.to_uint n) = N.to_uint n.
Proof. rewrite <- (DecimalN.Unsigned.of_to n) at 2. symmetry. apply DecimalN.Unsigned.to_of. Qed.

Lemma String_N_head n :
  exists c r, String_N n = String c r /\ is_digit c = true.
Proof.
  unfold String_N.
  assert (N.to_uint n <> Nil) as H.
  { destruct n; [discriminate|]. apply DecimalPos.Unsigned.to_uint_nonnil. }
  destruct (N.to_uint n); [done|..]; simpl; eauto.
Qed.

(** The digits of a positive number do not start with a zero. *)
Lemma String_N_pos_head p :
  exists c r, String_N (N.pos p) = String c r /\ is_digit c = true
              /\ code_eqb c "0" = false.
Proof.
  unfold String_N. pose proof (to_uint_normal (N.pos p)) as Hn.
  pose proof (DecimalPos.Unsigned.to_uint_nonnil p) as Hnil.
  pose proof (DecimalPos.Unsigned.to_uint_nonzero p) as Hz.
  change (N.to_uint (N.pos p)) with (Pos.to_uint p) in *.
  destruct (Pos.to_uint p) as [|d|d|d|d|d|d|d|d|d|d] eqn:E; [done|..];
    try (simpl; do 2 eexists; repeat split; reflexivity).
  exfalso. unfold unorm in Hn. rewrite DecimalFacts.nzhead_D0 in Hn.
  destruct (nzhead d) as [|d'|d'|d'|d'|d'|d'|d'|d'|d'|d'] eqn:Ed;
    try discriminate Hn.
  - by inversion Hn; subst.
  - by apply (DecimalFacts.nzhead_nonzero d d').
Qed.

Lemma String_N_length n : (1 <= string_length (String_N n))%nat.
Proof. destruct (String_N_head n) as (c & r & -> & _). simpl. lia. Qed.

Lemma String_N_shape n :
  exists c r, String_N n = String c r /\ is_digit c = true /\ all_digits r = true.
Proof.
  destruct (String_N_head n) as (c & r & E & Hc). exists c, r.
  repeat split; [done..|].
  pose proof (all_digits_String_N n) as H. rewrite E in H. simpl in H.
  by apply andb_prop in H as [_ ?].
Qed.

Lemma take_drop_chars n s : take_chars n s +:+ drop_chars n s = s.
Proof.
  revert s. induction n as [|n IH]; intros [|c s]; try done.
  simpl. by rewrite IH.
Qed.

Lemma length_take_chars n s :
  string_length (take_chars n s) = Nat.min n (string_length s).
Proof. revert s. induction n as [|n IH]; intros [|c s]; simpl; auto. Qed.

Lemma length_drop_chars n s :
  string_length (drop_chars n s) = (string_length s - n)%nat.
Proof. revert s. induction n as [|n IH]; intros [|c s]; simpl; auto. Qed.

Lemma all_digits_take n s : all_digits s = true -> all_digits (take_chars n s) = true.
Proof.
  revert s. induction n as [|n IH]; intros [|c s]; simpl; try done.
  rewrite !andb_true_iff. intros [? ?]. auto.
Qed.

Lemma all_digits_drop n s : all_digits s = true -> all_digits (drop_chars n s) = true.
Proof.
  revert s. induction n as [|n IH]; intros [|c s]; simpl; try done.
  rewrite !andb_true_iff. intros [? ?]. auto.
Qed.

Lemma nonempty_length s : nonempty s = true <-> (0 < string_length s)%nat.
Proof. destruct s; simpl; split; (done || lia). Qed.

Lemma length_zeros n : string_length (zeros n) = n.
Proof. induction n; simpl; auto. Qed.

(** *** Numerals *)

Lemma span_digits_append ds rest :
  all_digits ds = true -> no_digit_head rest ->
  span_digits (ds +:+ rest) = (ds, rest).
Proof.
  intros Hd Hr. induction ds as [|c ds IH].
  - destruct rest as [|c r]; [done|]. simpl in *. by rewrite Hr.
  - simpl in Hd. apply andb_prop in Hd as [Hc Hd].
    rewrite append_cons. cbn [span_digits]. by rewrite Hc, (IH Hd).
Qed.

Lemma delim_no_digit s : delim s -> no_digit_head s.
Proof. destruct s as [|c r]; [done|]. intros [->|[->| ->]]; reflexivity. Qed.

Lemma valid_int_head c r : code_eqb c "0" = false -> valid_int (String c r) = true.
Proof. intros H. simpl. rewrite H. by destruct r. Qed.

Lemma is_digit_not_sign c : is_digit c = true -> code_eqb c "-" = false.
Proof.
  rewrite is_digit_spec, code_eqb_N. intros H. apply N.eqb_neq.
  change (code_to_N "-") with 45%N. lia.
Qed.

Lemma parse_exponent_numeral exponent rest :
  match exponent with
  | Some (_, ed) => all_digits ed = true /\ nonempty ed = true
  | None => True
  end ->
  delim rest ->
  parse_exponent
    (match exponent with
     | Some (eneg, ed) => String "e" ((if eneg : bool then "-" else "+") +:+ ed)
     | None => EmptyString
     end +:+ rest)
  = Some (exponent_value exponent, rest).
Proof.
  intros He Hr. destruct exponent as [[eneg ed]|].
  - destruct He as [Hd Hn]. rewrite append_cons, append_assoc.
    cbn [parse_exponent]. change (code_eqb "e" "e" || code_eqb "e" "E") with true.
    cbv iota.
    assert (parse_sign ((if eneg then "-" else "+") +:+ ed +:+ rest)
            = (eneg, ed +:+ rest)) as -> by by destruct eneg.
    cbn [fst snd]. rewrite span_digits_append by (done || by apply delim_no_digit).
    cbn [fst snd]. by rewrite Hn.
  - change (EmptyString +:+ rest) with rest.
    destruct rest as [|c r]; [done|].
    destruct Hr as [->|[->| ->]]; reflexivity.
Qed.

Lemma exponent_head exponent rest :
  delim rest ->
  match (match exponent with
         | Some (eneg, ed) => String "e" ((if eneg : bool then "-" else "+") +:+ ed)
         | None => EmptyString
         end +:+ rest) with
  | String c _ => is_digit c = false /\ code_eqb c "." = false
  | EmptyString => True
  end.
Proof.
  intros Hr. destruct exponent as [[eneg ed]|].
  - by rewrite append_cons.
  - change (EmptyString +:+ rest) with rest.
    destruct rest as [|c r]; [done|]. by destruct Hr as [->|[->| ->]].
Qed.

Lemma parse_number_numeral negative int frac exponent rest :
  all_digits int = true -> valid_int int = true ->
  all_digits frac = true ->
  match exponent with
  | Some (_, ed) => all_digits ed = true /\ nonempty ed = true
  | None => True
  end ->
  delim rest ->
  parse_number (numeral negative int frac exponent +:+ rest)
  = Some (decimal_to_number negative
            (Z.of_N (digits_value 0 (int +:+ frac)))
            (exponent_value exponent - Z.of_nat (string_length frac)),
          rest).
Proof.
  intros Hi Hv Hf He Hr. unfold numeral.
  set (ex := match exponent with
             | Some (eneg, ed) => String "e" ((if eneg : bool then "-" else "+") +:+ ed)
             | None => EmptyString
             end).
  set (fr := if nonempty frac then String "." frac else EmptyString).
  rewrite !append_assoc.
  pose proof (exponent_head exponent rest Hr) as Hex. fold ex in Hex.
  pose proof (parse_exponent_numeral exponent rest He Hr) as Hpe. fold ex in Hpe.
  assert (no_digit_head (fr +:+ ex +:+ rest)) as Hnd.
  { subst fr. destruct (nonempty frac); [done|].
    change (EmptyString +:+ ?x) with x. destruct (ex +:+ rest); [done|]. apply Hex. }
  assert (parse_fraction (fr +:+ ex +:+ rest) = Some (frac, ex +:+ rest)) as Hpf.
  { subst fr. destruct (nonempty frac) eqn:Hn.
    - rewrite append_cons. cbn [parse_fraction].
      change (code_eqb "." ".") with true. cbv iota.
      rewrite span_digits_append; [by cbn [fst]; rewrite Hn|done|].
      destruct (ex +:+ rest); [done|]. apply Hex.
    - destruct frac; [|done]. change (EmptyString +:+ ?x) with x.
      destruct (ex +:+ rest) as [|c r]; [done|]. destruct Hex as [_ Hdot].
      cbn [parse_fraction]. by rewrite Hdot. }
  unfold parse_number.
  assert (match (if negative then "-" else EmptyString) +:+ int +:+ fr +:+ ex +:+ rest with
          | String c r =>
              if code_eqb c "-" then (true, r)
              else (false, (if negative then "-" else EmptyString) +:+ int +:+ fr +:+ ex +:+ rest)
          | EmptyString =>
              (false, (if negative then "-" else EmptyString) +:+ int +:+ fr +:+ ex +:+ rest)
          end = (negative, int +:+ fr +:+ ex +:+ rest)) as ->.
  { destruct negative; [reflexivity|]. change (EmptyString +:+ ?x) with x.
    destruct int as [|c r]; [done|]. rewrite append_cons.
    simpl in Hi. apply andb_prop in Hi as [Hc _].
    by rewrite (is_digit_not_sign c Hc). }
  cbn [fst snd]. rewrite span_digits_append by done. cbn [fst snd].
  rewrite Hv, Hpf, Hpe. reflexivity.
Qed.

(** ** The round trip of a number *)

Lemma numeral_sign negative int frac exponent :
  numeral negative int frac exponent
  = (if negative then "-" else EmptyString) +:+ numeral false int frac exponent.
Proof. reflexivity. Qed.

(** What [String_float] prints is a numeral, and the decimal it denotes is
    the decimal printed. *)
Lemma String_float_numeral negative s n :
  exists int frac exponent,
    String_float (FDec s n) = numeral false int frac exponent
    /\ all_digits int = true /\ valid_int int = true /\ all_digits frac = true
    /\ match exponent with
       | Some (_, ed) => all_digits ed = true /\ nonempty ed = true
       | None => True
       end
    /\ decimal_to_number negative
         (Z.of_N (digits_value 0 (int +:+ frac)))
         (exponent_value exponent - Z.of_nat (string_length frac))
       = decimal_to_number negative (Z.pos s)
           (n - Z.of_nat (string_length (String_N (N.pos s)))).
Proof.
  unfold String_float. cbv zeta.
  set (digits := String_N (N.pos s)).
  set (k := Z.of_nat (string_length digits)).
  destruct (String_N_pos_head s) as (c & r & Ed & Hc & Hc0). fold digits in Ed.
  pose proof (all_digits_String_N (N.pos s)) as Hall. fold digits in Hall.
  pose proof (digits_value_String_N (N.pos s)) as Hval. fold digits in Hval.
  assert (1 <= k) as Hk by (subst k; rewrite Ed; simpl; lia).
  destruct ((k <=? n) && (n <=? 21)) eqn:Ha.
  { (* digits and zeros *)
    apply andb_prop in Ha as [Ha _]. apply Z.leb_le in Ha.
    exists (digits +:+ zeros (Z.to_nat (n - k))), EmptyString, None.
    split; [unfold numeral; simpl; by rewrite !append_nil_r|].
    split; [by rewrite all_digits_append, Hall, all_digits_zeros|].
    split; [rewrite Ed, append_cons; by apply valid_int_head|].
    split; [done|]. split; [done|].
    rewrite append_nil_r, digits_value_append, Hval, digits_value_zeros.
    unfold decimal_to_number. simpl exponent_value. simpl string_length.
    change (Z.of_nat 0) with 0. change (0 - 0) with 0.
    change (Z.max 0 0) with 0. change (Z.max (- 0) 0) with 0.
    rewrite (Z.max_l (n - k) 0), (Z.max_r (- (n - k)) 0) by lia.
    f_equal. rewrite N2Z.inj_mul, N2Z.inj_pow, nat_N_Z, Z2Nat.id by lia.
    change (10 ^ 0) with 1. change (Z.of_N 10) with 10.
    change (Z.of_N (N.pos s)) with (Z.pos s). lia. }
  destruct ((0 <? n) && (n <=? 21)) eqn:Hb.
  { (* a point inside the digits *)
    apply andb_prop in Hb as [Hb Hb21]. apply Z.ltb_lt in Hb. apply Z.leb_le in Hb21.
    assert (n < k) as Hnk.
    { apply andb_false_iff in Ha as [Ha|Ha]; apply Z.leb_gt in Ha; lia. }
    exists (take_chars (Z.to_nat n) digits), (drop_chars (Z.to_nat n) digits), None.
    assert (nonempty (drop_chars (Z.to_nat n) digits) = true) as Hne.
    { apply nonempty_length. rewrite length_drop_chars. lia. }
    split; [unfold numeral; rewrite Hne; simpl; by rewrite !append_nil_r|].
    split; [by apply all_digits_take|].
    split.
    { rewrite Ed. destruct (Z.to_nat n) as [|n'] eqn:En; [lia|].
      simpl. by apply valid_int_head. }
    split; [by apply all_digits_drop|]. split; [done|].
    rewrite take_drop_chars, Hval. simpl exponent_value.
    rewrite length_drop_chars. f_equal. lia. }
  destruct ((-6 <? n) && (n <=? 0)) eqn:Hc'.
  { (* zeros after the point *)
    apply andb_prop in Hc' as [_ Hle]. apply Z.leb_le in Hle.
    exists "0", (zeros (Z.to_nat (- n)) +:+ digits), None.
    assert (nonempty (zeros (Z.to_nat (- n)) +:+ digits) = true) as Hne.
    { apply nonempty_length. rewrite length_append. subst k. lia. }
    split; [unfold numeral; rewrite Hne; simpl; by rewrite !append_nil_r|].
    split; [done|]. split; [done|].
    split; [by rewrite all_digits_append, all_digits_zeros|]. split; [done|].
    change ("0" +:+ ?x) with (String "0" x). cbn [digits_value].
    change (10 * 0 + (code_to_N "0" - 48))%N with 0%N.
    rewrite digits_value_append, digits_value_zeros, N.mul_0_l, Hval.
    simpl exponent_value. rewrite length_append, length_zeros. f_equal. lia. }
  (* exponent notation *)
  exists (take_chars 1 digits), (drop_chars 1 digits),
    (Some (n - 1 <? 0, String_N (Z.to_N (Z.abs (n - 1))))).
  assert (n <= -6 \/ 21 < n) as Hrange.
  { apply andb_false_iff in Hb, Hc'.
    destruct (Z.ltb_spec 0 n), (Z.leb_spec n 21), (Z.ltb_spec (-6) n), (Z.leb_spec n 0);
      try lia; destruct Hb, Hc'; done. }
  split.
  { unfold numeral. change (EmptyString +:+ ?x) with x.
    rewrite Ed. cbn [take_chars drop_chars].
    change (Z.of_nat (string_length digits)) with k.
    destruct r as [|c' r'].
    - assert (k = 1) as -> by (subst k; by rewrite Ed). simpl.
      destruct (n - 1 <? 0); reflexivity.
    - assert ((k =? 1) = false) as ->.
      { apply Z.eqb_neq. subst k. rewrite Ed. simpl. lia. }
      simpl. destruct (n - 1 <? 0); reflexivity. }
  split; [by apply all_digits_take|].
  split; [by rewrite Ed|].
  split; [by apply all_digits_drop|].
  split.
  { split; [apply all_digits_String_N|].
    destruct (String_N_head (Z.to_N (Z.abs (n - 1)))) as (? & ? & -> & _). done. }
  rewrite take_drop_chars, Hval. cbn [exponent_value].
  rewrite digits_value_String_N, length_drop_chars, Z2N.id by lia.
  f_equal. destruct (Z.ltb_spec (n - 1) 0); lia.
Qed.

Lemma is_double_sign a b m e :
  is_double (Finite a m e) = is_double (Finite b m e).
Proof. reflexivity. Qed.

Lemma parse_number_toString x rest :
  json_safe (JNum x) = true -> delim rest ->
  parse_number (stringify_number x +:+ rest) = Some (x, rest).
Proof.
  destruct x as [| |negative m e]; [done..|]. cbn [json_safe].
  rewrite andb_true_iff. intros [Hd Hz] Hr.
  unfold stringify_number, Number_toString.
  destruct (Z.eqb_spec m 0) as [->|Hm].
  - destruct negative; [done|].
    apply is_double_cases in Hd.
    assert (e = -1074) as -> by (assert (0 < 2 ^ 52) by done; lia).
    change "0" with (numeral false "0" EmptyString None).
    rewrite parse_number_numeral by done.
    by rewrite decimal_to_number_zero.
  - assert (0 < m) as Hpos by (apply is_double_cases in Hd; lia).
    destruct (shortest_decimal_represents m e) as (s & n & -> & Hrep); [done..|].
    destruct (String_float_numeral negative s n)
      as (int & frac & exponent & -> & Hi & Hv & Hf & He & Hval).
    rewrite <- numeral_sign.
    rewrite parse_number_numeral by done.
    rewrite Hval, decimal_to_number_sign.
    unfold decimal_length in Hrep. change (Z.to_N (Z.pos s)) with (N.pos s) in Hrep.
    by rewrite Hrep.
Qed.

(** ** Objects *)

Lemma array_index_String_N k i : array_index k = Some i -> k = String_N i.
Proof.
  unfold array_index.
  destruct (string_eqb_spec (String_N (digits_value 0 k)) k) as [E|]; [|done].
  destruct (_ <=? _)%N; [|done]. simpl. intros H. inversion H; subst. done.
Qed.

Lemma array_index_inj k k' i :
  array_index k = Some i -> array_index k' = Some i -> k = k'.
Proof. intros H H'. apply array_index_String_N in H, H'. congruence. Qed.

Lemma obj_get_app k (a b : object) :
  obj_get k (a ++ b) = match obj_get k a with Some v => Some v | None => obj_get k b end.
Proof.
  induction a as [|[k' v'] a IH]; [done|]. simpl. by destruct (string_eqb k k').
Qed.

Lemma obj_get_in_keys k o :
  is_Some (obj_get k o) <-> existsb (string_eqb k) (List.map fst o) = true.
Proof.
  induction o as [|[k0 v0] o IH]; simpl.
  - split; [by intros [? ?]|done].
  - destruct (string_eqb k k0); simpl; [|done]. split; [done|by eauto].
Qed.

Lemma obj_get_None_keys k o :
  obj_get k o = None <-> existsb (string_eqb k) (List.map fst o) = false.
Proof.
  pose proof (obj_get_in_keys k o) as H.
  destruct (obj_get k o), (existsb _ _); split; try done.
  - intros _. destruct H as [H _]. by discriminate H.
  - intros _. destruct H as [_ H]. by destruct (H eq_refl).
Qed.

(** Where [obj_set] puts a property: in the place of the old one, or into
    the list. *)
Lemma replace_value_split k v (o : object) w :
  obj_get k o = Some w ->
  exists a b, o = a ++ (k, w) :: b /\ replace_value k v o = a ++ (k, v) :: b
              /\ obj_get k a = None.
Proof.
  induction o as [|[k' v'] o IH]; [done|]. simpl.
  destruct (string_eqb_spec k k') as [<-|Hne].
  - intros H. inversion H; subst. by exists [], o.
  - intros H. destruct (IH H) as (a & b & -> & -> & Ha).
    exists ((k', v') :: a), b. repeat split. simpl.
    by destruct (string_eqb_spec k k').
Qed.

Lemma insert_index_split i k v (o : object) :
  exists a b, o = a ++ b /\ insert_index i k v o = a ++ (k, v) :: b
    /\ Forall (fun kv => exists j, array_index (fst kv) = Some j /\ (j < i)%N) a
    /\ match b with
       | [] => True
       | kv :: _ => match array_index (fst kv) with
                    | Some j => (i <= j)%N
                    | None => True
                    end
       end.
Proof.
  induction o as [|[k' v'] o IH].
  - by exists [], [].
  - simpl. destruct (array_index k') as [j|] eqn:Ej.
    + destruct (N.ltb_spec j i).
      * destruct IH as (a & b & -> & -> & Ha & Hb).
        exists ((k', v') :: a), b. repeat split; [|done].
        constructor; [|done]. simpl. eauto.
      * exists [], ((k', v') :: o). repeat split; [done|]. simpl. by rewrite Ej.
    + exists [], ((k', v') :: o). repeat split; [done|]. simpl. by rewrite Ej.
Qed.

Lemma obj_set_split k v (o : object) :
  exists a b,
    obj_set k v o = a ++ (k, v) :: b /\ obj_get k a = None
    /\ (o = a ++ b /\ obj_get k o = None \/ exists w, o = a ++ (k, w) :: b).
Proof.
  unfold obj_set. destruct (obj_get k o) as [w|] eqn:E.
  - destruct (replace_value_split k v o w E) as (a & b & -> & -> & Ha).
    exists a, b. repeat split; [done|]. right. by exists w.
  - destruct (array_index k) as [i|].
    + destruct (insert_index_split i k v o) as (a & b & Ho & -> & _).
      exists a, b. subst o. repeat split; [|by left].
      rewrite obj_get_app in E. by destruct (obj_get k a).
    + exists o, []. rewrite app_nil_r. repeat split; [done|by left].
Qed.

Lemma obj_get_set_eq k v o : obj_get k (obj_set k v o) = Some v.
Proof.
  destruct (obj_set_split k v o) as (a & b & -> & Ha & _).
  rewrite obj_get_app, Ha. simpl. by rewrite string_eqb_refl.
Qed.

Lemma obj_get_set_ne k k' v o : k' <> k -> obj_get k' (obj_set k v o) = obj_get k' o.
Proof.
  intros Hne. apply string_eqb_neq in Hne.
  destruct (obj_set_split k v o) as (a & b & -> & Ha & [[-> _]|[w ->]]);
    rewrite !obj_get_app; simpl; by rewrite Hne.
Qed.

Lemma existsb_keys_app k (a b : object) :
  existsb (string_eqb k) (List.map fst (a ++ b))
  = existsb (string_eqb k) (List.map fst a) || existsb (string_eqb k) (List.map fst b).
Proof. by rewrite List.map_app, existsb_app. Qed.

Lemma keys_obj_set k' k v o :
  existsb (string_eqb k') (List.map fst (obj_set k v o))
  = existsb (string_eqb k') (List.map fst o) || string_eqb k' k.
Proof.
  destruct (obj_set_split k v o) as (a & b & -> & Ha & [[-> _]|[w ->]]);
    rewrite !existsb_keys_app; simpl;
    destruct (existsb _ (List.map fst a)), (string_eqb k' k), (existsb _ (List.map fst b));
    done.
Qed.

Lemma keys_distinct_app_iff (a b : list string) :
  keys_distinct (a ++ b) = true
  <-> keys_distinct a = true /\ keys_distinct b = true
      /\ forall x, In x a -> existsb (string_eqb x) b = false.
Proof.
  induction a as [|x a IH]; simpl.
  - split; [by intros H; repeat split|by intros (_ & H & _)].
  - rewrite !andb_true_iff, !negb_true_iff, existsb_app, orb_false_iff, IH.
    split.
    + intros [[H1 H2] (H3 & H4 & H5)]. repeat split; try done.
      intros y [<-|Hy]; [done|by apply H5].
    + intros ([H1 H2] & H3 & H4). repeat split; try done.
      * apply H4. by left.
      * intros y Hy. apply H4. by right.
Qed.

Lemma keys_distinct_middle (a b : list string) k :
  keys_distinct (a ++ k :: b) = true
  <-> keys_distinct (a ++ b) = true
      /\ existsb (string_eqb k) (a ++ b) = false.
Proof.
  rewrite !keys_distinct_app_iff. simpl.
  rewrite !andb_true_iff, !negb_true_iff, existsb_app, orb_false_iff.
  split.
  - intros (Ha & [Hk Hb] & Hab). repeat split; try done.
    + intros x Hx. specialize (Hab x Hx). simpl in Hab.
      by apply orb_false_elim in Hab as [_ ?].
    + destruct (existsb (string_eqb k) a) eqn:E; [|done].
      apply existsb_exists in E as (x & Hx & Ex).
      apply string_eqb_eq in Ex. subst x.
      specialize (Hab k Hx). simpl in Hab. by rewrite string_eqb_refl in Hab.
  - intros ((Ha & Hb & Hab) & Hka & Hkb). repeat split; try done.
    intros x Hx. simpl. rewrite (Hab x Hx), orb_false_r.
    apply string_eqb_neq. intros ->.
    assert (existsb (string_eqb k) a = true) as E; [|congruence].
    apply existsb_exists. exists k. split; [done|apply string_eqb_refl].
Qed.

Lemma keys_distinct_obj_set k v o :
  keys_distinct (List.map fst o) = true ->
  keys_distinct (List.map fst (obj_set k v o)) = true.
Proof.
  destruct (obj_set_split k v o) as (a & b & -> & Ha & [[-> Hk]|[w ->]]).
  - intros H. rewrite List.map_app. simpl. apply keys_distinct_middle.
    rewrite <- List.map_app. split; [done|]. by apply obj_get_None_keys.
  - by rewrite !List.map_app.
Qed.

Lemma keys_ordered_app_iff (a b : list string) :
  keys_ordered (a ++ b) = true
  <-> keys_ordered a = true /\ keys_ordered b = true
      /\ forall x y, In x a -> In y b -> key_before x y = true.
Proof.
  induction a as [|x a IH]; simpl.
  - split; [by intros H; repeat split|by intros (_ & H & _)].
  - rewrite !andb_true_iff, forallb_app, andb_true_iff, IH, !forallb_forall.
    split.
    + intros [[H1 H2] (H3 & H4 & H5)]. repeat split; try done.
      intros y z [<-|Hy] Hz; [by apply H2|by apply H5].
    + intros ([H1 H2] & H3 & H4). repeat split; try done.
      * intros y Hy. apply H4; [by left|done].
      * intros y z Hy Hz. apply H4; [by right|done].
Qed.

Lemma key_before_no_index x k :
  array_index k = None -> key_before x k = true \/ array_index x = None.
Proof. intros H. unfold key_before. rewrite H. destruct (array_index x); auto. Qed.

Lemma keys_ordered_obj_set k v o :
  keys_distinct (List.map fst o) = true ->
  keys_ordered (List.map fst o) = true ->
  keys_ordered (List.map fst (obj_set k v o)) = true.
Proof.
  intros Hd Ho. unfold obj_set. destruct (obj_get k o) as [w|] eqn:E.
  - destruct (replace_value_split k v o w E) as (a & b & -> & -> & Ha).
    by rewrite !List.map_app in *.
  - destruct (array_index k) as [i|] eqn:Ei.
    + destruct (insert_index_split i k v o) as (a & b & -> & -> & Ha & Hb).
      rewrite List.map_app in *. simpl.
      apply keys_ordered_app_iff in Ho as (Hoa & Hob & Hab).
      apply keys_ordered_app_iff. split; [done|].
      assert (forall y, In y (List.map fst b) -> key_before k y = true) as Hky.
      { intros y Hy. destruct b as [|[k0 v0] b]; [done|]. simpl in Hb, Hy, Hob.
        apply andb_prop in Hob as [Hob _].
        assert (key_before k k0 = true) as Hk0.
        { unfold key_before. rewrite Ei. destruct (array_index k0) as [j|] eqn:Ej; [|done].
          apply N.ltb_lt. assert (j <> i); [|lia]. intros ->.
          assert (k0 = k) by by eapply array_index_inj. subst k0.
          rewrite obj_get_app in E. simpl in E. rewrite string_eqb_refl in E.
          by destruct (obj_get k a). }
        destruct Hy as [<-|Hy]; [done|].
        rewrite forallb_forall in Hob. specialize (Hob y Hy).
        unfold key_before in *. rewrite Ei in *.
        destruct (array_index k0) as [j|], (array_index y) as [j'|]; try done.
        apply N.ltb_lt in Hk0, Hob. apply N.ltb_lt. lia. }
      split.
      { simpl. rewrite Hob, andb_true_r. by apply forallb_forall. }
      intros x y Hx [<-|Hy]; [|by apply Hab].
      apply in_map_iff in Hx as ([kx vx] & <- & Hx).
      rewrite List.Forall_forall in Ha. destruct (Ha _ Hx) as (j & Hj & Hlt).
      simpl in *. unfold key_before. rewrite Hj, Ei. by apply N.ltb_lt.
    + rewrite List.map_app. apply keys_ordered_app_iff. split; [done|]. split; [done|].
      intros x y _ [Hy|[]]. simpl in Hy. rewrite <- Hy. unfold key_before. rewrite Ei.
      by destruct (array_index x).
Qed.

Lemma members_safe_app a b : members_safe (a ++ b) = members_safe a && members_safe b.
Proof.
  induction a as [|[k v] a IH]; [done|]. simpl. by rewrite IH, andb_assoc.
Qed.

Lemma members_safe_obj_set k v o :
  json_safe v = true -> members_safe o = true -> members_safe (obj_set k v o) = true.
Proof.
  intros Hv.
  destruct (obj_set_split k v o) as (a & b & -> & Ha & [[-> _]|[w ->]]);
    rewrite !members_safe_app; simpl; rewrite Hv, !andb_true_iff; tauto.
Qed.

Lemma json_safe_JObj o :
  json_safe (JObj o)
  = keys_distinct (List.map fst o) && keys_ordered (List.map fst o) && members_safe o.
Proof.
  reflexivity.
Qed.

Lemma json_safe_obj_set k v o :
  json_safe v = true -> json_safe (JObj o) = true ->
  json_safe (JObj (obj_set k v o)) = true.
Proof.
  rewrite !json_safe_JObj, !andb_true_iff. intros Hv [[H1 H2] H3].
  by rewrite keys_distinct_obj_set, keys_ordered_obj_set, members_safe_obj_set.
Qed.

(** A new property that may be enumerated after all the others is added
    last. *)
Lemma obj_set_last k v (o : object) :
  obj_get k o = None ->
  (forall x, In x (List.map fst o) -> key_before x k = true) ->
  obj_set k v o = o ++ [(k, v)].
Proof.
  intros Hg Hb. unfold obj_set. rewrite Hg.
  destruct (array_index k) as [i|] eqn:Ei; [|done].
  clear Hg. induction o as [|[k' v'] o IH]; [done|]. simpl.
  pose proof (Hb k' (or_introl eq_refl)) as Hk'. unfold key_before in Hk'.
  rewrite Ei in Hk'. destruct (array_index k') as [j|]; [|done].
  rewrite Hk'. rewrite IH; [done|]. intros x Hx. apply Hb. by right.
Qed.

Lemma define_properties_ordered m :
  keys_distinct (List.map fst m) = true -> keys_ordered (List.map fst m) = true ->
  define_properties m = m.
Proof.
  unfold define_properties.
  enough (forall acc,
    keys_distinct (List.map fst (acc ++ m)) = true ->
    keys_ordered (List.map fst (acc ++ m)) = true ->
    fold_left (fun o kv => obj_set (fst kv) (snd kv) o) m acc = acc ++ m) as H
    by apply (H []).
  induction m as [|[k v] m IH]; intros acc Hd Ho; simpl.
  - by rewrite app_nil_r.
  - rewrite obj_set_last.
    + rewrite IH; rewrite <- app_assoc; done.
    + apply obj_get_None_keys. rewrite List.map_app in Hd. simpl in Hd.
      apply keys_distinct_middle in Hd as [_ Hd].
      rewrite existsb_app in Hd. by apply orb_false_elim in Hd as [? _].
    + intros x Hx. rewrite List.map_app in Ho.
      apply keys_ordered_app_iff in Ho as (_ & _ & Hab).
      apply Hab; [done|by left].
Qed.

(** ** The JSON round trip *)

Lemma stringify_JObj o :
  stringify_value (JObj o) = String "{" (join_comma (stringify_members o) +:+ "}").
Proof.
  reflexivity.
Qed.

Lemma digit_small c : is_digit c = true -> exists lo, c = Code Ascii.zero lo.
Proof. rewrite is_digit_spec. intros H. apply code_small. lia. Qed.

Lemma number_head c : c = "-"%char \/ is_digit c = true -> value_head c.
Proof.
  intros [->|H]; [by repeat split|].
  destruct (digit_small c H) as [lo ->].
  destruct lo as [[] [] [] [] [] [] [] []]; try discriminate H; by repeat split.
Qed.

Lemma parse_value_number fuel c r :
  c = "-"%char \/ is_digit c = true ->
  parse_value (S fuel) (String c r) = with_value JNum (parse_number (String c r)).
Proof.
  intros [->|H]; [reflexivity|].
  destruct (digit_small c H) as [lo ->].
  destruct lo as [[] [] [] [] [] [] [] []]; try discriminate H; reflexivity.
Qed.

Lemma String_float_head x :
  exists c r, String_float x = String c r /\ is_digit c = true.
Proof.
  destruct x as [|s n]; [by eauto|].
  destruct (String_float_numeral false s n)
    as (int & frac & exponent & -> & Hi & Hv & _).
  unfold numeral. change (EmptyString +:+ ?x) with x.
  destruct int as [|c r]; [done|]. rewrite append_cons.
  simpl in Hi. apply andb_prop in Hi as [Hc _]. eauto.
Qed.

Lemma stringify_number_safe_head x :
  json_safe (JNum x) = true ->
  exists c r, stringify_number x = String c r
              /\ (c = "-"%char \/ is_digit c = true).
Proof.
  destruct x as [| |negative m e]; [done..|]. intros _.
  unfold stringify_number, Number_toString.
  destruct (m =? 0); [by eauto|].
  destruct negative; [by eauto|].
  change (EmptyString +:+ ?x) with x.
  destruct (String_float_head (shortest_decimal m e)) as (c & r & -> & Hc). eauto.
Qed.

Lemma stringify_head v :
  exists c r, stringify_value v = String c r /\ value_head c.
Proof.
  destruct v as [| |[]|x|s|l|o]; try (simpl; do 2 eexists; split; [reflexivity|by repeat split]).
  destruct x as [| |negative m e];
    try (simpl; do 2 eexists; split; [reflexivity|by repeat split]).
  cbn [stringify_value]. unfold stringify_number, Number_toString.
  destruct (m =? 0); [do 2 eexists; split; [reflexivity|by repeat split]|].
  destruct negative; [do 2 eexists; split; [reflexivity|by repeat split]|].
  change (EmptyString +:+ ?x) with x.
  destruct (String_float_head (shortest_decimal m e)) as (c & r & -> & Hc).
  exists c, r. split; [done|]. apply number_head. by right.
Qed.

Lemma expect_here c r : is_ws c = false -> expect c (String c r) = Some r.
Proof. intros H. unfold expect. simpl. by rewrite H, code_eqb_refl. Qed.

Lemma expect_other c c' r :
  is_ws c' = false -> code_eqb c' c = false -> expect c (String c' r) = None.
Proof. intros H E. unfold expect. simpl. by rewrite H, E. Qed.

Lemma parse_elements_roundtrip l :
  Forall roundtrips l -> forallb json_safe l = true -> l <> [] ->
  forall fuel rest,
    (string_length (join_comma (List.map stringify_value l)) < fuel)%nat ->
    parse_elements fuel (join_comma (List.map stringify_value l) +:+ String "]" rest)
    = Some (l, rest).
Proof.
  induction 1 as [|v l Hv Hl IH]; [done|].
  intros Hsafe _ fuel rest Hfuel. simpl in Hsafe.
  apply andb_prop in Hsafe as [Hsv Hsl].
  destruct fuel as [|fuel]; [lia|].
  destruct l as [|v' l'].
  - simpl in *. rewrite (Hv Hsv) by (lia || by right; left).
    by rewrite expect_other, expect_here.
  - change (join_comma (List.map stringify_value (v :: v' :: l')))
      with (stringify_value v +:+ String "," (join_comma (List.map stringify_value (v' :: l')))) in *.
    rewrite length_append in Hfuel. cbn [string_length] in Hfuel.
    rewrite append_assoc, append_cons.
    cbn [parse_elements]. rewrite (Hv Hsv) by (lia || by left).
    rewrite expect_here by done.
    rewrite IH by (done || lia). reflexivity.
Qed.

Lemma safe_defined v : json_safe v = true -> is_undefined v = false.
Proof. by destruct v. Qed.

Lemma member_app k sv tail :
  (quote k +:+ String ":" sv) +:+ tail
  = String dquote (escape k +:+ String dquote (String ":" (sv +:+ tail))).
Proof.
  unfold quote. rewrite !append_cons, !append_assoc, !append_cons. reflexivity.
Qed.

Lemma member_length k sv :
  (string_length sv < string_length (quote k +:+ String ":" sv))%nat.
Proof. rewrite length_append. simpl. lia. Qed.

Lemma parse_members_roundtrip o :
  Forall (fun kv => roundtrips (snd kv)) o -> members_safe o = true -> o <> [] ->
  forall fuel rest,
    (string_length (join_comma (stringify_members o)) < fuel)%nat ->
    parse_members fuel (join_comma (stringify_members o) +:+ String "}" rest)
    = Some (o, rest).
Proof.
  induction 1 as [|[k v] o Hv Ho IH]; [done|].
  intros Hsafe _ fuel rest Hfuel. simpl in Hsafe, Hv.
  apply andb_prop in Hsafe as [Hsv Hso].
  destruct fuel as [|fuel]; [lia|].
  cbn [stringify_members] in *. rewrite (safe_defined v Hsv) in *.
  destruct o as [|[k' v'] o'].
  - cbn [stringify_members join_comma] in Hfuel |- *.
    pose proof (member_length k (stringify_value v)).
    cbn [parse_members]. rewrite member_app. rewrite expect_here by done.
    rewrite parse_chars_escape. rewrite expect_here by done.
    rewrite (Hv Hsv) by (lia || by right; right).
    by rewrite expect_other, expect_here.
  - assert (is_undefined v' = false) as Hv'.
    { simpl in Hso. apply andb_prop in Hso as [? _]. by apply safe_defined. }
    cbn [stringify_members] in *. rewrite Hv' in *.
    set (ms := (quote k' +:+ String ":" (stringify_value v')) :: stringify_members o') in *.
    change (join_comma ((quote k +:+ String ":" (stringify_value v)) :: ms))
      with ((quote k +:+ String ":" (stringify_value v)) +:+ String "," (join_comma ms)) in *.
    rewrite length_append in Hfuel. cbn [string_length] in Hfuel.
    pose proof (member_length k (stringify_value v)).
    rewrite append_assoc, member_app, append_cons.
    cbn [parse_members]. rewrite expect_here by done.
    rewrite parse_chars_escape. rewrite expect_here by done.
    rewrite (Hv Hsv) by (lia || by left).
    rewrite expect_here by done.
    rewrite IH by (done || lia). reflexivity.
Qed.

Lemma stringify_value_roundtrip v : roundtrips v.
Proof.
  induction v as [| |b|x|s|l IH|o IH] using json_ind; intros Hsafe fuel rest Hfuel Hd.
  - discriminate.
  - destruct fuel; [simpl in Hfuel; lia|reflexivity].
  - destruct fuel; [destruct b; simpl in Hfuel; lia|by destruct b].
  - destruct (stringify_number_safe_head x Hsafe) as (c & r & E & Hc).
    simpl stringify_value in *.
    destruct fuel; [rewrite E in Hfuel; simpl in Hfuel; lia|].
    rewrite E, append_cons, parse_value_number by done.
    rewrite <- append_cons, <- E, parse_number_toString by done. reflexivity.
  - destruct fuel; [simpl in Hfuel; lia|].
    simpl stringify_value. unfold quote. rewrite append_cons, append_assoc, append_cons.
    change (parse_value (S fuel) (String dquote ?x)) with (with_value JStr (parse_chars x)).
    by rewrite parse_chars_escape.
  - destruct fuel; [simpl in Hfuel; lia|].
    simpl stringify_value in *. rewrite append_cons, append_assoc, append_cons.
    change (EmptyString +:+ rest) with rest.
    cbn [string_length] in Hfuel. rewrite length_append in Hfuel. simpl in Hfuel.
    destruct l as [|v l].
    + reflexivity.
    + destruct (stringify_head v) as (c & r & E & Hws & Hc & _).
      cbn [parse_value skip_ws]. change (is_ws "[") with false. cbv iota.
      change (code_eqb "[" "{") with false. change (code_eqb "[" "[") with true. cbv iota.
      assert (expect "]" (join_comma (List.map stringify_value (v :: l)) +:+ String "]" rest) = None) as ->.
      { destruct l; simpl; rewrite E, ?append_cons; by apply expect_other. }
      rewrite parse_elements_roundtrip by (done || lia). reflexivity.
  - destruct fuel; [simpl in Hfuel; lia|].
    rewrite json_safe_JObj in Hsafe. apply andb_prop in Hsafe as [Hkeys Hsafe].
    apply andb_prop in Hkeys as [Hkeys Hord].
    rewrite stringify_JObj in *. rewrite append_cons, append_assoc, append_cons.
    change (EmptyString +:+ rest) with rest.
    cbn [string_length] in Hfuel. rewrite length_append in Hfuel. simpl in Hfuel.
    destruct o as [|[k v] o].
    + reflexivity.
    + cbn [parse_value skip_ws]. change (is_ws "{") with false. cbv iota.
      change (code_eqb "{" "{") with true. cbv iota.
      assert (expect "}" (join_comma (stringify_members ((k, v) :: o)) +:+ String "}" rest) = None) as ->.
      { simpl in Hsafe. apply andb_prop in Hsafe as [Hv _].
        simpl. rewrite (safe_defined v Hv).
        destruct (stringify_members o); simpl; unfold quote; rewrite ?append_cons; by apply expect_other. }
      rewrite parse_members_roundtrip by (done || lia). simpl.
      by rewrite define_properties_ordered.
Qed.

Lemma JSON_parse_stringify o :
  json_safe (JObj o) = true -> JSON_parse (JSON_stringify o) = Some (JObj o).
Proof.
  intros H. unfold JSON_parse, JSON_stringify.
  rewrite <- (append_nil_r (stringify_value (JObj o))) at 2.
  rewrite stringify_value_roundtrip by (done || lia). reflexivity.
Qed.

(** ** The fuel of the parser *)

Lemma skip_ws_length s : (string_length (skip_ws s) <= string_length s)%nat.
Proof.
  induction s as [|c s IH]; [done|]. cbn [skip_ws].
  destruct (is_ws c); simpl; lia.
Qed.

Lemma expect_length c s r :
  expect c s = Some r -> (string_length r < string_length s)%nat.
Proof.
  unfold expect. pose proof (skip_ws_length s) as H.
  destruct (skip_ws s) as [|c' r']; [done|].
  destruct (code_eqb c' c); [|done]. intros E. inversion E; subst.
  simpl in H. lia.
Qed.

Lemma strip_length p s r :
  strip p s = Some r -> (string_length r <= string_length s)%nat.
Proof.
  revert s. induction p as [|a p IH]; intros [|b s]; simpl; try done.
  - intros E. by inversion E.
  - intros E. inversion E; subst. simpl. lia.
  - destruct (code_eqb a b); [|done]. intros E. apply IH in E. lia.
Qed.

Lemma parse_chars_length_fuel n s k r :
  (string_length s <= n)%nat ->
  parse_chars s = Some (k, r) -> (string_length r < string_length s)%nat.
Proof.
  revert s k r. induction n as [|n IH]; intros s k r Hn.
  { destruct s; [done|simpl in Hn; lia]. }
  destruct s as [|c s]; [done|]. simpl in Hn. cbn [parse_chars].
  assert (forall (c' : code) (t : string),
            (string_length t <= n)%nat ->
            option_map (cons_char c') (parse_chars t) = Some (k, r) ->
            (string_length r < string_length t)%nat) as Hstep.
  { intros c' t Ht E. destruct (parse_chars t) as [[k' r']|] eqn:Et; [|done].
    simpl in E. inversion E; subst. by apply (IH t k'). }
  destruct (code_eqb c dquote).
  { intros E. inversion E; subst. simpl. lia. }
  destruct (code_eqb c "\").
  - destruct s as [|e r1]; [done|]. simpl in Hn.
    destruct (code_eqb e "u").
    + destruct r1 as [|h1 [|h2 [|h3 [|h4 r2]]]]; try done.
      destruct (hex4 h1 h2 h3 h4); [|done].
      intros E. apply Hstep in E; simpl in *; lia.
    + destruct (unescape e); [|done].
      intros E. apply Hstep in E; simpl in *; lia.
  - destruct (code_to_N c <? 32)%N; [done|].
    intros E. apply Hstep in E; simpl in *; lia.
Qed.

Lemma parse_chars_length s k r :
  parse_chars s = Some (k, r) -> (string_length r < string_length s)%nat.
Proof. by apply (parse_chars_length_fuel (string_length s)). Qed.

Lemma span_digits_split s : s = fst (span_digits s) +:+ snd (span_digits s).
Proof.
  induction s as [|c s IH]; [done|]. cbn [span_digits].
  destruct (is_digit c); [|done]. cbn [fst snd]. by rewrite append_cons, <- IH.
Qed.

Lemma span_digits_length s :
  string_length s
  = (string_length (fst (span_digits s)) + string_length (snd (span_digits s)))%nat.
Proof. rewrite (span_digits_split s) at 1. apply length_append. Qed.

Lemma parse_fraction_length s frac r :
  parse_fraction s = Some (frac, r) -> (string_length r <= string_length s)%nat.
Proof.
  unfold parse_fraction. destruct s as [|c s]; [by intros E; inversion E|].
  destruct (code_eqb c ".").
  - cbv zeta. destruct (nonempty _); [|done]. intros E. injection E as E.
    pose proof (span_digits_length s) as H. rewrite E in H. simpl in *. lia.
  - intros E. by inversion E.
Qed.

Lemma parse_sign_length s :
  (string_length (snd (parse_sign s)) <= string_length s)%nat.
Proof.
  unfold parse_sign. destruct s as [|c s]; [done|].
  destruct (code_eqb c "-"); [simpl; lia|].
  destruct (code_eqb c "+"); simpl; lia.
Qed.

Lemma parse_exponent_length s e r :
  parse_exponent s = Some (e, r) -> (string_length r <= string_length s)%nat.
Proof.
  unfold parse_exponent. destruct s as [|c s]; [by intros E; inversion E|].
  destruct (code_eqb c "e" || code_eqb c "E").
  - cbv zeta. destruct (nonempty _); [|done]. intros E. injection E as _ E.
    pose proof (span_digits_length (snd (parse_sign s))) as H. rewrite E in H.
    pose proof (parse_sign_length s). simpl in *. lia.
  - intros E. by inversion E.
Qed.

Lemma parse_number_length s x r :
  parse_number s = Some (x, r) -> (string_length r < string_length s)%nat.
Proof.
  unfold parse_number.
  set (sg := match s with
             | String c r => if code_eqb c "-" then (true, r) else (false, s)
             | EmptyString => (false, s)
             end).
  assert (string_length (snd sg) <= string_length s)%nat as Hsg.
  { subst sg. destruct s as [|c s]; [done|]. destruct (code_eqb c "-"); simpl; lia. }
  pose proof (span_digits_length (snd sg)) as Hsp. cbv zeta.
  destruct (valid_int (fst (span_digits (snd sg)))) eqn:Hv; [|done].
  assert (0 < string_length (fst (span_digits (snd sg))))%nat as Hpos.
  { destruct (fst (span_digits (snd sg))); [done|simpl; lia]. }
  destruct (parse_fraction _) as [[frac s3]|] eqn:Hf; [|done].
  destruct (parse_exponent s3) as [[ex s4]|] eqn:He; [|done].
  intros E. inversion E; subst.
  apply parse_fraction_length in Hf. apply parse_exponent_length in He. lia.
Qed.

Lemma parse_value_unfold fuel s :
  parse_value (S fuel) s
  = match skip_ws s with
    | EmptyString => None
    | String c r =>
        if code_eqb c "{" then
          match expect "}" r with
          | Some r' => Some (JObj [], r')
          | None =>
              with_value (fun m => JObj (define_properties m)) (parse_members fuel r)
          end
        else if code_eqb c "[" then
          match expect "]" r with
          | Some r' => Some (JArr [], r')
          | None => with_value JArr (parse_elements fuel r)
          end
        else if code_eqb c dquote then with_value JStr (parse_chars r)
        else if code_eqb c "n" then option_map (pair JNull) (strip "ull" r)
        else if code_eqb c "t" then option_map (pair (JBool true)) (strip "rue" r)
        else if code_eqb c "f" then option_map (pair (JBool false)) (strip "alse" r)
        else with_value JNum (parse_number (String c r))
    end.
Proof. reflexivity. Qed.

Lemma parse_elements_unfold fuel s :
  parse_elements (S fuel) s
  = match parse_value fuel s with
    | Some (v, r) =>
        match expect "," r with
        | Some r' => with_value (cons v) (parse_elements fuel r')
        | None =>
            match expect "]" r with
            | Some r' => Some ([v], r')
            | None => None
            end
        end
    | None => None
    end.
Proof. reflexivity. Qed.

Lemma parse_members_unfold fuel s :
  parse_members (S fuel) s
  = match expect dquote s with
    | Some r =>
        match parse_chars r with
        | Some (k, r1) =>
            match expect ":" r1 with
            | Some r2 =>
                match parse_value fuel r2 with
                | Some (v, r3) =>
                    match expect "," r3 with
                    | Some r' => with_value (cons (k, v)) (parse_members fuel r')
                    | None =>
                        match expect "}" r3 with
                        | Some r' => Some ([(k, v)], r')
                        | None => None
                        end
                    end
                | None => None
                end
            | None => None
            end
        | None => None
        end
    | None => None
    end.
Proof. reflexivity. Qed.

Lemma with_value_inv {A B} (f : A -> B) p b r :
  with_value f p = Some (b, r) -> exists a, p = Some (a, r) /\ b = f a.
Proof. destruct p as [[a r']|]; [|done]. intros E. inversion E; subst. eauto. Qed.

(** What the parser returns is shorter than what it was given. *)
Lemma parse_length fuel :
  (forall s v r, parse_value fuel s = Some (v, r) ->
     (string_length r < string_length s)%nat)
  /\ (forall s l r, parse_elements fuel s = Some (l, r) ->
        (string_length r < string_length s)%nat)
  /\ (forall s m r, parse_members fuel s = Some (m, r) ->
        (string_length r < string_length s)%nat).
Proof.
  induction fuel as [|fuel (IHv & IHe & IHm)]; [by repeat split|].
  split; [|split].
  - intros s v r. rewrite parse_value_unfold.
    pose proof (skip_ws_length s) as Hws.
    destruct (skip_ws s) as [|c r0]; [done|]. simpl in Hws.
    destruct (code_eqb c "{").
    { destruct (expect "}" r0) as [r'|] eqn:Ex.
      - intros E. inversion E; subst. apply expect_length in Ex. lia.
      - intros E. apply with_value_inv in E as (m & E & _). apply IHm in E. lia. }
    destruct (code_eqb c "[").
    { destruct (expect "]" r0) as [r'|] eqn:Ex.
      - intros E. inversion E; subst. apply expect_length in Ex. lia.
      - intros E. apply with_value_inv in E as (m & E & _). apply IHe in E. lia. }
    destruct (code_eqb c dquote).
    { intros E. apply with_value_inv in E as (k & E & _).
      apply parse_chars_length in E. lia. }
    destruct (code_eqb c "n").
    { destruct (strip "ull" r0) as [r'|] eqn:Ex; [|done].
      intros E. inversion E; subst. apply strip_length in Ex. lia. }
    destruct (code_eqb c "t").
    { destruct (strip "rue" r0) as [r'|] eqn:Ex; [|done].
      intros E. inversion E; subst. apply strip_length in Ex. lia. }
    destruct (code_eqb c "f").
    { destruct (strip "alse" r0) as [r'|] eqn:Ex; [|done].
      intros E. inversion E; subst. apply strip_length in Ex. lia. }
    intros E. apply with_value_inv in E as (x & E & _).
    apply parse_number_length in E. simpl in E. lia.
  - intros s l r. rewrite parse_elements_unfold.
    destruct (parse_value fuel s) as [[v r1]|] eqn:Ev; [|done]. apply IHv in Ev.
    destruct (expect "," r1) as [r'|] eqn:Ec.
    + apply expect_length in Ec. intros E.
      apply with_value_inv in E as (l' & E & _). apply IHe in E. lia.
    + destruct (expect "]" r1) as [r'|] eqn:Eb; [|done].
      apply expect_length in Eb. intros E. inversion E; subst. lia.
  - intros s m r. rewrite parse_members_unfold.
    destruct (expect dquote s) as [r0|] eqn:E0; [|done]. apply expect_length in E0.
    destruct (parse_chars r0) as [[k r1]|] eqn:E1; [|done].
    apply parse_chars_length in E1.
    destruct (expect ":" r1) as [r2|] eqn:E2; [|done]. apply expect_length in E2.
    destruct (parse_value fuel r2) as [[v r3]|] eqn:Ev; [|done]. apply IHv in Ev.
    destruct (expect "," r3) as [r'|] eqn:Ec.
    + apply expect_length in Ec. intros E.
      apply with_value_inv in E as (l' & E & _). apply IHm in E. lia.
    + destruct (expect "}" r3) as [r'|] eqn:Eb; [|done].
      apply expect_length in Eb. intros E. inversion E; subst. lia.
Qed.

(** A result of the parser is its result with any fuel that is not less
    than the number of characters read. *)
Lemma parse_fuel fuel :
  (forall s v r n, parse_value fuel s = Some (v, r) ->
     (string_length s - string_length r <= n)%nat ->
     parse_value n s = Some (v, r))
  /\ (forall s l r n, parse_elements fuel s = Some (l, r) ->
        (string_length s - string_length r <= n)%nat ->
        parse_elements n s = Some (l, r))
  /\ (forall s m r n, parse_members fuel s = Some (m, r) ->
        (string_length s - string_length r <= n)%nat ->
        parse_members n s = Some (m, r)).
Proof.
  induction fuel as [|fuel (IHv & IHe & IHm)]; [by repeat split|].
  destruct (parse_length fuel) as (Lv & Le & Lm).
  split; [|split].
  - intros s v r n E Hn.
    pose proof (proj1 (parse_length (S fuel)) s v r E) as Hlen.
    destruct n as [|n]; [lia|].
    rewrite parse_value_unfold in E |- *.
    pose proof (skip_ws_length s) as Hws.
    destruct (skip_ws s) as [|c r0]; [done|]. simpl in Hws.
    destruct (code_eqb c "{").
    { destruct (expect "}" r0) as [r'|] eqn:Ex; [done|].
      apply with_value_inv in E as (m & E & ->).
      by rewrite (IHm r0 m r n E) by lia. }
    destruct (code_eqb c "[").
    { destruct (expect "]" r0) as [r'|] eqn:Ex; [done|].
      apply with_value_inv in E as (m & E & ->).
      by rewrite (IHe r0 m r n E) by lia. }
    done.
  - intros s l r n E Hn.
    pose proof (proj1 (proj2 (parse_length (S fuel))) s l r E) as Hlen.
    destruct n as [|n]; [lia|].
    rewrite parse_elements_unfold in E |- *.
    destruct (parse_value fuel s) as [[v r1]|] eqn:Ev; [|done].
    pose proof (Lv _ _ _ Ev) as Hv.
    destruct (expect "," r1) as [r'|] eqn:Ec.
    + pose proof (expect_length _ _ _ Ec) as Hc.
      apply with_value_inv in E as (l' & E & ->).
      pose proof (Le _ _ _ E) as Hl'.
      rewrite (IHv s v r1 n Ev) by lia. rewrite Ec.
      by rewrite (IHe r' l' r n E) by lia.
    + destruct (expect "]" r1) as [r'|] eqn:Eb; [|done].
      pose proof (expect_length _ _ _ Eb) as Hb. inversion E; subst.
      rewrite (IHv s v r1 n Ev) by lia. by rewrite Ec, Eb.
  - intros s m r n E Hn.
    pose proof (proj2 (proj2 (parse_length (S fuel))) s m r E) as Hlen.
    destruct n as [|n]; [lia|].
    rewrite parse_members_unfold in E |- *.
    destruct (expect dquote s) as [r0|] eqn:E0; [|done].
    pose proof (expect_length _ _ _ E0) as H0.
    destruct (parse_chars r0) as [[k r1]|] eqn:E1; [|done].
    pose proof (parse_chars_length _ _ _ E1) as H1.
    destruct (expect ":" r1) as [r2|] eqn:E2; [|done].
    pose proof (expect_length _ _ _ E2) as H2.
    destruct (parse_value fuel r2) as [[v r3]|] eqn:Ev; [|done].
    pose proof (Lv _ _ _ Ev) as Hv.
    destruct (expect "," r3) as [r'|] eqn:Ec.
    + pose proof (expect_length _ _ _ Ec) as Hc.
      apply with_value_inv in E as (m' & E & ->).
      pose proof (Lm _ _ _ E) as Hm'.
      rewrite (IHv r2 v r3 n Ev) by lia. rewrite Ec.
      by rewrite (IHm r' m' r n E) by lia.
    + destruct (expect "}" r3) as [r'|] eqn:Eb; [|done].
      pose proof (expect_length _ _ _ Eb) as Hb. inversion E; subst.
      rewrite (IHv r2 v r3 n Ev) by lia. by rewrite Ec, Eb.
Qed.

(** The fuel [JSON_parse] takes is enough: no text is refused for want of
    fuel. *)
Lemma JSON_parse_fuel fuel s v r :
  parse_value fuel s = Some (v, r) -> skip_ws r = EmptyString ->
  JSON_parse s = Some v.
Proof.
  intros E Hr. unfold JSON_parse.
  rewrite (proj1 (parse_fuel fuel) s v r _ E) by lia. by rewrite Hr.
Qed.

(** ** What the codec makes of a value *)

Lemma well_formed_JObj o :
  well_formed (JObj o)
  = keys_distinct (List.map fst o) && keys_ordered (List.map fst o)
    && members_well_formed o.
Proof. reflexivity. Qed.

Lemma transmitted_JObj o : transmitted (JObj o) = JObj (transmitted_members o).
Proof. reflexivity. Qed.

Lemma members_well_formed_app a b :
  members_well_formed (a ++ b) = members_well_formed a && members_well_formed b.
Proof.
  induction a as [|[k v] a IH]; [done|]. simpl. by rewrite IH, andb_assoc.
Qed.

Lemma well_formed_obj_set k v o :
  well_formed v = true -> well_formed (JObj o) = true ->
  well_formed (JObj (obj_set k v o)) = true.
Proof.
  rewrite !well_formed_JObj, !andb_true_iff. intros Hv [[H1 H2] H3].
  rewrite keys_distinct_obj_set, keys_ordered_obj_set by done.
  repeat split.
  destruct (obj_set_split k v o) as (a & b & -> & Ha & [[-> _]|[w ->]]);
    rewrite members_well_formed_app in *; simpl in *;
    rewrite Hv; rewrite !andb_true_iff in *; tauto.
Qed.

Lemma transmitted_defined v : is_undefined (transmitted v) = false.
Proof. destruct v as [| | |x| | |]; try done. by destruct x. Qed.

(** A value and what it comes back as are printed alike. *)
Lemma stringify_transmitted v : stringify_value (transmitted v) = stringify_value v.
Proof.
  induction v as [| |b|x|s|l IH|o IH] using json_ind; try done.
  - destruct x as [| |negative m e]; try done.
    cbn [transmitted stringify_value stringify_number Number_toString].
    destruct (m =? 0); [done|]. by rewrite andb_true_r.
  - cbn [transmitted stringify_value]. do 3 f_equal.
    induction IH as [|v l Hv _ IHl]; [done|]. simpl. by rewrite Hv, IHl.
  - rewrite transmitted_JObj, !stringify_JObj. do 3 f_equal.
    induction IH as [|[k v] o Hv _ IHo]; [done|]. cbn [snd] in Hv.
    cbn [transmitted_members stringify_members].
    destruct (is_undefined v) eqn:E; [done|].
    cbn [stringify_members]. by rewrite transmitted_defined, Hv, IHo.
Qed.

Lemma transmitted_keys k o :
  existsb (string_eqb k) (List.map fst (transmitted_members o)) = true ->
  existsb (string_eqb k) (List.map fst o) = true.
Proof.
  induction o as [|[k0 v0] o IH]; [done|]. cbn [transmitted_members].
  destruct (is_undefined v0); simpl.
  - intros H. rewrite (IH H). apply orb_true_r.
  - destruct (string_eqb k k0); [done|]. apply IH.
Qed.

Lemma transmitted_keys_distinct o :
  keys_distinct (List.map fst o) = true ->
  keys_distinct (List.map fst (transmitted_members o)) = true.
Proof.
  induction o as [|[k0 v0] o IH]; [done|]. simpl.
  rewrite andb_true_iff, negb_true_iff. intros [Hk Hd].
  destruct (is_undefined v0); simpl; [by apply IH|].
  rewrite (IH Hd), andb_true_r. apply negb_true_iff.
  destruct (existsb _ (List.map fst (transmitted_members o))) eqn:E; [|done].
  apply transmitted_keys in E. congruence.
Qed.

Lemma transmitted_keys_before k o :
  forallb (key_before k) (List.map fst o) = true ->
  forallb (key_before k) (List.map fst (transmitted_members o)) = true.
Proof.
  induction o as [|[k0 v0] o IH]; [done|]. simpl.
  rewrite andb_true_iff. intros [Hk H].
  destruct (is_undefined v0); simpl; [by apply IH|]. by rewrite Hk, IH.
Qed.

Lemma transmitted_keys_ordered o :
  keys_ordered (List.map fst o) = true ->
  keys_ordered (List.map fst (transmitted_members o)) = true.
Proof.
  induction o as [|[k0 v0] o IH]; [done|]. simpl.
  rewrite andb_true_iff. intros [Hk H].
  destruct (is_undefined v0); simpl; [by apply IH|].
  by rewrite transmitted_keys_before, IH.
Qed.

(** What comes back is JSON-safe. *)
Lemma transmitted_safe v : well_formed v = true -> json_safe (transmitted v) = true.
Proof.
  induction v as [| |b|x|s|l IH|o IH] using json_ind; try done.
  - destruct x as [| |negative m e]; try done.
    cbn [well_formed transmitted json_safe]. unfold is_double. intros ->.
    destruct (m =? 0); [by rewrite andb_false_r|]. by rewrite !andb_false_r.
  - cbn [well_formed transmitted json_safe].
    induction IH as [|v l Hv _ IHl]; [done|]. simpl.
    rewrite !andb_true_iff. intros [H1 H2]. auto.
  - rewrite transmitted_JObj, well_formed_JObj, json_safe_JObj, !andb_true_iff.
    intros [[H1 H2] H3].
    rewrite transmitted_keys_distinct, transmitted_keys_ordered by done.
    repeat split.
    clear H1 H2. induction IH as [|[k v] o Hv _ IHo]; [done|]. cbn [snd] in Hv.
    simpl in H3. apply andb_prop in H3 as [H3 H4].
    cbn [transmitted_members]. destruct (is_undefined v); [by apply IHo|].
    simpl. by rewrite Hv, IHo.
Qed.

Lemma transmitted_members_length o :
  (length (transmitted_members o) <= length o)%nat.
Proof.
  induction o as [|[k v] o IH]; [done|]. cbn [transmitted_members].
  destruct (is_undefined v); simpl; lia.
Qed.

Lemma json_safe_well_formed v : json_safe v = true -> well_formed v = true.
Proof.
  induction v as [| |b|x|s|l IH|o IH] using json_ind; try done.
  - destruct x as [| |negative m e]; try done.
    cbn [json_safe well_formed]. by intros [H _]%andb_prop.
  - cbn [json_safe well_formed].
    induction IH as [|v l Hv _ IHl]; [done|]. simpl.
    rewrite !andb_true_iff. intros [H1 H2]. auto.
  - rewrite well_formed_JObj, json_safe_JObj, !andb_true_iff.
    intros [[H1 H2] H3]. repeat split; [done..|].
    clear H1 H2. induction IH as [|[k v] o Hv _ IHo]; [done|]. cbn [snd] in Hv.
    simpl in *. apply andb_prop in H3 as [H3 H4]. by rewrite Hv, IHo.
Qed.

(** The JSON-safe values are those that come back as they are. *)
Lemma transmitted_fixed v :
  well_formed v = true -> (transmitted v = v <-> json_safe v = true).
Proof.
  induction v as [| |b|x|s|l IH|o IH] using json_ind; try done.
  - intros Hw. destruct x as [| |negative m e]; try done.
    cbn [well_formed] in Hw. cbn [transmitted json_safe]. rewrite Hw.
    destruct negative, (m =? 0); cbn [andb negb]; split; congruence.
  - cbn [well_formed transmitted json_safe]. intros Hw.
    assert (List.map transmitted l = l <-> forallb json_safe l = true) as H.
    { induction IH as [|v l Hv _ IHl]; [done|]. simpl in *.
      apply andb_prop in Hw as [H1 H2]. rewrite andb_true_iff.
      rewrite <- (Hv H1), <- (IHl H2). split; [intros E; by injection E|].
      intros [E1 E2]. by rewrite E1, E2. }
    rewrite <- H. split; [intros E; by injection E|by intros ->].
  - rewrite transmitted_JObj, well_formed_JObj, json_safe_JObj, !andb_true_iff.
    intros [[H1 H2] H3].
    assert (transmitted_members o = o <-> members_safe o = true) as H.
    { clear H1 H2. induction IH as [|[k v] o Hv _ IHo]; [done|]. cbn [snd] in Hv.
      simpl in H3. apply andb_prop in H3 as [H3 H4].
      cbn [transmitted_members members_safe]. rewrite andb_true_iff.
      rewrite <- (Hv H3), <- (IHo H4).
      destruct (is_undefined v) eqn:E.
      - split.
        + intros E'. pose proof (transmitted_members_length o) as Hlen.
          rewrite E' in Hlen. simpl in Hlen. lia.
        + intros [E' _]. rewrite <- E' in E. by rewrite transmitted_defined in E.
      - split; [intros E'; by injection E'|]. intros [E1 E2]. by rewrite E1, E2. }
    rewrite <- H. split; [intros E; by injection E|]. by intros [_ ->].
Qed.

(** ** The message codec *)

Lemma strip_append p r : strip p (p +:+ r) = Some r.
Proof.
  induction p as [|c p IH]; [done|].
  rewrite append_cons. simpl. by rewrite code_eqb_refl.
Qed.

Lemma strip_inv p s r : strip p s = Some r -> s = p +:+ r.
Proof.
  revert s. induction p as [|c p IH]; intros s H; [destruct s; simpl in H; by inversion H|].
  destruct s as [|c' s]; [done|]. simpl in H.
  destruct (code_eqb_spec c c') as [<-|]; [|done].
  by rewrite (IH s H).
Qed.

Lemma indexOf_unfold s t :
  indexOf s t =
  match strip t s with
  | Some _ => 0
  | None =>
      match s with
      | EmptyString => -1
      | String _ r =>
          match indexOf r t with
          | Z.neg _ => -1
          | i => i + 1
          end
      end
  end.
Proof. by destruct s. Qed.

Lemma indexOf_range s t : -1 <= indexOf s t.
Proof.
  induction s as [|c s IH]; rewrite indexOf_unfold;
    destruct (strip t _); try lia.
  destruct (indexOf s t); lia.
Qed.

Lemma indexOf_zero s t : indexOf s t = 0 <-> exists r, s = t +:+ r.
Proof.
  split.
  - rewrite indexOf_unfold. destruct (strip t s) as [r|] eqn:E.
    + intros _. exists r. by apply strip_inv.
    + destruct s as [|c s]; [done|].
      pose proof (indexOf_range s t). destruct (indexOf s t); lia.
  - intros [r ->]. by rewrite indexOf_unfold, strip_append.
Qed.

Lemma isAmpMessage_spec m :
  isAmpMessage m = true <-> exists r, m = JStr (AMP_MESSAGE_PREFIX +:+ r).
Proof.
  destruct m as [| | | |s| |]; cbn [isAmpMessage];
    try (split; [done|intros [r H]; discriminate]).
  rewrite Z.eqb_eq, indexOf_zero. split; intros [r H]; exists r; congruence.
Qed.

Lemma foreign_traffic m σ :
  ~ (exists r, m = JStr (AMP_MESSAGE_PREFIX +:+ r)) ->
  isAmpMessage m = false /\ deserializeMessage m σ = (Ret JNull, σ).
Proof.
  intros H. assert (isAmpMessage m = false) as E.
  { apply not_true_is_false. by rewrite isAmpMessage_spec. }
  split; [done|]. unfold deserializeMessage. by rewrite E.
Qed.

Lemma deserialize_malformed r σ :
  let s := AMP_MESSAGE_PREFIX +:+ r in
  indexOf s "{" = -1 \/ JSON_parse (substr s (indexOf s "{")) = None ->
  deserializeMessage (JStr s) σ
  = (Ret JNull,
     with_log (log σ ++ [("MESSAGING"%string, "Failed to parse message: " +:+ s)]) σ).
Proof.
  intros s H. unfold deserializeMessage.
  assert (isAmpMessage (JStr s) = true) as -> by (apply isAmpMessage_spec; by exists r).
  simpl negb. cbv iota zeta.
  destruct (Z.eqb_spec (indexOf s "{") (-1)) as [E|E]; [reflexivity|].
  destruct H as [H|H]; [done|]. by rewrite H.
Qed.

Lemma deserialize_returns m σ :
  exists v σ', deserializeMessage m σ = (Ret v, σ').
Proof.
  unfold deserializeMessage. destruct (isAmpMessage m) eqn:E; simpl; [|by eauto].
  apply isAmpMessage_spec in E as [r ->].
  destruct (_ =? -1); [by eauto|]. destruct (JSON_parse _); by eauto.
Qed.

Lemma with_objects_twice a b σ :
  with_objects a (with_objects b σ) = with_objects a σ.
Proof. reflexivity. Qed.

(** An assignment to a key other than [__proto__] sets the own property. *)
Lemma setProperty_own l k v σ d :
  objects σ !! l = Some d -> string_eqb k "__proto__" = false ->
  setProperty l k v σ
  = (Ret tt, with_objects (<[l := obj_set k v d]> (objects σ)) σ).
Proof. intros H Hk. unfold setProperty. by rewrite H, Hk. Qed.

Lemma serializeMessage_run type sentinel l d rtvVersion σ :
  objects σ !! l = Some d ->
  let d' := obj_set "sentinel" (JStr sentinel) (obj_set "type" (JStr type) d) in
  serializeMessage type sentinel (Some l) rtvVersion σ
  = (Ret (AMP_MESSAGE_PREFIX +:+ or_else rtvVersion EmptyString +:+ JSON_stringify d'),
     with_objects (<[l := d']> (objects σ)) σ).
Proof.
  intros H d'. unfold serializeMessage, mbind, M_bind, bind, mret, M_ret, ret.
  rewrite (setProperty_own l "type" _ σ d H eq_refl).
  rewrite (setProperty_own l "sentinel" _ _ (obj_set "type" (JStr type) d))
    by (apply lookup_insert_eq || reflexivity).
  unfold getObject. simpl objects.
  rewrite lookup_insert_eq, insert_insert_eq. reflexivity.
Qed.

Lemma wire_starts_with_prefix v body :
  indexOf (AMP_MESSAGE_PREFIX +:+ v +:+ body) AMP_MESSAGE_PREFIX = 0.
Proof. apply indexOf_zero. by eexists. Qed.

Lemma deserialize_wire o σ :
  json_safe (JObj o) = true ->
  deserializeMessage (JStr (AMP_MESSAGE_PREFIX +:+ EmptyString +:+ JSON_stringify o)) σ
  = (Ret (JObj o), σ).
Proof.
  intros H. unfold deserializeMessage.
  assert (isAmpMessage (JStr (AMP_MESSAGE_PREFIX +:+ EmptyString +:+ JSON_stringify o)) = true) as ->
    by (apply isAmpMessage_spec; by eexists).
  unfold JSON_stringify. rewrite stringify_JObj.
  set (body := join_comma (stringify_members o) +:+ "}").
  change (indexOf (AMP_MESSAGE_PREFIX +:+ EmptyString +:+ String "{" body) "{") with 4.
  change (substr (AMP_MESSAGE_PREFIX +:+ EmptyString +:+ String "{" body) 4) with (String "{" body).
  subst body. rewrite <- stringify_JObj. fold (JSON_stringify o).
  by rewrite JSON_parse_stringify.
Qed.

(** ** Computations on the world *)

Lemma bind_unfold {A B} (m : M A) (k : A -> M B) σ :
  (m ≫= k) σ = match m σ with
               | (Ret a, σ') => k a σ'
               | (Throw e, σ') => (Throw e, σ')
               end.
Proof. reflexivity. Qed.

Lemma bind_inv {A B} (m : M A) (k : A -> M B) σ b σ' :
  (m ≫= k) σ = (Ret b, σ') ->
  exists a σ1, m σ = (Ret a, σ1) /\ k a σ1 = (Ret b, σ').
Proof. rewrite bind_unfold. destruct (m σ) as [[a|e] σ1]; [by eauto|done]. Qed.

Lemma ret_inv {A} (a b : A) σ σ' :
  (mret a : M A) σ = (Ret b, σ') -> a = b /\ σ = σ'.
Proof. intros H. by inversion H. Qed.

Lemma getWindow_inv win σ w σ' :
  getWindow win σ = (Ret w, σ') -> windows σ !! win = Some w /\ σ' = σ.
Proof. unfold getWindow. destruct (windows σ !! win); intros H; by inversion H. Qed.

Lemma updateWindow_inv win f σ σ' :
  updateWindow win f σ = (Ret tt, σ') ->
  exists w, windows σ !! win = Some w
            /\ σ' = with_windows (<[win := f w]> (windows σ)) σ.
Proof. unfold updateWindow. destruct (windows σ !! win); intros H; inversion H; eauto. Qed.

Lemma nonempty_append a b : nonempty (a +:+ b) = nonempty a || nonempty b.
Proof. by destruct a. Qed.

Lemma if_truthy_nonempty o u : if_truthy o = Some u -> nonempty u = true.
Proof. destruct o as [s|]; simpl; [|done]. destruct (nonempty s) eqn:E; congruence. Qed.

Lemma if_truthy_Some u : nonempty u = true -> if_truthy (Some u) = Some u.
Proof. simpl. by intros ->. Qed.

Lemma getCustom_nonempty parseUrl irv win strict σ u σ' :
  getCustomBootstrapBaseUrl parseUrl irv win strict σ = (Ret (Some u), σ') ->
  nonempty u = true.
Proof.
  unfold getCustomBootstrapBaseUrl. intros H.
  apply bind_inv in H as (w & σ1 & _ & H).
  destruct (meta_amp_3p_iframe_src w) as [content|]; [|by inversion H].
  apply bind_inv in H as (url & σ2 & _ & H).
  apply bind_inv in H as (? & σ3 & _ & H).
  apply bind_inv in H as (? & σ4 & _ & H).
  apply ret_inv in H as [H _]. inversion H.
  rewrite nonempty_append. simpl. by rewrite orb_true_r.
Qed.

Lemma getDefault_nonempty irv mode urls win base σ u σ' :
  getDefaultBootstrapBaseUrl irv mode urls win base σ = (Ret u, σ') ->
  nonempty u = true.
Proof.
  unfold getDefaultBootstrapBaseUrl. intros H.
  destruct (localDev mode || test mode).
  - apply bind_inv in H as (o & σ1 & _ & H).
    destruct (if_truthy o) as [v|] eqn:E.
    + apply ret_inv in H as [<- _]. by apply if_truthy_nonempty in E.
    + apply bind_inv in H as (host & σ2 & _ & H).
      apply ret_inv in H as [<- _]. rewrite nonempty_append. simpl. by rewrite orb_true_r.
  - apply bind_inv in H as (sub & σ1 & _ & H).
    by apply ret_inv in H as [<- _].
Qed.

Lemma getBootstrapBaseUrl_cached parseUrl irv mode urls win strict σ w u :
  windows σ !! win = Some w -> if_truthy (bootstrapBaseUrl w) = Some u ->
  getBootstrapBaseUrl parseUrl irv mode urls win strict σ = (Ret u, σ).
Proof.
  intros Hw Hu. unfold getBootstrapBaseUrl. rewrite bind_unfold.
  unfold getWindow. by rewrite Hw, Hu.
Qed.

Lemma getBootstrapBaseUrl_caches parseUrl irv mode urls win strict σ u σ' :
  getBootstrapBaseUrl parseUrl irv mode urls win strict σ = (Ret u, σ') ->
  exists w, windows σ' !! win = Some w /\ if_truthy (bootstrapBaseUrl w) = Some u.
Proof.
  unfold getBootstrapBaseUrl. intros H.
  apply bind_inv in H as (w & σ1 & Hw & H).
  apply getWindow_inv in Hw as [Hw ->].
  destruct (if_truthy (bootstrapBaseUrl w)) as [cached|] eqn:E.
  - apply ret_inv in H as [<- <-]. eauto.
  - apply bind_inv in H as (custom & σ2 & Hc & H).
    apply bind_inv in H as (url & σ3 & Hurl & H).
    apply bind_inv in H as ([] & σ4 & Hupd & H).
    apply ret_inv in H as [<- <-].
    apply updateWindow_inv in Hupd as (w3 & Hw3 & ->).
    eexists. split; [apply lookup_insert_eq|].
    apply if_truthy_Some.
    destruct (if_truthy custom) as [c|] eqn:Ec.
    + apply ret_inv in Hurl as [<- _]. by apply if_truthy_nonempty in Ec.
    + by apply getDefault_nonempty in Hurl.
Qed.

Lemma getBootstrapBaseUrl_twice parseUrl irv mode urls win strict strict' σ u σ' :
  getBootstrapBaseUrl parseUrl irv mode urls win strict σ = (Ret u, σ') ->
  getBootstrapBaseUrl parseUrl irv mode urls win strict' σ' = (Ret u, σ').
Proof.
  intros H. apply getBootstrapBaseUrl_caches in H as (w & Hw & Hu).
  by eapply getBootstrapBaseUrl_cached.
Qed.

Lemma serializeMessage_default type sentinel rtvVersion σ :
  let l := fresh (dom (objects σ) ∪ dom (prototypes σ)) in
  let d := [("type"%string, JStr type); ("sentinel"%string, JStr sentinel)] in
  serializeMessage type sentinel None rtvVersion σ
  = (Ret (AMP_MESSAGE_PREFIX +:+ or_else rtvVersion EmptyString +:+ JSON_stringify d),
     with_objects (<[l := d]> (objects σ)) σ).
Proof.
  intros l d. unfold serializeMessage. rewrite bind_unfold. unfold newObject.
  fold l. rewrite bind_unfold.
  rewrite (setProperty_own l "type" _ _ []) by (apply lookup_insert_eq || reflexivity).
  rewrite bind_unfold.
  rewrite (setProperty_own l "sentinel" _ _ (obj_set "type" (JStr type) []))
    by (apply lookup_insert_eq || reflexivity).
  rewrite bind_unfold. unfold getObject. simpl objects.
  rewrite lookup_insert_eq, !insert_insert_eq. reflexivity.
Qed.

Lemma getCustom_absent parseUrl irv win strict σ w :
  windows σ !! win = Some w -> meta_amp_3p_iframe_src w = None ->
  getCustomBootstrapBaseUrl parseUrl irv win strict σ = (Ret None, σ).
Proof.
  intros Hw Hm. unfold getCustomBootstrapBaseUrl. rewrite bind_unfold.
  unfold getWindow. by rewrite Hw, Hm.
Qed.

Lemma getCustom_run parseUrl irv win strict σ w content :
  windows σ !! win = Some w -> meta_amp_3p_iframe_src w = Some content ->
  getCustomBootstrapBaseUrl parseUrl irv win strict σ
  = (if string_eqb (protocol (parseUrl content)) "https:" then
       if indexOf content "?" =? -1 then
         if (string_eqb (hostname (parseUrl content)) "localhost" && negb strict)
            || negb (string_eqb (origin (parseUrl content))
                       (origin (parseUrl (href (location w)))))
         then Ret (Some (content +:+ "?" +:+ irv))
         else Throw (AssertionFailure
                "3p iframe url must not be on the same origin as the current document")
       else Throw (AssertionFailure "3p iframe url must not include query string")
     else Throw (AssertionFailure "source must start with https://"), σ).
Proof.
  intros Hw Hm. unfold getCustomBootstrapBaseUrl. rewrite bind_unfold.
  unfold getWindow. rewrite Hw, Hm. unfold assertHttpsUrl.
  rewrite !bind_unfold. unfold user_assert.
  destruct (string_eqb (protocol _) _); [|done]. simpl.
  rewrite !bind_unfold.
  destruct (indexOf content "?" =? -1); [|done]. simpl.
  rewrite !bind_unfold.
  by destruct (_ || _).
Qed.

Lemma windowDepth_from_nested ws win n :
  nested ws win n ->
  forall fuel acc, (n < fuel)%nat ->
    windowDepth_from fuel ws (Some win) acc = Ret (acc + N.of_nat n)%N.
Proof.
  induction 1 as [win w Hw Hp|win w p n Hw Hp Hne Hn IH]; intros fuel acc Hf;
    (destruct fuel as [|fuel]; [lia|]); simpl; rewrite Hw.
  - rewrite decide_True by done. f_equal. lia.
  - rewrite decide_False by congruence. rewrite Hp, IH by lia. f_equal. lia.
Qed.

Lemma getRandom_returns win σ w :
  windows σ !! win = Some w -> exists rand σ', getRandom win σ = (Ret rand, σ').
Proof.
  intros Hw. unfold getRandom. rewrite bind_unfold. unfold getWindow. rewrite Hw.
  destruct (crypto w); rewrite bind_unfold; unfold updateWindow; rewrite Hw; by eauto.
Qed.

Lemma nested_lookup ws win n : nested ws win n -> is_Some (ws !! win).
Proof. destruct 1; eauto. Qed.

Lemma generateSentinel_run σ win n fuel :
  nested (windows σ) win n -> (n < fuel)%nat ->
  exists rand σ',
    getRandom win σ = (Ret rand, σ')
    /\ generateSentinel fuel win σ
       = (Ret (String_N (N.of_nat n) +:+ "-" +:+ rand), σ').
Proof.
  intros Hn Hf. destruct (nested_lookup _ _ _ Hn) as [w Hw].
  destruct (getRandom_returns win σ w Hw) as (rand & σ' & Hr).
  exists rand, σ'. split; [done|].
  unfold generateSentinel. rewrite bind_unfold.
  rewrite (windowDepth_from_nested _ _ _ Hn) by done.
  rewrite bind_unfold, Hr. reflexivity.
Qed.

Lemma getRandom_crypto win σ w getRandomValues :
  windows σ !! win = Some w -> crypto w = Some getRandomValues ->
  exists rand σ', getRandom win σ = (Ret rand, σ') /\ all_digits rand = true.
Proof.
  intros Hw Hc. unfold getRandom. rewrite bind_unfold. unfold getWindow.
  rewrite Hw, Hc, bind_unfold. unfold updateWindow. rewrite Hw.
  do 2 eexists. split; [reflexivity|].
  by rewrite all_digits_append, !all_digits_String_N.
Qed.

Lemma getRandom_fallback_plain win σ w :
  windows σ !! win = Some w -> crypto w = None ->
  match Math_random w (drawn w) with
  | FZero => True
  | FDec _ n => -6 < n <= 0
  end ->
  exists rand σ', getRandom win σ = (Ret rand, σ') /\ all_digits rand = true.
Proof.
  intros Hw Hc Hx. unfold getRandom. rewrite bind_unfold. unfold getWindow.
  rewrite Hw, Hc, bind_unfold. unfold updateWindow. rewrite Hw.
  do 2 eexists. split; [reflexivity|].
  rewrite all_digits_append. destruct (Math_random w (drawn w)) as [|s n]; [done|].
  unfold String_float. pose proof (String_N_length (N.pos s)).
  destruct (Z.leb_spec (Z.of_nat (string_length (String_N (N.pos s)))) n); [lia|].
  destruct (Z.ltb_spec 0 n); [lia|].
  destruct (Z.ltb_spec (-6) n); [|lia]. destruct (Z.leb_spec n 0); [|lia].
  simpl andb. cbv iota.
  change (substr (String "0" (String "." ?x)) 2) with x.
  by rewrite all_digits_append, all_digits_zeros, all_digits_String_N.
Qed.

Lemma String_float_exponent s n :
  n <= -6 ->
  exists r tail,
    substr (String_float (FDec s n)) 2 = r +:+ String "-" tail
    \/ substr (String_float (FDec s n)) 2 = r +:+ String "e" tail.
Proof.
  intros Hn. unfold String_float.
  destruct (String_N_shape (N.pos s)) as (c & r & E & _ & _).
  pose proof (String_N_length (N.pos s)).
  destruct (Z.leb_spec (Z.of_nat (string_length (String_N (N.pos s)))) n); [lia|].
  destruct (Z.ltb_spec 0 n); [lia|]. destruct (Z.ltb_spec (-6) n); [lia|].
  simpl andb. cbv iota zeta.
  destruct (Z.ltb_spec (n - 1) 0); [|lia].
  rewrite E. destruct r as [|c' r'].
  - exists EmptyString. eexists. left. reflexivity.
  - exists (String c' r'). eexists. right.
    change (Z.of_nat (string_length (String c (String c' r'))) =? 1)
      with (Z.of_nat (S (S (string_length r'))) =? 1).
    destruct (Z.eqb_spec (Z.of_nat (S (S (string_length r')))) 1); [lia|].
    reflexivity.
Qed.

Lemma all_digits_sign r c tail :
  is_digit c = false -> all_digits ((r +:+ String c tail) +:+ "0") = false.
Proof.
  intros Hc. rewrite !all_digits_append. simpl. rewrite Hc.
  by rewrite andb_false_r.
Qed.

Lemma getRandom_fallback_exponent win σ w s n :
  windows σ !! win = Some w -> crypto w = None ->
  Math_random w (drawn w) = FDec s n -> n <= -6 ->
  exists rand σ', getRandom win σ = (Ret rand, σ') /\ all_digits rand = false.
Proof.
  intros Hw Hc Hx Hn. unfold getRandom. rewrite bind_unfold. unfold getWindow.
  rewrite Hw, Hc, bind_unfold. unfold updateWindow. rewrite Hw, Hx.
  do 2 eexists. split; [reflexivity|].
  destruct (String_float_exponent s n Hn) as (r & tail & [-> | ->]);
    by apply all_digits_sign.
Qed.

Lemma getDefault_localDev irv mode urls win σ w :
  localDev mode = true -> overrideBootstrapBaseUrl σ = None ->
  minified mode = false -> urls_localDev urls = false ->
  windows σ !! win = Some w ->
  (nonempty (port (location w)) = true ->
   getDefaultBootstrapBaseUrl irv mode urls win None σ
   = (Ret ("http://ads.localhost:" +:+ port (location w)
           +:+ "/dist.3p/current/frame.max.html"), σ))
  /\ (forall p pw,
        port (location w) = EmptyString -> parent w = Some p -> windows σ !! p = Some pw ->
        getDefaultBootstrapBaseUrl irv mode urls win None σ
        = (Ret ("http://ads.localhost:" +:+ port (location pw)
                +:+ "/dist.3p/current/frame.max.html"), σ)).
Proof.
  intros Hl Ho Hm Hu Hw.
  unfold getDefaultBootstrapBaseUrl, getOverrideBootstrapBaseUrl, getAdsLocalhost,
    getWindow, mbind, M_bind, bind, mret, M_ret, ret.
  rewrite Hl, Hm, Hu. change (true || test mode) with true. cbv iota beta.
  rewrite Ho. change (if_truthy None) with (@None string). cbv iota beta.
  rewrite Hw. cbv iota beta. split.
  - intros Hp. rewrite if_truthy_Some by done. by rewrite append_assoc.
  - intros p pw Hp Hpar Hpw. rewrite Hp, Hpar.
    change (if_truthy (Some EmptyString)) with (@None string). cbv iota beta.
    rewrite Hpw. by rewrite append_assoc.
Qed.

(** ** The properties of the specification *)

(** C1 (round-trip law).  For every message kind [t] of the enumeration,
    every non-empty sentinel [s] and every JSON-safe mapping [d] passed as
    [data], [serializeMessage t s d] returns a string that
    [deserializeMessage] decodes to a mapping whose [type] is [t], whose
    [sentinel] is [s], and in which every other field of [d] is present
    with its value. *)
Theorem serialize_deserialize_roundtrip
    (t : MessageType) (s : string) (l : nat) (d : object) (σ : World) :
  nonempty s = true ->
  objects σ !! l = Some d ->
  json_safe (JObj d) = true ->
  exists wire σ' m,
    serializeMessage (MessageType_value t) s (Some l) None σ = (Ret wire, σ')
    /\ deserializeMessage (JStr wire) σ' = (Ret (JObj m), σ')
    /\ obj_get "type" m = Some (JStr (MessageType_value t))
    /\ obj_get "sentinel" m = Some (JStr s)
    /\ forall k v, k <> "type"%string -> k <> "sentinel"%string ->
         obj_get k d = Some v -> obj_get k m = Some v.
Proof.
  intros _ Hl Hsafe.
  set (m := obj_set "sentinel" (JStr s)
              (obj_set "type" (JStr (MessageType_value t)) d)).
  exists (AMP_MESSAGE_PREFIX +:+ EmptyString +:+ JSON_stringify m),
    (with_objects (<[l := m]> (objects σ)) σ), m.
  split; [by apply serializeMessage_run|].
  split; [apply deserialize_wire; by repeat apply json_safe_obj_set|].
  split; [unfold m; rewrite obj_get_set_ne by done; apply obj_get_set_eq|].
  split; [apply obj_get_set_eq|].
  intros k v Ht Hs <-. unfold m. by rewrite !obj_get_set_ne.
Qed.

Lemma serialize_deserialize_roundtrip_witness :
  exists wire σ' m,
    serializeMessage "embed-size" "0-34821193" (Some 9%nat) None payload_page
    = (Ret wire, σ')
    /\ deserializeMessage (JStr wire) σ' = (Ret (JObj m), σ')
    /\ obj_get "type" m = Some (JStr "embed-size")
    /\ obj_get "sentinel" m = Some (JStr "0-34821193")
    /\ forall k v, k <> "type"%string -> k <> "sentinel"%string ->
         obj_get k example_payload = Some v -> obj_get k m = Some v.
Proof.
  apply (serialize_deserialize_roundtrip EMBED_SIZE "0-34821193" 9
           example_payload payload_page);
    vm_compute; reflexivity.
Defined.

(** C2 (bootstrap URL security invariant).  When the document declares a
    custom bootstrap URL, [getCustomBootstrapBaseUrl] fails with an
    assertion failure if the URL contains a query string, and fails with an
    assertion failure if the URL has the origin of the hosting document,
    unless its host is [localhost] and strict mode is off; when the URL is
    HTTPS and passes both checks, the result is the URL with the version
    token appended as query. *)
Theorem custom_bootstrap_url_checks
    (parseUrl : string -> Url) (irv : string) (win : nat) (strict : bool)
    (σ : World) (w : Window) (content : string) :
  windows σ !! win = Some w ->
  meta_amp_3p_iframe_src w = Some content ->
  let parsed := parseUrl content in
  let same_origin := origin parsed = origin (parseUrl (href (location w))) in
  let relaxed := hostname parsed = "localhost"%string /\ strict = false in
  (indexOf content "?" <> -1 ->
   exists msg, getCustomBootstrapBaseUrl parseUrl irv win strict σ
               = (Throw (AssertionFailure msg), σ))
  /\ (same_origin -> ~ relaxed ->
      exists msg, getCustomBootstrapBaseUrl parseUrl irv win strict σ
                  = (Throw (AssertionFailure msg), σ))
  /\ (protocol parsed = "https:"%string -> indexOf content "?" = -1 ->
      relaxed \/ ~ same_origin ->
      getCustomBootstrapBaseUrl parseUrl irv win strict σ
      = (Ret (Some (content +:+ "?" +:+ irv)), σ)).
Proof.
  intros Hw Hm parsed same_origin relaxed.
  rewrite (getCustom_run parseUrl irv win strict σ w content Hw Hm).
  fold parsed. repeat split.
  - intros Hq. apply Z.eqb_neq in Hq. rewrite Hq.
    destruct (string_eqb _ _); by eauto.
  - intros Hs Hr.
    assert ((string_eqb (hostname parsed) "localhost" && negb strict)
            || negb (string_eqb (origin parsed)
                       (origin (parseUrl (href (location w))))) = false) as ->.
    { apply orb_false_intro.
      - destruct (string_eqb_spec (hostname parsed) "localhost"), strict;
          try done. by destruct Hr.
      - apply negb_false_iff, string_eqb_eq, Hs. }
    destruct (string_eqb _ _); [destruct (_ =? _)|]; by eauto.
  - intros Hp Hq Hc. apply string_eqb_eq in Hp. apply Z.eqb_eq in Hq.
    rewrite Hp, Hq.
    assert ((string_eqb (hostname parsed) "localhost" && negb strict)
            || negb (string_eqb (origin parsed)
                       (origin (parseUrl (href (location w))))) = true) as ->; [|done].
    destruct Hc as [[Hh ->]|Hn].
    + apply string_eqb_eq in Hh. by rewrite Hh.
    + apply string_eqb_neq in Hn. unfold same_origin in Hn.
      rewrite Hn. by rewrite orb_true_r.
Qed.

Lemma custom_bootstrap_url_checks_witness :
  (exists msg,
     getCustomBootstrapBaseUrl example_parseUrl "1.0" 0 false
       (custom_page "https://3p.example.com/frame.html?a=1")
     = (Throw (AssertionFailure msg),
        custom_page "https://3p.example.com/frame.html?a=1"))
  /\ (exists msg,
        getCustomBootstrapBaseUrl example_parseUrl "1.0" 0 true
          (custom_page "https://localhost:8000/frame.html")
        = (Throw (AssertionFailure msg),
           custom_page "https://localhost:8000/frame.html"))
  /\ getCustomBootstrapBaseUrl example_parseUrl "1.0" 0 false
       (custom_page "https://localhost:8000/frame.html")
     = (Ret (Some "https://localhost:8000/frame.html?1.0"),
        custom_page "https://localhost:8000/frame.html").
Proof.
  split; [|split].
  - refine (proj1 (custom_bootstrap_url_checks example_parseUrl "1.0" 0 false
                     (custom_page "https://3p.example.com/frame.html?a=1")
                     (example_window 0 (Some counting)
                        (Some "https://3p.example.com/frame.html?a=1"%string))
                     "https://3p.example.com/frame.html?a=1" eq_refl eq_refl) _).
    discriminate.
  - refine (proj1 (proj2 (custom_bootstrap_url_checks example_parseUrl "1.0" 0 true
                     (custom_page "https://localhost:8000/frame.html")
                     (example_window 0 (Some counting)
                        (Some "https://localhost:8000/frame.html"%string))
                     "https://localhost:8000/frame.html" eq_refl eq_refl)) _ _).
    + reflexivity.
    + intros [_ H]; discriminate H.
  - refine (proj2 (proj2 (custom_bootstrap_url_checks example_parseUrl "1.0" 0 false
                     (custom_page "https://localhost:8000/frame.html")
                     (example_window 0 (Some counting)
                        (Some "https://localhost:8000/frame.html"%string))
                     "https://localhost:8000/frame.html" eq_refl eq_refl)) _ _ _).
    + reflexivity.
    + reflexivity.
    + left; split; reflexivity.
Defined.

(** C3 (foreign-traffic rejection).  [isAmpMessage] returns true exactly
    for the strings that start with the prefix [amp-]; for every other
    value, string or not, it returns false and [deserializeMessage] returns
    [null]. *)
Theorem foreign_traffic_rejected (m : json) (σ : World) :
  (isAmpMessage m = true <-> exists r, m = JStr (AMP_MESSAGE_PREFIX +:+ r))
  /\ (~ (exists r, m = JStr (AMP_MESSAGE_PREFIX +:+ r)) ->
      isAmpMessage m = false /\ deserializeMessage m σ = (Ret JNull, σ)).
Proof. split; [apply isAmpMessage_spec|apply foreign_traffic]. Qed.

Lemma foreign_traffic_rejected_witness :
  (isAmpMessage (JNum (number_of_Z 42)) = false
   /\ deserializeMessage (JNum (number_of_Z 42)) top_page = (Ret JNull, top_page))
  /\ (isAmpMessage (JStr "xamp-{}") = false
      /\ deserializeMessage (JStr "xamp-{}") top_page = (Ret JNull, top_page)).
Proof.
  split.
  - apply (proj2 (foreign_traffic_rejected (JNum (number_of_Z 42)) top_page)).
    intros [r H]; discriminate H.
  - apply (proj2 (foreign_traffic_rejected (JStr "xamp-{}") top_page)).
    intros [r H]; discriminate H.
Defined.

(** C4 (malformed-payload tolerance).  For a string that starts with the
    prefix and has no [{], or whose text from the first [{] on is not valid
    JSON, [deserializeMessage] returns [null] after logging the failure, and
    does not throw. *)
Theorem malformed_payload_tolerated (r : string) (σ : World) :
  let s := AMP_MESSAGE_PREFIX +:+ r in
  indexOf s "{" = -1 \/ JSON_parse (substr s (indexOf s "{")) = None ->
  deserializeMessage (JStr s) σ
  = (Ret JNull,
     with_log (log σ ++ [("MESSAGING"%string, "Failed to parse message: " +:+ s)]) σ).
Proof. apply deserialize_malformed. Qed.

Lemma malformed_payload_tolerated_witness :
  deserializeMessage (JStr "amp-{not json") top_page
  = (Ret JNull,
     with_log [("MESSAGING"%string, "Failed to parse message: amp-{not json"%string)]
       top_page).
Proof.
  apply (malformed_payload_tolerated "{not json" top_page).
  right. reflexivity.
Defined.



(** C6 (depth computation).  For a window whose chain of parents reaches
    the top window (the window that is its own parent) after [n] steps,
    [generateSentinel] returns the decimal digits of [n], a hyphen and the
    string [getRandom] returns for that window: [0] for a top window, [3]
    for a window nested three levels deep. *)
Theorem generateSentinel_depth (σ : World) (win n fuel : nat) :
  nested (windows σ) win n ->
  (n < fuel)%nat ->
  exists rand σ',
    getRandom win σ = (Ret rand, σ')
    /\ generateSentinel fuel win σ
       = (Ret (String_N (N.of_nat n) +:+ "-" +:+ rand), σ').
Proof. apply generateSentinel_run. Qed.

Lemma generateSentinel_depth_witness :
  (exists rand σ',
     getRandom 0 nested_page = (Ret rand, σ')
     /\ generateSentinel 1 0 nested_page = (Ret ("0" +:+ "-" +:+ rand), σ'))
  /\ (exists rand σ',
        getRandom 3 nested_page = (Ret rand, σ')
        /\ generateSentinel 4 3 nested_page = (Ret ("3" +:+ "-" +:+ rand), σ')).
Proof.
  split.
  - apply (generateSentinel_depth nested_page 0 0 1); [|lia].
    by eapply nested_top.
  - apply (generateSentinel_depth nested_page 3 3 4); [|lia].
    eapply nested_child; [reflexivity|reflexivity|done|].
    eapply nested_child; [reflexivity|reflexivity|done|].
    eapply nested_child; [reflexivity|reflexivity|done|].
    by eapply nested_top.
Defined.

(** C7 (the random identity is a string of digits), at an input where the
    code departs from it.  In a window without [crypto] where
    [Math.random()] returns [1e-7], a double of the unit interval,
    [getRandom] returns [-70]: [String(1e-7)] is [1e-7], and the code keeps
    what follows its first two characters.  The lemmas [getRandom_crypto],
    [getRandom_fallback_plain] and [getRandom_fallback_exponent] say where
    the result is all digits and where it is not. *)
Theorem getRandom_exponent_notation :
  unit_interval (FDec 1 (-6))
  /\ String_float (FDec 1 (-6)) = "1e-7"%string
  /\ fst (getRandom 0 weak_page) = Ret "-70"%string
  /\ all_digits "-70" = false.
Proof.
  split; [split; [lia|by vm_compute]|].
  repeat split; reflexivity.
Qed.

(** C8 (frame effect of serialization).  [serializeMessage] called with a
    data object writes the [type] and the [sentinel] property of that very
    object and nothing else in the store, any other property keeps its
    value, and the result is the prefix, the version token when one is
    given, and the JSON text of the object as it is after the writes; the
    result starts with the prefix. *)
Theorem serializeMessage_mutates_data
    (type sentinel : string) (l : nat) (d : object)
    (rtvVersion : option string) (σ : World) :
  objects σ !! l = Some d ->
  let d' := obj_set "sentinel" (JStr sentinel) (obj_set "type" (JStr type) d) in
  let wire := AMP_MESSAGE_PREFIX +:+ or_else rtvVersion EmptyString +:+ JSON_stringify d' in
  serializeMessage type sentinel (Some l) rtvVersion σ
  = (Ret wire, with_objects (<[l := d']> (objects σ)) σ)
  /\ obj_get "type" d' = Some (JStr type)
  /\ obj_get "sentinel" d' = Some (JStr sentinel)
  /\ (forall k, k <> "type"%string -> k <> "sentinel"%string ->
        obj_get k d' = obj_get k d)
  /\ indexOf wire AMP_MESSAGE_PREFIX = 0.
Proof.
  intros Hl d' wire.
  split; [by apply serializeMessage_run|].
  split; [unfold d'; rewrite obj_get_set_ne by done; apply obj_get_set_eq|].
  split; [apply obj_get_set_eq|].
  split; [intros k Ht Hs; unfold d'; by rewrite !obj_get_set_ne|].
  apply wire_starts_with_prefix.
Qed.

Lemma serializeMessage_mutates_data_witness :
  objects (snd (serializeMessage "embed-size" "0-34821193" (Some 7%nat)
                  (Some "1.0"%string) top_page)) !! 7%nat
  = Some [("width"%string, JNum (number_of_Z 300)); ("height"%string, JNum (number_of_Z 250));
          ("type"%string, JStr "embed-size"); ("sentinel"%string, JStr "0-34821193")].
Proof.
  rewrite (proj1 (serializeMessage_mutates_data "embed-size" "0-34821193" 7
                    [("width"%string, JNum (number_of_Z 300)); ("height"%string, JNum (number_of_Z 250))]
                    (Some "1.0"%string) top_page eq_refl)).
  reflexivity.
Defined.

(** C9, as the code has it.  In local-development mode, with no override
    URL set, in a build that is not minified and with [urls.localDev]
    unset, [getDefaultBootstrapBaseUrl] without a base name returns
    [http://ads.localhost:<port>/dist.3p/current/frame.max.html], where the
    port is that of the window's location or, when that is empty, that of
    its parent's location. *)
Theorem default_url_local_dev
    (irv : string) (mode : Mode) (urls : Urls) (win : nat) (σ : World)
    (w : Window) :
  localDev mode = true ->
  overrideBootstrapBaseUrl σ = None ->
  minified mode = false ->
  urls_localDev urls = false ->
  windows σ !! win = Some w ->
  (nonempty (port (location w)) = true ->
   getDefaultBootstrapBaseUrl irv mode urls win None σ
   = (Ret ("http://ads.localhost:" +:+ port (location w)
           +:+ "/dist.3p/current/frame.max.html"), σ))
  /\ (forall p pw,
        port (location w) = EmptyString -> parent w = Some p ->
        windows σ !! p = Some pw ->
        getDefaultBootstrapBaseUrl irv mode urls win None σ
        = (Ret ("http://ads.localhost:" +:+ port (location pw)
                +:+ "/dist.3p/current/frame.max.html"), σ)).
Proof. apply getDefault_localDev. Qed.

Lemma default_url_local_dev_witness :
  getDefaultBootstrapBaseUrl "1.0" development example_urls 0 None top_page
  = (Ret "http://ads.localhost:8000/dist.3p/current/frame.max.html"%string, top_page).
Proof.
  refine (proj1 (default_url_local_dev "1.0" development example_urls 0 top_page
                   (example_window 0 (Some counting) None)
                   eq_refl eq_refl eq_refl eq_refl eq_refl) _).
  reflexivity.
Defined.

(** C9 as the specification words it fails in a minified build:
    local-development mode and no override URL, yet the path holds the
    version token and not [current/frame.max]. *)
Lemma default_url_minified_counterexample :
  localDev minified_development = true
  /\ overrideBootstrapBaseUrl top_page = None
  /\ port (location (example_window 0 (Some counting) None)) = "8000"%string
  /\ getDefaultBootstrapBaseUrl "1.0" minified_development example_urls 0 None
       top_page
     = (Ret "http://ads.localhost:8000/dist.3p/1.0/frame.html"%string, top_page)
  /\ getDefaultBootstrapBaseUrl "1.0" minified_development example_urls 0 None
       top_page
     <> (Ret "http://ads.localhost:8000/dist.3p/current/frame.max.html"%string,
         top_page).
Proof. repeat split; (reflexivity || discriminate). Qed.

(** C10 (a cached URL is not checked again).  For a window that holds a
    cached URL, [getBootstrapBaseUrl] returns it and changes nothing,
    whatever the strict-mode argument: a URL resolved with strict mode off
    is returned by a later call with strict mode on, also where
    [getCustomBootstrapBaseUrl] in strict mode fails for that window. *)
Theorem cached_url_skips_checks :
  (forall parseUrl irv mode urls win strict σ w u,
     windows σ !! win = Some w ->
     bootstrapBaseUrl w = Some u -> nonempty u = true ->
     getBootstrapBaseUrl parseUrl irv mode urls win strict σ = (Ret u, σ))
  /\ (forall parseUrl irv mode urls win σ u σ1,
        getBootstrapBaseUrl parseUrl irv mode urls win false σ = (Ret u, σ1) ->
        getBootstrapBaseUrl parseUrl irv mode urls win true σ1 = (Ret u, σ1))
  /\ (exists parseUrl irv mode urls win σ u σ1 msg,
        getBootstrapBaseUrl parseUrl irv mode urls win false σ = (Ret u, σ1)
        /\ getCustomBootstrapBaseUrl parseUrl irv win true σ1
           = (Throw (AssertionFailure msg), σ1)
        /\ getBootstrapBaseUrl parseUrl irv mode urls win true σ1 = (Ret u, σ1)).
Proof.
  split; [|split].
  - intros * Hw Hu Hn. eapply getBootstrapBaseUrl_cached; [done|].
    rewrite Hu. by apply if_truthy_Some.
  - intros. by eapply getBootstrapBaseUrl_twice.
  - exists example_parseUrl, "1.0"%string, production, example_urls, 0%nat,
      (custom_page "https://localhost:8000/frame.html").
    do 3 eexists.
    split; [vm_compute; reflexivity|].
    split; vm_compute; reflexivity.
Qed.

Lemma cached_url_skips_checks_witness :
  getBootstrapBaseUrl example_parseUrl "1.0" production example_urls 0 true
    (snd (getBootstrapBaseUrl example_parseUrl "1.0" production example_urls 0
            false (custom_page "https://localhost:8000/frame.html")))
  = (Ret "https://localhost:8000/frame.html?1.0"%string,
     snd (getBootstrapBaseUrl example_parseUrl "1.0" production example_urls 0
            false (custom_page "https://localhost:8000/frame.html"))).
Proof.
  apply (proj1 (proj2 cached_url_skips_checks) example_parseUrl "1.0"%string
           production example_urls 0%nat
           (custom_page "https://localhost:8000/frame.html")).
  vm_compute. reflexivity.
Defined.

(** ** Further computations on the world *)

Lemma getRandom_crypto_run win σ w getRandomValues :
  windows σ !! win = Some w -> crypto w = Some getRandomValues ->
  getRandom win σ
  = (Ret (String_N (getRandomValues (drawn w) mod 2 ^ 32)%N
          +:+ String_N (getRandomValues (S (drawn w)) mod 2 ^ 32)%N),
     with_windows (<[win := with_drawn (drawn w + 2) w]> (windows σ)) σ).
Proof.
  intros Hw Hc. unfold getRandom. rewrite bind_unfold. unfold getWindow.
  rewrite Hw, Hc, bind_unfold. unfold updateWindow. by rewrite Hw.
Qed.

Lemma getRandom_fallback_run win σ w :
  windows σ !! win = Some w -> crypto w = None ->
  getRandom win σ
  = (Ret (substr (String_float (Math_random w (drawn w))) 2 +:+ "0"),
     with_windows (<[win := with_drawn (drawn w + 1) w]> (windows σ)) σ).
Proof.
  intros Hw Hc. unfold getRandom. rewrite bind_unfold. unfold getWindow.
  rewrite Hw, Hc, bind_unfold. unfold updateWindow. by rewrite Hw.
Qed.

Lemma getRandom_missing win σ :
  windows σ !! win = None -> getRandom win σ = (Throw TypeError, σ).
Proof.
  intros Hw. unfold getRandom. rewrite bind_unfold. unfold getWindow. by rewrite Hw.
Qed.

Lemma getRandom_drew win σ : drew_only win σ (snd (getRandom win σ)).
Proof.
  destruct (windows σ !! win) as [w|] eqn:Hw.
  - right. exists w. destruct (crypto w) as [g|] eqn:Hc.
    + rewrite (getRandom_crypto_run win σ w g Hw Hc). by eexists.
    + rewrite (getRandom_fallback_run win σ w Hw Hc). by eexists.
  - left. by rewrite getRandom_missing.
Qed.

Lemma drew_only_lookup win σ σ' win' :
  drew_only win σ σ' -> win' <> win -> windows σ' !! win' = windows σ !! win'.
Proof.
  intros [->|(w & n & Hw & ->)] Hne; [done|]. simpl. by rewrite lookup_insert_ne.
Qed.

Lemma drew_only_window win σ σ' w :
  drew_only win σ σ' -> windows σ !! win = Some w ->
  exists n, windows σ' !! win = Some (with_drawn n w).
Proof.
  intros [->|(w' & n & Hw' & ->)] Hw.
  - exists (drawn w). by destruct w.
  - exists n. simpl. rewrite lookup_insert_eq. congruence.
Qed.


Lemma drew_only_parent win σ σ' i w :
  drew_only win σ σ' -> windows σ !! i = Some w ->
  exists w', windows σ' !! i = Some w' /\ parent w' = parent w
             /\ bootstrapBaseUrl w' = bootstrapBaseUrl w.
Proof.
  intros Hd Hw. destruct (decide (i = win)) as [->|Hne].
  - destruct (drew_only_window _ _ _ _ Hd Hw) as [n Hn]. eauto.
  - exists w. by rewrite (drew_only_lookup _ _ _ _ Hd Hne).
Qed.

Lemma nested_drew win σ σ' i n :
  drew_only win σ σ' -> nested (windows σ) i n -> nested (windows σ') i n.
Proof.
  intros Hd. induction 1 as [i w Hw Hp|i w p n Hw Hp Hne Hn IH].
  - destruct (drew_only_parent _ _ _ _ _ Hd Hw) as (w' & Hw' & Hp' & _).
    apply (nested_top _ i w'); [done|congruence].
  - destruct (drew_only_parent _ _ _ _ _ Hd Hw) as (w' & Hw' & Hp' & _).
    apply (nested_child _ i w' p n); [done|congruence|done..].
Qed.

Lemma windowDepth_from_detached ws win n :
  detached ws win n ->
  forall fuel acc, (n < fuel)%nat ->
    windowDepth_from fuel ws (Some win) acc = Ret (acc + N.of_nat n)%N.
Proof.
  induction 1 as [win w Hw Hp|win w p n Hw Hp Hne Hn IH]; intros fuel acc Hf;
    (destruct fuel as [|fuel]; [lia|]); simpl; rewrite Hw.
  - rewrite decide_False by congruence. rewrite Hp.
    destruct fuel as [|fuel]; [lia|]. simpl. f_equal; lia.
  - rewrite decide_False by congruence. rewrite Hp, IH by lia. f_equal. lia.
Qed.

Lemma detached_lookup ws win n : detached ws win n -> is_Some (ws !! win).
Proof. destruct 1; eauto. Qed.

Lemma generateSentinel_unfold fuel win σ :
  generateSentinel fuel win σ
  = match windowDepth_from fuel (windows σ) (Some win) 0 with
    | Ret windowDepth =>
        match getRandom win σ with
        | (Ret rand, σ') => (Ret (String_N windowDepth +:+ "-" +:+ rand), σ')
        | (Throw e, σ') => (Throw e, σ')
        end
    | Throw e => (Throw e, σ)
    end.
Proof.
  unfold generateSentinel. rewrite bind_unfold.
  destruct (windowDepth_from _ _ _ _); [|done]. by rewrite bind_unfold.
Qed.

Lemma getCustom_missing parseUrl irv win strict σ :
  windows σ !! win = None ->
  getCustomBootstrapBaseUrl parseUrl irv win strict σ = (Throw TypeError, σ).
Proof.
  intros Hw. unfold getCustomBootstrapBaseUrl. rewrite bind_unfold.
  unfold getWindow. by rewrite Hw.
Qed.

Lemma getCustom_pure parseUrl irv win strict σ :
  snd (getCustomBootstrapBaseUrl parseUrl irv win strict σ) = σ.
Proof.
  destruct (windows σ !! win) as [w|] eqn:Hw.
  - destruct (meta_amp_3p_iframe_src w) as [content|] eqn:Hm.
    + by rewrite (getCustom_run parseUrl irv win strict σ w content Hw Hm).
    + by rewrite (getCustom_absent parseUrl irv win strict σ w Hw Hm).
  - by rewrite getCustom_missing.
Qed.

Lemma getAdsLocalhost_pure urls win σ : snd (getAdsLocalhost urls win σ) = σ.
Proof.
  unfold getAdsLocalhost. destruct (urls_localDev urls); [done|].
  rewrite bind_unfold. unfold getWindow.
  destruct (windows σ !! win) as [w|]; [|done].
  destruct (if_truthy _); [done|]. destruct (parent w) as [p|]; [|done].
  rewrite bind_unfold. by destruct (windows σ !! p).
Qed.

Lemma getDefault_override irv mode urls win base σ u :
  localDev mode || test mode = true ->
  if_truthy (overrideBootstrapBaseUrl σ) = Some u ->
  getDefaultBootstrapBaseUrl irv mode urls win base σ = (Ret u, σ).
Proof.
  intros Hm Hu. unfold getDefaultBootstrapBaseUrl. rewrite Hm, bind_unfold.
  unfold getOverrideBootstrapBaseUrl. by rewrite Hu.
Qed.

Lemma getDefault_production irv mode urls win base σ :
  localDev mode || test mode = false ->
  getDefaultBootstrapBaseUrl irv mode urls win base σ
  = match getRandom win σ with
    | (Ret rand, σ') =>
        (Ret ("https://" +:+ ("d-" +:+ rand) +:+ "." +:+ thirdPartyFrameHost urls
              +:+ "/" +:+ irv +:+ "/" +:+ or_else base "frame" +:+ ".html"), σ')
    | (Throw e, σ') => (Throw e, σ')
    end.
Proof.
  intros Hm. unfold getDefaultBootstrapBaseUrl, getSubDomain. rewrite Hm.
  rewrite !bind_unfold. by destruct (getRandom win σ) as [[rand|e] σ'].
Qed.

Lemma getDefault_drew irv mode urls win base σ :
  drew_only win σ (snd (getDefaultBootstrapBaseUrl irv mode urls win base σ)).
Proof.
  destruct (localDev mode || test mode) eqn:Hm.
  - left. unfold getDefaultBootstrapBaseUrl. rewrite Hm, bind_unfold.
    unfold getOverrideBootstrapBaseUrl. destruct (if_truthy _); [done|].
    rewrite bind_unfold. pose proof (getAdsLocalhost_pure urls win σ) as H.
    destruct (getAdsLocalhost urls win σ) as [[host|e] σ']; simpl in H; by subst.
  - rewrite getDefault_production by done.
    pose proof (getRandom_drew win σ) as H.
    by destruct (getRandom win σ) as [[rand|e] σ'].
Qed.

Lemma getDefault_throw irv mode urls win base σ e σ' :
  getDefaultBootstrapBaseUrl irv mode urls win base σ = (Throw e, σ') -> σ' = σ.
Proof.
  destruct (localDev mode || test mode) eqn:Hm.
  - unfold getDefaultBootstrapBaseUrl. rewrite Hm, bind_unfold.
    unfold getOverrideBootstrapBaseUrl. destruct (if_truthy _); [by inversion 1|].
    rewrite bind_unfold. pose proof (getAdsLocalhost_pure urls win σ) as H.
    destruct (getAdsLocalhost urls win σ) as [[host|e'] σ1]; simpl in H; subst;
      by inversion 1.
  - rewrite getDefault_production by done.
    destruct (windows σ !! win) as [w|] eqn:Hw.
    + destruct (crypto w) as [g|] eqn:Hc.
      * by rewrite (getRandom_crypto_run win σ w g Hw Hc).
      * by rewrite (getRandom_fallback_run win σ w Hw Hc).
    + rewrite getRandom_missing by done. by inversion 1.
Qed.

Lemma getBootstrapBaseUrl_uncached parseUrl irv mode urls win strict σ w :
  windows σ !! win = Some w -> if_truthy (bootstrapBaseUrl w) = None ->
  getBootstrapBaseUrl parseUrl irv mode urls win strict σ
  = match getCustomBootstrapBaseUrl parseUrl irv win strict σ with
    | (Throw e, σ0) => (Throw e, σ0)
    | (Ret custom, σ0) =>
        match
          match if_truthy custom with
          | Some u => (Ret u, σ0)
          | None => getDefaultBootstrapBaseUrl irv mode urls win None σ0
          end
        with
        | (Throw e, σ1) => (Throw e, σ1)
        | (Ret url, σ1) =>
            match updateWindow win (with_bootstrapBaseUrl (Some url)) σ1 with
            | (Ret _, σ2) => (Ret url, σ2)
            | (Throw e, σ2) => (Throw e, σ2)
            end
        end
    end.
Proof.
  intros Hw Hc. unfold getBootstrapBaseUrl. rewrite bind_unfold.
  unfold getWindow. rewrite Hw, Hc, bind_unfold.
  destruct (getCustomBootstrapBaseUrl _ _ _ _ _) as [[custom|e] σ0]; [|done].
  rewrite bind_unfold.
  destruct (if_truthy custom) as [u|].
  - unfold mret, M_ret, ret. rewrite bind_unfold.
    by destruct (updateWindow _ _ _) as [[[]|e] σ2].
  - destruct (getDefaultBootstrapBaseUrl _ _ _ _ _ _) as [[url|e] σ1]; [|done].
    rewrite bind_unfold. by destruct (updateWindow _ _ _) as [[[]|e] σ2].
Qed.

Lemma getBootstrapBaseUrl_missing parseUrl irv mode urls win strict σ :
  windows σ !! win = None ->
  getBootstrapBaseUrl parseUrl irv mode urls win strict σ = (Throw TypeError, σ).
Proof.
  intros Hw. unfold getBootstrapBaseUrl. rewrite bind_unfold.
  unfold getWindow. by rewrite Hw.
Qed.

Lemma updateWindow_run win f σ w :
  windows σ !! win = Some w ->
  updateWindow win f σ = (Ret tt, with_windows (<[win := f w]> (windows σ)) σ).
Proof. intros Hw. unfold updateWindow. by rewrite Hw. Qed.

Lemma getBootstrapBaseUrl_throw parseUrl irv mode urls win strict σ e σ' :
  getBootstrapBaseUrl parseUrl irv mode urls win strict σ = (Throw e, σ') ->
  σ' = σ.
Proof.
  destruct (windows σ !! win) as [w|] eqn:Hw.
  2:{ rewrite getBootstrapBaseUrl_missing by done. by inversion 1. }
  destruct (if_truthy (bootstrapBaseUrl w)) as [u|] eqn:Hc.
  { by rewrite (getBootstrapBaseUrl_cached _ _ _ _ _ _ _ w u Hw Hc). }
  rewrite (getBootstrapBaseUrl_uncached _ _ _ _ _ _ _ w Hw Hc).
  pose proof (getCustom_pure parseUrl irv win strict σ) as Hp.
  destruct (getCustomBootstrapBaseUrl _ _ _ _ _) as [[custom|e0] σ0];
    simpl in Hp; subst σ0; [|by inversion 1].
  destruct (if_truthy custom) as [u|].
  - rewrite (updateWindow_run _ _ _ w Hw). by inversion 1.
  - pose proof (getDefault_drew irv mode urls win None σ) as Hd.
    pose proof (getDefault_throw irv mode urls win None σ) as Ht.
    destruct (getDefaultBootstrapBaseUrl _ _ _ _ _ _) as [[url|e1] σ1]; simpl in Hd.
    + destruct (drew_only_window _ _ _ _ Hd Hw) as [n Hn].
      rewrite (updateWindow_run _ _ _ _ Hn). by inversion 1.
    + intros H. inversion H; subst. by eapply Ht.
Qed.

(** ** Further facts on the codec *)

Lemma drop_chars_append a x : drop_chars (string_length a) (a +:+ x) = x.
Proof. induction a as [|c a IH]; [by destruct x|]. by rewrite append_cons. Qed.

Lemma strip_brace c a :
  strip "{" (String c a) = if code_eqb "{" c then Some a else None.
Proof. reflexivity. Qed.

Lemma indexOf_brace_none_cons c a :
  indexOf (String c a) "{" = -1 -> c <> "{"%char /\ indexOf a "{" = -1.
Proof.
  rewrite indexOf_unfold, strip_brace.
  destruct (code_eqb_spec "{" c) as [<-|Hne]; [done|].
  pose proof (indexOf_range a "{").
  destruct (indexOf a "{") eqn:E; intros H0; try (exfalso; lia).
  split; [congruence|lia].
Qed.

Lemma indexOf_brace_skip a b :
  indexOf a "{" = -1 ->
  indexOf (a +:+ String "{" b) "{" = Z.of_nat (string_length a).
Proof.
  induction a as [|c a IH]; intros H.
  - change (EmptyString +:+ String "{" b) with (String "{" b).
    by rewrite indexOf_unfold, strip_brace, code_eqb_refl.
  - apply indexOf_brace_none_cons in H as [Hc Ha].
    rewrite append_cons, indexOf_unfold, strip_brace.
    destruct (code_eqb_spec "{" c) as [<-|_]; [done|].
    rewrite (IH Ha). simpl string_length.
    destruct (string_length a); simpl; lia.
Qed.

Lemma indexOf_brace_append a b :
  indexOf a "{" = -1 -> indexOf b "{" = -1 -> indexOf (a +:+ b) "{" = -1.
Proof.
  induction a as [|c a IH]; intros Ha Hb; [done|].
  apply indexOf_brace_none_cons in Ha as [Hc Ha].
  rewrite append_cons, indexOf_unfold, strip_brace.
  destruct (code_eqb_spec "{" c) as [<-|_]; [done|]. by rewrite (IH Ha Hb).
Qed.

Lemma substr_length a x : substr (a +:+ x) (Z.of_nat (string_length a)) = x.
Proof.
  unfold substr. destruct (Z.ltb_spec (Z.of_nat (string_length a)) 0); [lia|].
  rewrite Nat2Z.id. apply drop_chars_append.
Qed.

Lemma deserialize_versioned v o σ :
  indexOf v "{" = -1 -> json_safe (JObj o) = true ->
  deserializeMessage (JStr (AMP_MESSAGE_PREFIX +:+ v +:+ JSON_stringify o)) σ
  = (Ret (JObj o), σ).
Proof.
  intros Hv Hsafe. unfold deserializeMessage.
  assert (isAmpMessage (JStr (AMP_MESSAGE_PREFIX +:+ v +:+ JSON_stringify o)) = true) as ->
    by (apply isAmpMessage_spec; by eexists).
  simpl negb. cbv iota.
  assert (indexOf (AMP_MESSAGE_PREFIX +:+ v) "{" = -1) as Hpv
    by by apply indexOf_brace_append.
  set (body := join_comma (stringify_members o) +:+ "}").
  assert (AMP_MESSAGE_PREFIX +:+ v +:+ JSON_stringify o
          = (AMP_MESSAGE_PREFIX +:+ v) +:+ String "{" body) as ->.
  { unfold JSON_stringify. by rewrite stringify_JObj, append_assoc. }
  rewrite indexOf_brace_skip by done. cbv zeta.
  rewrite substr_length. subst body. rewrite <- stringify_JObj.
  fold (JSON_stringify o). rewrite JSON_parse_stringify by done.
  destruct (Z.eqb_spec (Z.of_nat (string_length (AMP_MESSAGE_PREFIX +:+ v))) (-1));
    [lia|done].
Qed.

Lemma substr_indexOf s t i :
  indexOf s t = i -> i <> -1 -> exists r, substr s i = t +:+ r.
Proof.
  revert i. induction s as [|c s IH]; intros i; rewrite indexOf_unfold.
  - destruct (strip t EmptyString) as [r|] eqn:E; [|congruence].
    intros <- _. exists r. by apply strip_inv.
  - destruct (strip t (String c s)) as [r|] eqn:E.
    + intros <- _. exists r. by apply strip_inv.
    + pose proof (indexOf_range s t).
      destruct (indexOf s t) as [|p|p] eqn:Ei; intros <- Hne; try done.
      * destruct (IH 0 eq_refl) as [r Hr]; [done|]. exists r.
        by rewrite <- Hr.
      * destruct (IH (Z.pos p) eq_refl) as [r Hr]; [done|]. exists r.
        rewrite <- Hr. unfold substr.
        destruct (Z.ltb_spec (Z.pos p + 1) 0); [lia|].
        destruct (Z.ltb_spec (Z.pos p) 0); [lia|].
        replace (Z.to_nat (Z.pos p + 1)) with (S (Z.to_nat (Z.pos p))) by lia.
        reflexivity.
Qed.

Lemma parse_value_object fuel r v rest :
  parse_value fuel (String "{" r) = Some (v, rest) -> exists o, v = JObj o.
Proof.
  destruct fuel as [|fuel]; [done|]. cbn [parse_value skip_ws].
  change (is_ws "{") with false. cbv iota.
  change (code_eqb "{" "{") with true. cbv iota.
  destruct (expect "}" r); [intros H; inversion H; by eauto|].
  destruct (parse_members fuel r) as [[m r']|]; [|done].
  intros H. inversion H. by eauto.
Qed.

Lemma JSON_parse_object r v :
  JSON_parse (String "{" r) = Some v -> exists o, v = JObj o.
Proof.
  unfold JSON_parse.
  destruct (parse_value _ _) as [[v' rest]|] eqn:E; [|done].
  apply parse_value_object in E as [o ->].
  destruct (skip_ws rest); [|done]. intros H. inversion H. by eauto.
Qed.

Lemma stringify_members_defined o :
  stringify_members
    (List.filter (fun kv => negb (is_undefined (snd kv))) o)
  = stringify_members o.
Proof.
  induction o as [|[k v] o IH]; [done|]. simpl.
  destruct (is_undefined v) eqn:E; simpl; [done|]. by rewrite E, IH.
Qed.

Lemma JSON_stringify_defined o :
  JSON_stringify (List.filter (fun kv => negb (is_undefined (snd kv))) o)
  = JSON_stringify o.
Proof. unfold JSON_stringify. by rewrite !stringify_JObj, stringify_members_defined. Qed.

Lemma obj_get_defined k (o : object) :
  keys_distinct (List.map fst o) = true ->
  obj_get k (List.filter (fun kv => negb (is_undefined (snd kv))) o)
  = match obj_get k o with
    | Some JUndefined => None
    | x => x
    end.
Proof.
  induction o as [|[k0 v0] o IH]; [done|]. simpl. intros H.
  apply andb_prop in H as [Hk Hd]. apply negb_true_iff in Hk.
  destruct (string_eqb_spec k k0) as [->|Hne].
  - destruct (is_undefined v0) eqn:E; simpl.
    + destruct v0; try done. rewrite (IH Hd).
      assert (obj_get k0 o = None) as ->; [|done].
      destruct (obj_get k0 o) eqn:Eg; [|done].
      assert (is_Some (obj_get k0 o)) as Hs by eauto.
      apply obj_get_in_keys in Hs. congruence.
    + rewrite string_eqb_refl. by destruct v0.
  - apply string_eqb_neq in Hne.
    destruct (is_undefined v0); simpl; rewrite ?Hne; by apply IH.
Qed.

(** ** Attribute scraping and preloading *)

Lemma with_objects_id σ d l :
  objects σ !! l = Some d -> with_objects (<[l := d]> (objects σ)) σ = σ.
Proof. intros H. destruct σ. unfold with_objects. simpl in *. by rewrite insert_id. Qed.

Lemma preloadBootstrap_unfold parseUrl irv mode urls win pre σ :
  preloadBootstrap parseUrl irv mode urls win pre σ
  = match getBootstrapBaseUrl parseUrl irv mode urls win false σ with
    | (Throw e, σ1) => (Throw e, (σ1, pre))
    | (Ret url, σ1) =>
        if localDev mode then
          match getAdsLocalhost urls win σ1 with
          | (Ret host, _) =>
              (Ret tt, (σ1, (pre ++ [(url, "document"%string)])
                            ++ [(host +:+ "/dist.3p/current/integration.js",
                                 "script"%string)]))
          | (Throw e, _) => (Throw e, (σ1, pre ++ [(url, "document"%string)]))
          end
        else
          (Ret tt, (σ1, (pre ++ [(url, "document"%string)])
                        ++ [(thirdParty urls +:+ "/" +:+ irv +:+ "/f.js",
                             "script"%string)]))
    end.
Proof.
  unfold preloadBootstrap.
  destruct (getBootstrapBaseUrl _ _ _ _ _ _ _) as [[url|e] σ1]; [|done].
  destruct (localDev mode); [|done]. rewrite bind_unfold.
  pose proof (getAdsLocalhost_pure urls win σ1) as H.
  destruct (getAdsLocalhost urls win σ1) as [[host|e] σ2]; simpl in H; by subst.
Qed.

Lemma resolver_touches_window_meta parseUrl irv mode urls win strict σ σ' u :
  getBootstrapBaseUrl parseUrl irv mode urls win strict σ = (Ret u, σ') ->
  exists w w',
    windows σ !! win = Some w /\ windows σ' !! win = Some w'
    /\ meta_amp_3p_iframe_src w' = meta_amp_3p_iframe_src w.
Proof.
  intros H. destruct (windows σ !! win) as [w|] eqn:Hw.
  2:{ by rewrite getBootstrapBaseUrl_missing in H. }
  destruct (if_truthy (bootstrapBaseUrl w)) as [c|] eqn:Hc.
  { rewrite (getBootstrapBaseUrl_cached _ _ _ _ _ _ _ w c Hw Hc) in H.
    inversion H; subst. by exists w, w. }
  rewrite (getBootstrapBaseUrl_uncached _ _ _ _ _ _ _ w Hw Hc) in H.
  pose proof (getCustom_pure parseUrl irv win strict σ) as Hp.
  destruct (getCustomBootstrapBaseUrl _ _ _ _ _) as [[custom|e0] σ0];
    simpl in Hp; subst σ0; [|done].
  destruct (if_truthy custom) as [c|].
  - rewrite (updateWindow_run _ _ _ w Hw) in H. inversion H; subst.
    exists w. eexists. split; [done|]. split; [apply lookup_insert_eq|done].
  - pose proof (getDefault_drew irv mode urls win None σ) as Hd.
    destruct (getDefaultBootstrapBaseUrl _ _ _ _ _ _) as [[url|e1] σ1];
      simpl in Hd; [|done].
    destruct (drew_only_window _ _ _ _ Hd Hw) as [n Hn].
    rewrite (updateWindow_run _ _ _ _ Hn) in H. inversion H; subst.
    exists w. eexists. split; [done|]. split; [apply lookup_insert_eq|done].
Qed.


(** ** Assignments to the destination *)

Lemma put_object_lookup l s σ :
  objects (put_object l s σ) !! l = Some (fst s)
  /\ prototypes (put_object l s σ) !! l = snd s.
Proof.
  unfold put_object. simpl. split; [apply lookup_insert_eq|].
  apply lookup_partial_alter_eq.
Qed.

Lemma put_object_twice l s s' σ :
  put_object l s' (put_object l s σ) = put_object l s' σ.
Proof.
  unfold put_object, with_prototypes, with_objects. simpl.
  rewrite insert_insert_eq. f_equal.
  by rewrite partial_alter_partial_alter_eq.
Qed.

Lemma put_object_id l d σ :
  objects σ !! l = Some d -> put_object l (d, prototypes σ !! l) σ = σ.
Proof.
  intros H. destruct σ. unfold put_object, with_prototypes, with_objects.
  simpl in *. rewrite insert_id by done. f_equal. apply partial_alter_self.
Qed.

Lemma put_object_own l d σ :
  put_object l (d, prototypes σ !! l) σ = with_objects (<[l := d]> (objects σ)) σ.
Proof.
  destruct σ. unfold put_object, with_prototypes, with_objects.
  simpl. f_equal. apply partial_alter_self.
Qed.

(** [setProperty] is the assignment [assign] on the object at [l]. *)
Lemma setProperty_assign l k v σ d :
  objects σ !! l = Some d ->
  setProperty l k v σ
  = (Ret tt, put_object l (assign (d, prototypes σ !! l) (k, v)) σ).
Proof.
  intros H. unfold setProperty, assign. rewrite H. cbn [fst snd].
  destruct (string_eqb k "__proto__" && reaches_proto_accessor d (prototypes σ !! l)).
  - destruct (object_like v); [|by rewrite put_object_id].
    unfold put_object; cbn [fst snd]; destruct σ;
      unfold with_prototypes, with_objects; simpl in *;
      rewrite (insert_id _ _ _ H); reflexivity.
  - by rewrite put_object_own.
Qed.

Lemma copyProperties_run entries l σ d :
  objects σ !! l = Some d ->
  copyProperties entries l σ
  = (Ret tt, put_object l (assign_all entries (d, prototypes σ !! l)) σ).
Proof.
  revert σ d. induction entries as [|[k v] entries IH]; intros σ d H.
  - simpl. by rewrite put_object_id.
  - cbn [copyProperties]. rewrite bind_unfold, (setProperty_assign l k v σ d H).
    set (s := assign (d, prototypes σ !! l) (k, v)).
    destruct (put_object_lookup l s σ) as [Ho Hp].
    rewrite (IH _ (fst s) Ho), Hp, put_object_twice.
    by rewrite <- surjective_pairing.
Qed.

Lemma copyDataAttributes_run dashToCamelCase attrs l σ d :
  objects σ !! l = Some d ->
  copyDataAttributes dashToCamelCase attrs l σ
  = (Ret tt,
     put_object l
       (assign_all (data_entries dashToCamelCase attrs) (d, prototypes σ !! l)) σ).
Proof.
  revert σ d. induction attrs as [|[name value] attrs IH]; intros σ d H.
  - simpl. by rewrite put_object_id.
  - cbn [copyDataAttributes]. rewrite bind_unfold. unfold data_entries.
    cbn [List.filter fst snd].
    destruct (indexOf name "data-" =? 0); cbn [negb List.map fst snd].
    + rewrite (setProperty_assign l _ _ σ d H).
      set (s := assign (d, prototypes σ !! l) _).
      destruct (put_object_lookup l s σ) as [Ho Hp].
      rewrite (IH _ (fst s) Ho), Hp, put_object_twice.
      by rewrite <- surjective_pairing.
    + apply (IH σ d H).
Qed.

Lemma assign_all_app a b s : assign_all (a ++ b) s = assign_all b (assign_all a s).
Proof. apply fold_left_app. Qed.

Lemma addDataAndJsonAttributes_run dashToCamelCase tryParseJson element l σ d :
  objects σ !! l = Some d ->
  let copied :=
    assign_all (data_entries dashToCamelCase (element_attributes element))
      (d, prototypes σ !! l) in
  addDataAndJsonAttributes_ dashToCamelCase tryParseJson element l σ
  = match if_truthy (getAttribute (element_attributes element) "json") with
    | Some json =>
        if is_undefined (tryParseJson json) then
          (Throw (AssertionFailure "Error parsing JSON in json attribute in element"),
           put_object l copied σ)
        else
          (Ret tt, put_object l (assign_all (for_in (tryParseJson json)) copied) σ)
    | None => (Ret tt, put_object l copied σ)
    end.
Proof.
  intros H copied. unfold addDataAndJsonAttributes_.
  rewrite bind_unfold, (copyDataAttributes_run _ _ l σ d H). fold copied.
  destruct (if_truthy _) as [json|]; [|done].
  destruct (is_undefined (tryParseJson json)); [done|].
  destruct (put_object_lookup l copied σ) as [Ho Hp].
  rewrite (copyProperties_run _ l _ (fst copied) Ho), Hp, put_object_twice.
  by rewrite <- surjective_pairing.
Qed.

Lemma addDataAndJsonAttributes_store dashToCamelCase tryParseJson element l σ d :
  objects σ !! l = Some d ->
  snd (addDataAndJsonAttributes_ dashToCamelCase tryParseJson element l σ)
  = put_object l
      (assign_all
         (data_entries dashToCamelCase (element_attributes element)
          ++ json_entries tryParseJson (element_attributes element))
         (d, prototypes σ !! l)) σ.
Proof.
  intros H. rewrite (addDataAndJsonAttributes_run _ _ _ l σ d H).
  rewrite assign_all_app. unfold json_entries.
  destruct (if_truthy _) as [json|]; [|done].
  destruct (tryParseJson json); done.
Qed.

Lemma copyDataAttributes_filter dashToCamelCase attrs l σ :
  copyDataAttributes dashToCamelCase attrs l σ
  = copyDataAttributes dashToCamelCase
      (List.filter (fun a => indexOf (fst a) "data-" =? 0) attrs) l σ.
Proof.
  revert σ. induction attrs as [|[name value] attrs IH]; intros σ; [done|].
  cbn [copyDataAttributes List.filter fst].
  destruct (indexOf name "data-" =? 0) eqn:E;
    cbn [copyDataAttributes]; rewrite ?E; cbn [negb].
  - rewrite !bind_unfold.
    destruct (setProperty l _ _ σ) as [[[]|e] σ1]; [apply IH|done].
  - rewrite bind_unfold. apply IH.
Qed.

(** *** What the assignments leave *)

Lemma assign_own_other s k v k' :
  k' <> k -> obj_get k' (fst (assign s (k, v))) = obj_get k' (fst s).
Proof.
  intros Hne. unfold assign. cbn [fst snd].
  destruct (_ && _); [by destruct (object_like v)|]. cbn [fst]. by apply obj_get_set_ne.
Qed.

Lemma assign_own_set s k v :
  k <> "__proto__" -> obj_get k (fst (assign s (k, v))) = Some v.
Proof.
  intros Hne. apply string_eqb_neq in Hne. unfold assign. cbn [fst snd].
  rewrite Hne. cbn [andb fst]. apply obj_get_set_eq.
Qed.

Lemma assign_proto_other s k v :
  k <> "__proto__" -> snd (assign s (k, v)) = snd s.
Proof.
  intros Hne. apply string_eqb_neq in Hne. unfold assign. cbn [fst snd].
  by rewrite Hne.
Qed.

Lemma obj_get_assign_other k entries s :
  existsb (string_eqb k) (List.map fst entries) = false ->
  obj_get k (fst (assign_all entries s)) = obj_get k (fst s).
Proof.
  revert s. induction entries as [|[k0 v0] entries IH]; intros s H; [done|].
  simpl in H. apply orb_false_elim in H as [Hk H].
  change (assign_all ((k0, v0) :: entries) s)
    with (assign_all entries (assign s (k0, v0))).
  rewrite (IH _ H). apply assign_own_other. by apply string_eqb_neq.
Qed.

Lemma proto_assign_other entries s :
  existsb (string_eqb "__proto__") (List.map fst entries) = false ->
  snd (assign_all entries s) = snd s.
Proof.
  revert s. induction entries as [|[k0 v0] entries IH]; intros s H; [done|].
  cbn [List.map existsb fst] in H. apply orb_false_elim in H as [Hk H].
  change (assign_all ((k0, v0) :: entries) s)
    with (assign_all entries (assign s (k0, v0))).
  rewrite (IH _ H). apply assign_proto_other.
  apply string_eqb_neq in Hk. congruence.
Qed.

Lemma obj_get_assign_last k v before after s :
  k <> "__proto__" ->
  existsb (string_eqb k) (List.map fst after) = false ->
  obj_get k (fst (assign_all (before ++ (k, v) :: after) s)) = Some v.
Proof.
  intros Hk H. rewrite assign_all_app.
  change (assign_all ((k, v) :: after) ?x) with (assign_all after (assign x (k, v))).
  rewrite obj_get_assign_other by done. by apply assign_own_set.
Qed.

Lemma obj_get_assign_distinct k v (o : object) s :
  k <> "__proto__" ->
  keys_distinct (List.map fst o) = true -> obj_get k o = Some v ->
  obj_get k (fst (assign_all o s)) = Some v.
Proof.
  intros Hk. revert s. induction o as [|[k0 v0] o IH]; intros s Hd Hg; [done|].
  simpl in Hd, Hg. apply andb_prop in Hd as [Hk0 Hd].
  apply negb_true_iff in Hk0.
  change (assign_all ((k0, v0) :: o) s) with (assign_all o (assign s (k0, v0))).
  destruct (string_eqb_spec k k0) as [->|Hne].
  - inversion Hg; subst. rewrite obj_get_assign_other by done.
    by apply assign_own_set.
  - by apply IH.
Qed.

(** An object that inherits the accessor [__proto__] keeps inheriting it,
    and keeps its prototype, as long as no object, array or [null] is
    assigned to [__proto__]. *)
Lemma assign_keeps_accessor s kv :
  reaches_proto_accessor (fst s) (snd s) = true ->
  string_eqb (fst kv) "__proto__" && object_like (snd kv) = false ->
  reaches_proto_accessor (fst (assign s kv)) (snd (assign s kv)) = true
  /\ snd (assign s kv) = snd s.
Proof.
  intros Hs Hkv. unfold assign. rewrite Hs, andb_true_r.
  destruct (string_eqb_spec (fst kv) "__proto__") as [E|Hne].
  - simpl in Hkv. by rewrite Hkv.
  - cbn [fst snd]. split; [|done]. unfold reaches_proto_accessor in *.
    rewrite obj_get_set_ne by congruence. done.
Qed.

Lemma assign_all_keeps_accessor entries s :
  reaches_proto_accessor (fst s) (snd s) = true ->
  forallb (fun kv => negb (string_eqb (fst kv) "__proto__" && object_like (snd kv)))
    entries = true ->
  reaches_proto_accessor (fst (assign_all entries s)) (snd (assign_all entries s)) = true
  /\ snd (assign_all entries s) = snd s.
Proof.
  revert s. induction entries as [|kv entries IH]; intros s Hs H; [done|].
  simpl in H. apply andb_prop in H as [Hkv H]. apply negb_true_iff in Hkv.
  change (assign_all (kv :: entries) s) with (assign_all entries (assign s kv)).
  destruct (assign_keeps_accessor s kv Hs Hkv) as [Hr Hp].
  destruct (IH _ Hr H) as [Hr' Hp']. split; [done|congruence].
Qed.

Lemma data_entries_strings dashToCamelCase attrs :
  forallb (fun kv => negb (string_eqb (fst kv) "__proto__" && object_like (snd kv)))
    (data_entries dashToCamelCase attrs) = true.
Proof.
  unfold data_entries. induction attrs as [|[name value] attrs IH]; [done|].
  cbn [List.filter fst]. destruct (_ =? 0); [|done].
  cbn [List.map forallb fst snd object_like]. by rewrite andb_false_r.
Qed.

(** The data attributes, whose values are strings, leave the prototype. *)
Lemma data_entries_proto dashToCamelCase attrs s :
  snd (assign_all (data_entries dashToCamelCase attrs) s) = snd s.
Proof.
  unfold data_entries. revert s.
  induction attrs as [|[name value] attrs IH]; intros s; [done|].
  cbn [List.filter fst]. destruct (_ =? 0); [|apply IH].
  cbn [List.map fst snd].
  change (assign_all (?kv :: ?r) s) with (assign_all r (assign s kv)).
  rewrite IH. unfold assign. cbn [fst snd object_like]. by destruct (_ && _).
Qed.

Lemma obj_get_split k (o : object) v :
  keys_distinct (List.map fst o) = true -> obj_get k o = Some v ->
  exists a b, o = a ++ (k, v) :: b
    /\ existsb (string_eqb k) (List.map fst a) = false
    /\ existsb (string_eqb k) (List.map fst b) = false.
Proof.
  induction o as [|[k0 v0] o IH]; [done|]. simpl.
  rewrite andb_true_iff, negb_true_iff. intros [Hk Hd].
  destruct (string_eqb_spec k k0) as [->|Hne].
  - intros H. inversion H; subst. by exists [], o.
  - intros H. destruct (IH Hd H) as (a & b & -> & Ha & Hb).
    exists ((k0, v0) :: a), b. repeat split; [|done]. simpl. rewrite Ha.
    apply string_eqb_neq in Hne. by rewrite Hne.
Qed.

Lemma no_key_no_proto_object k (entries : list (string * json)) :
  existsb (string_eqb k) (List.map fst entries) = false ->
  forallb (fun kv => negb (string_eqb (fst kv) k && object_like (snd kv))) entries
  = true.
Proof.
  induction entries as [|[k0 v0] entries IH]; [done|]. simpl.
  rewrite orb_false_iff. intros [Hk H]. rewrite (IH H), andb_true_r.
  rewrite string_eqb_sym in Hk. by rewrite Hk.
Qed.

Lemma reaches_no_own_proto d p :
  reaches_proto_accessor d p = true -> obj_get "__proto__" d = None.
Proof. unfold reaches_proto_accessor. by destruct (obj_get "__proto__" d). Qed.

Lemma assign_proto_reached s v :
  reaches_proto_accessor (fst s) (snd s) = true ->
  assign s ("__proto__"%string, v)
  = if object_like v then (fst s, Some v) else s.
Proof.
  intros H. unfold assign. cbn [fst snd]. rewrite H.
  change (string_eqb "__proto__" "__proto__" && true) with true. by destruct (object_like v).
Qed.

(** An object that does not inherit the accessor takes [__proto__] as an
    own property like any other key, and goes on doing so. *)
Lemma assign_no_accessor s kv :
  reaches_proto_accessor (fst s) (snd s) = false ->
  assign s kv = (obj_set (fst kv) (snd kv) (fst s), snd s)
  /\ reaches_proto_accessor (fst (assign s kv)) (snd (assign s kv)) = false.
Proof.
  intros H. unfold assign. rewrite H, andb_false_r. split; [done|].
  cbn [fst snd]. unfold reaches_proto_accessor in *.
  destruct (string_eqb_spec "__proto__" (fst kv)) as [<-|Hne].
  - by rewrite obj_get_set_eq.
  - by rewrite obj_get_set_ne.
Qed.

Lemma assign_all_no_accessor entries s :
  reaches_proto_accessor (fst s) (snd s) = false ->
  reaches_proto_accessor (fst (assign_all entries s)) (snd (assign_all entries s))
  = false.
Proof.
  revert s. induction entries as [|kv entries IH]; intros s H; [done|].
  change (assign_all (kv :: entries) s) with (assign_all entries (assign s kv)).
  apply IH. by apply assign_no_accessor.
Qed.
(** ** Further properties of the code *)

(** X1.  [getRandom] returns for every window that exists, and, with
    [Math.random()] giving numbers of the unit interval, what it returns is
    a string of decimal digits exactly when the window has a strong random
    source or [Math.random()] gave zero or a number from [1e-6] on. *)
Theorem getRandom_digits_iff (win : nat) (σ : World) (w : Window) :
  windows σ !! win = Some w ->
  (crypto w = None -> unit_interval (Math_random w (drawn w))) ->
  exists rand σ',
    getRandom win σ = (Ret rand, σ')
    /\ (all_digits rand = true
        <-> is_Some (crypto w) \/ plain_decimal (Math_random w (drawn w))).
Proof.
  intros Hw Hu. destruct (crypto w) as [g|] eqn:Hc.
  - destruct (getRandom_crypto win σ w g Hw Hc) as (rand & σ' & Hr & Hd).
    exists rand, σ'. split; [done|]. split; [by eauto|done].
  - specialize (Hu eq_refl).
    destruct (Math_random w (drawn w)) as [|s n] eqn:Hx.
    + destruct (getRandom_fallback_plain win σ w Hw Hc) as (rand & σ' & Hr & Hd);
        [by rewrite Hx|].
      exists rand, σ'. split; [done|]. split; [by right|done].
    + destruct (Z.le_gt_cases n (-6)) as [Hn|Hn].
      * destruct (getRandom_fallback_exponent win σ w s n Hw Hc Hx Hn)
          as (rand & σ' & Hr & Hd).
        exists rand, σ'. split; [done|]. rewrite Hd. split; [done|].
        intros [[? ?]|Hp]; [done|]. simpl in Hp. lia.
      * destruct (getRandom_fallback_plain win σ w Hw Hc) as (rand & σ' & Hr & Hd).
        { rewrite Hx. destruct Hu. lia. }
        exists rand, σ'. split; [done|]. split; [intros _; right; simpl; lia|done].
Qed.

Lemma getRandom_digits_iff_witness :
  exists rand σ',
    getRandom 0 weak_page = (Ret rand, σ')
    /\ (all_digits rand = true
        <-> is_Some (@None (nat -> N)) \/ plain_decimal (FDec 1 (-6))).
Proof.
  apply (getRandom_digits_iff 0 weak_page (example_window 0 None None)).
  - reflexivity.
  - intros _. simpl. split; [lia|by vm_compute].
Defined.

(** X2.  When the chain of parents of a window leaves the hierarchy through
    a window whose parent is [null], the loop of [generateSentinel] counts
    that window as well: the depth is the number of steps to the [null]
    parent, 1 for a lone window without parent. *)
Theorem generateSentinel_detached (σ : World) (win n fuel : nat) :
  detached (windows σ) win n ->
  (n < fuel)%nat ->
  exists rand σ',
    getRandom win σ = (Ret rand, σ')
    /\ generateSentinel fuel win σ
       = (Ret (String_N (N.of_nat n) +:+ "-" +:+ rand), σ').
Proof.
  intros Hn Hf. destruct (detached_lookup _ _ _ Hn) as [w Hw].
  destruct (getRandom_returns win σ w Hw) as (rand & σ' & Hr).
  exists rand, σ'. split; [done|].
  rewrite generateSentinel_unfold.
  by rewrite (windowDepth_from_detached _ _ _ Hn), Hr by done.
Qed.

Lemma generateSentinel_detached_witness :
  exists rand σ',
    getRandom 1 orphan_page = (Ret rand, σ')
    /\ generateSentinel 3 1 orphan_page = (Ret ("2" +:+ "-" +:+ rand), σ').
Proof.
  apply (generateSentinel_detached orphan_page 1 2 3); [|lia].
  eapply detached_child; [reflexivity|reflexivity|done|].
  by eapply detached_orphan.
Defined.

(** X3.  [generateSentinel] leaves the hierarchy and every cached bootstrap
    URL as they are, so all the sentinels made for a window start with the
    same depth: after one call has returned, the next returns the same
    depth and a hyphen before its random part. *)
Theorem generateSentinel_depth_stable
    (σ σ1 : World) (win n fuel : nat) (s1 : string) :
  nested (windows σ) win n ->
  (n < fuel)%nat ->
  generateSentinel fuel win σ = (Ret s1, σ1) ->
  (forall i w, windows σ !! i = Some w ->
     exists w', windows σ1 !! i = Some w' /\ parent w' = parent w
                /\ bootstrapBaseUrl w' = bootstrapBaseUrl w)
  /\ exists rand1 rand2 σ2,
       s1 = String_N (N.of_nat n) +:+ "-" +:+ rand1
       /\ generateSentinel fuel win σ1
          = (Ret (String_N (N.of_nat n) +:+ "-" +:+ rand2), σ2).
Proof.
  intros Hn Hf H1.
  destruct (generateSentinel_run σ win n fuel Hn Hf) as (rand1 & σ' & Hr & Hg).
  rewrite Hg in H1. inversion H1; subst.
  pose proof (getRandom_drew win σ) as Hd. rewrite Hr in Hd. simpl in Hd.
  split; [intros i w Hw; by eapply drew_only_parent|].
  destruct (generateSentinel_run σ1 win n fuel (nested_drew _ _ _ _ _ Hd Hn) Hf)
    as (rand2 & σ2 & _ & Hg2).
  by exists rand1, rand2, σ2.
Qed.

Lemma generateSentinel_depth_stable_witness :
  exists rand1 rand2 σ2,
    "3-12"%string = String_N (N.of_nat 3) +:+ "-" +:+ rand1
    /\ generateSentinel 4 3 (snd (generateSentinel 4 3 nested_page))
       = (Ret (String_N (N.of_nat 3) +:+ "-" +:+ rand2), σ2).
Proof.
  refine (proj2 (generateSentinel_depth_stable nested_page
                   (snd (generateSentinel 4 3 nested_page)) 3 3 4 "3-12" _ _ _)).
  - eapply nested_child; [reflexivity|reflexivity|done|].
    eapply nested_child; [reflexivity|reflexivity|done|].
    eapply nested_child; [reflexivity|reflexivity|done|].
    by eapply nested_top.
  - lia.
  - vm_compute. reflexivity.
Defined.

(** X4.  In production mode (neither [localDev] nor [test]) the default
    bootstrap URL of a window is [https://d-<random>.<frame host>/<version
    token>/<base name>.html], with the string [getRandom] returns for that
    window as [<random>], which is all digits when the window has a strong
    random source, and [frame] for a base name that is absent or empty,
    whatever override URL is set. *)
Theorem default_url_production
    (irv : string) (mode : Mode) (urls : Urls) (win : nat)
    (base : option string) (σ : World) (w : Window) :
  localDev mode = false ->
  test mode = false ->
  windows σ !! win = Some w ->
  exists rand σ',
    getRandom win σ = (Ret rand, σ')
    /\ getDefaultBootstrapBaseUrl irv mode urls win base σ
       = (Ret ("https://d-" +:+ rand +:+ "." +:+ thirdPartyFrameHost urls +:+ "/"
               +:+ irv +:+ "/" +:+ or_else base "frame" +:+ ".html"), σ')
    /\ (is_Some (crypto w) -> all_digits rand = true).
Proof.
  intros Hl Ht Hw. destruct (getRandom_returns win σ w Hw) as (rand & σ' & Hr).
  exists rand, σ'. split; [done|]. split.
  - rewrite getDefault_production by by rewrite Hl, Ht. by rewrite Hr.
  - intros [g Hg].
    destruct (getRandom_crypto win σ w g Hw Hg) as (rand' & σ'' & Hr' & Hd).
    congruence.
Qed.

Lemma default_url_production_witness :
  exists rand σ',
    getRandom 0 (with_override (Some "https://override.example/f.html"%string) top_page)
    = (Ret rand, σ')
    /\ getDefaultBootstrapBaseUrl "1.0" production example_urls 0
         (Some "remote"%string)
         (with_override (Some "https://override.example/f.html"%string) top_page)
       = (Ret ("https://d-" +:+ rand +:+ "." +:+ "ampproject.net" +:+ "/"
               +:+ "1.0" +:+ "/" +:+ "remote" +:+ ".html"), σ')
    /\ (is_Some (Some counting) -> all_digits rand = true).
Proof.
  apply (default_url_production "1.0" production example_urls 0
           (Some "remote"%string)
           (with_override (Some "https://override.example/f.html"%string) top_page)
           (example_window 0 (Some counting) None));
    reflexivity.
Defined.

(** X5.  In local-development or test mode an override URL that is set and
    not empty is the default bootstrap URL, verbatim: no window is read,
    the base name plays no part and the world stays as it is; this is so
    right after [setDefaultBootstrapBaseUrlForTesting]. *)
Theorem default_url_override
    (irv : string) (mode : Mode) (urls : Urls) (win : nat)
    (base : option string) (σ : World) (u : string) :
  localDev mode || test mode = true ->
  nonempty u = true ->
  (overrideBootstrapBaseUrl σ = Some u ->
   getDefaultBootstrapBaseUrl irv mode urls win base σ = (Ret u, σ))
  /\ exists σ',
       setDefaultBootstrapBaseUrlForTesting (Some u) σ = (Ret tt, σ')
       /\ getDefaultBootstrapBaseUrl irv mode urls win base σ' = (Ret u, σ').
Proof.
  intros Hm Hu. split.
  - intros Ho. apply getDefault_override; [done|].
    rewrite Ho. by apply if_truthy_Some.
  - eexists. split; [reflexivity|].
    apply getDefault_override; [done|]. simpl. by rewrite Hu.
Qed.

Lemma default_url_override_witness :
  getDefaultBootstrapBaseUrl "1.0" development example_urls 5 None
    (with_override (Some "https://override.example/f.html"%string) weak_page)
  = (Ret "https://override.example/f.html"%string,
     with_override (Some "https://override.example/f.html"%string) weak_page).
Proof.
  refine (proj1 (default_url_override "1.0" development example_urls 5 None
                   (with_override (Some "https://override.example/f.html"%string)
                      weak_page)
                   "https://override.example/f.html" _ _) _);
    reflexivity.
Defined.

(** X6.  In local-development or test mode without override URL,
    [getDefaultBootstrapBaseUrl] fails with a TypeError, and changes
    nothing, for a window whose location has no port and whose parent is
    [null], unless [urls.localDev] is set: then no window is read and the
    URL starts with [//] and the third-party frame host. *)
Theorem default_url_without_port
    (irv : string) (mode : Mode) (urls : Urls) (win : nat)
    (base : option string) (σ : World) :
  localDev mode || test mode = true ->
  if_truthy (overrideBootstrapBaseUrl σ) = None ->
  (urls_localDev urls = true ->
   getDefaultBootstrapBaseUrl irv mode urls win base σ
   = (Ret ("//" +:+ thirdPartyFrameHost urls +:+ "/dist.3p/"
           +:+ (if minified mode
                then irv +:+ "/" +:+ or_else base "frame"
                else "current/" +:+ or_else base "frame" +:+ ".max")
           +:+ ".html"), σ))
  /\ (forall w,
        urls_localDev urls = false ->
        windows σ !! win = Some w ->
        port (location w) = EmptyString -> parent w = None ->
        getDefaultBootstrapBaseUrl irv mode urls win base σ = (Throw TypeError, σ)).
Proof.
  intros Hm Ho. split.
  - intros Hu. unfold getDefaultBootstrapBaseUrl. rewrite Hm, bind_unfold.
    unfold getOverrideBootstrapBaseUrl. rewrite Ho, bind_unfold.
    unfold getAdsLocalhost. rewrite Hu. unfold mret, M_ret, ret.
    by rewrite append_assoc.
  - intros w Hu Hw Hp Hpar. unfold getDefaultBootstrapBaseUrl.
    rewrite Hm, bind_unfold. unfold getOverrideBootstrapBaseUrl.
    rewrite Ho, bind_unfold. unfold getAdsLocalhost. rewrite Hu, bind_unfold.
    unfold getWindow. by rewrite Hw, Hp, Hpar.
Qed.

Lemma default_url_without_port_witness :
  getDefaultBootstrapBaseUrl "1.0" development example_urls 0 None orphan_page
  = (Throw TypeError, orphan_page).
Proof.
  refine (proj2 (default_url_without_port "1.0" development example_urls 0 None
                   orphan_page _ _) orphan_window _ _ _ _);
    reflexivity.
Defined.

(** X7.  [getCustomBootstrapBaseUrl] only reads: whether it returns a URL,
    returns [null] or throws, the world is as before; it returns [null]
    when the document declares no custom URL. *)
Theorem custom_url_check_reads_only
    (parseUrl : string -> Url) (irv : string) (win : nat) (strict : bool)
    (σ : World) :
  snd (getCustomBootstrapBaseUrl parseUrl irv win strict σ) = σ
  /\ (forall w, windows σ !! win = Some w -> meta_amp_3p_iframe_src w = None ->
        getCustomBootstrapBaseUrl parseUrl irv win strict σ = (Ret None, σ)).
Proof.
  split; [apply getCustom_pure|intros w; apply getCustom_absent].
Qed.

Lemma custom_url_check_reads_only_witness :
  getCustomBootstrapBaseUrl example_parseUrl "1.0" 0 true top_page
  = (Ret None, top_page).
Proof.
  apply (proj2 (custom_url_check_reads_only example_parseUrl "1.0" 0 true top_page)
           (example_window 0 (Some counting) None));
    reflexivity.
Defined.

(** X8.  [getBootstrapBaseUrl] is all or nothing: when it throws, the world
    is as before, nothing is cached, and the same call throws the same
    error again; an error of the custom-URL checks for a window without
    cached URL is the error of the resolver. *)
Theorem resolver_all_or_nothing
    (parseUrl : string -> Url) (irv : string) (mode : Mode) (urls : Urls)
    (win : nat) (strict : bool) (σ : World) (e : error) :
  (forall σ',
     getBootstrapBaseUrl parseUrl irv mode urls win strict σ = (Throw e, σ') ->
     σ' = σ
     /\ getBootstrapBaseUrl parseUrl irv mode urls win strict σ' = (Throw e, σ'))
  /\ (forall w σ',
        windows σ !! win = Some w -> if_truthy (bootstrapBaseUrl w) = None ->
        getCustomBootstrapBaseUrl parseUrl irv win strict σ = (Throw e, σ') ->
        getBootstrapBaseUrl parseUrl irv mode urls win strict σ = (Throw e, σ)).
Proof.
  split.
  - intros σ' H. pose proof (getBootstrapBaseUrl_throw _ _ _ _ _ _ _ _ _ H).
    by subst.
  - intros w σ' Hw Hc H.
    rewrite (getBootstrapBaseUrl_uncached _ _ _ _ _ _ _ w Hw Hc).
    pose proof (getCustom_pure parseUrl irv win strict σ) as Hp.
    rewrite H in Hp |- *. simpl in Hp. by subst.
Qed.

Lemma resolver_all_or_nothing_witness :
  getBootstrapBaseUrl example_parseUrl "1.0" production example_urls 0 true
    (custom_page "https://localhost:8000/frame.html")
  = (Throw (AssertionFailure
       "3p iframe url must not be on the same origin as the current document"),
     custom_page "https://localhost:8000/frame.html").
Proof.
  refine (proj2 (resolver_all_or_nothing example_parseUrl "1.0" production
                   example_urls 0 true
                   (custom_page "https://localhost:8000/frame.html") _)
            (example_window 0 (Some counting)
               (Some "https://localhost:8000/frame.html"%string))
            (custom_page "https://localhost:8000/frame.html") _ _ _);
    reflexivity.
Defined.

(** X9.  A custom URL that passes the checks has priority: for a window
    without cached URL [getBootstrapBaseUrl] returns it, writes it to the
    cache of that window and does nothing else; no default URL is computed
    and no random value is drawn, in any mode. *)
Theorem custom_url_has_priority
    (parseUrl : string -> Url) (irv : string) (mode : Mode) (urls : Urls)
    (win : nat) (strict : bool) (σ σ0 : World) (w : Window) (u : string) :
  windows σ !! win = Some w ->
  if_truthy (bootstrapBaseUrl w) = None ->
  getCustomBootstrapBaseUrl parseUrl irv win strict σ = (Ret (Some u), σ0) ->
  getBootstrapBaseUrl parseUrl irv mode urls win strict σ
  = (Ret u,
     with_windows (<[win := with_bootstrapBaseUrl (Some u) w]> (windows σ)) σ).
Proof.
  intros Hw Hc H. rewrite (getBootstrapBaseUrl_uncached _ _ _ _ _ _ _ w Hw Hc).
  pose proof (getCustom_pure parseUrl irv win strict σ) as Hp.
  pose proof (getCustom_nonempty _ _ _ _ _ _ _ H) as Hn.
  rewrite H in Hp |- *. simpl in Hp. subst σ0.
  rewrite (if_truthy_Some u Hn). by rewrite (updateWindow_run _ _ _ w Hw).
Qed.

Lemma custom_url_has_priority_witness :
  getBootstrapBaseUrl example_parseUrl "1.0" production example_urls 0 false
    (custom_page "https://3p.example.com/frame.html")
  = (Ret "https://3p.example.com/frame.html?1.0"%string,
     with_windows
       (<[0%nat := with_bootstrapBaseUrl
                     (Some "https://3p.example.com/frame.html?1.0"%string)
                     (example_window 0 (Some counting)
                        (Some "https://3p.example.com/frame.html"%string))]>
          (windows (custom_page "https://3p.example.com/frame.html")))
       (custom_page "https://3p.example.com/frame.html")).
Proof.
  apply (custom_url_has_priority example_parseUrl "1.0" production example_urls
           0 false (custom_page "https://3p.example.com/frame.html")
           (custom_page "https://3p.example.com/frame.html"));
    reflexivity.
Defined.



(** X11.  An override URL set after a window has cached its bootstrap URL
    is not seen: [getBootstrapBaseUrl] goes on returning the cached URL.
    In local-development or test mode, once the cache of a window that
    declares no custom URL has been reset, the call returns the override
    URL. *)
Theorem override_needs_reset
    (parseUrl : string -> Url) (irv : string) (mode : Mode) (urls : Urls)
    (win : nat) (strict : bool) (σ σ1 : World) (u v : string) :
  getBootstrapBaseUrl parseUrl irv mode urls win strict σ = (Ret u, σ1) ->
  nonempty v = true ->
  exists σ2,
    setDefaultBootstrapBaseUrlForTesting (Some v) σ1 = (Ret tt, σ2)
    /\ getBootstrapBaseUrl parseUrl irv mode urls win strict σ2 = (Ret u, σ2)
    /\ (localDev mode || test mode = true ->
        (forall w, windows σ !! win = Some w -> meta_amp_3p_iframe_src w = None) ->
        exists σ3 σ4,
          resetBootstrapBaseUrlForTesting win σ2 = (Ret tt, σ3)
          /\ getBootstrapBaseUrl parseUrl irv mode urls win strict σ3 = (Ret v, σ4)).
Proof.
  intros H Hv. exists (with_override (Some v) σ1). split; [done|].
  destruct (getBootstrapBaseUrl_caches _ _ _ _ _ _ _ _ _ H) as (w1 & Hw1 & Hc1).
  split; [by apply (getBootstrapBaseUrl_cached _ _ _ _ _ _ _ w1 u)|].
  intros Hm Hmeta.
  destruct (resolver_touches_window_meta parseUrl irv mode urls win strict σ σ1 u H)
    as (w & w' & Hw & Hw' & Hmw).
  assert (w' = w1) by congruence. subst w'.
  assert (meta_amp_3p_iframe_src w1 = None) as Hm1
    by (rewrite Hmw; by apply Hmeta).
  unfold resetBootstrapBaseUrlForTesting.
  rewrite (updateWindow_run _ _ (with_override (Some v) σ1) w1) by done.
  do 2 eexists. split; [reflexivity|].
  rewrite (getBootstrapBaseUrl_uncached _ _ _ _ _ _ _ (with_bootstrapBaseUrl None w1))
    by (done || apply lookup_insert_eq).
  rewrite (getCustom_absent _ _ _ _ _ (with_bootstrapBaseUrl None w1))
    by (done || apply lookup_insert_eq).
  simpl if_truthy. cbv iota.
  rewrite (getDefault_override irv mode urls win None _ v Hm)
    by (simpl; by rewrite Hv).
  rewrite (updateWindow_run _ _ _ (with_bootstrapBaseUrl None w1))
    by apply lookup_insert_eq.
  reflexivity.
Qed.

Lemma override_needs_reset_witness :
  exists σ2,
    setDefaultBootstrapBaseUrlForTesting (Some "https://override.example/f.html"%string)
      (snd (getBootstrapBaseUrl example_parseUrl "1.0" development example_urls
              0 false top_page))
    = (Ret tt, σ2)
    /\ getBootstrapBaseUrl example_parseUrl "1.0" development example_urls 0 false σ2
       = (Ret "http://ads.localhost:8000/dist.3p/current/frame.max.html"%string, σ2)
    /\ (localDev development || test development = true ->
        (forall w, windows top_page !! 0%nat = Some w ->
                   meta_amp_3p_iframe_src w = None) ->
        exists σ3 σ4,
          resetBootstrapBaseUrlForTesting 0 σ2 = (Ret tt, σ3)
          /\ getBootstrapBaseUrl example_parseUrl "1.0" development example_urls
               0 false σ3
             = (Ret "https://override.example/f.html"%string, σ4)).
Proof.
  apply (override_needs_reset example_parseUrl "1.0" development example_urls 0
           false top_page).
  - vm_compute. reflexivity.
  - reflexivity.
Defined.

(** X12.  [serializeMessage] called without data makes a new object: it
    lies at a reference no object had, every object there was is as
    before, and it holds the type and the sentinel and nothing else; that
    is what [deserializeMessage] gives back for a version token without
    [{]. *)
Theorem serializeMessage_fresh_object
    (type sentinel : string) (rtvVersion : option string) (σ : World) :
  exists l wire σ',
    serializeMessage type sentinel None rtvVersion σ = (Ret wire, σ')
    /\ objects σ !! l = None
    /\ σ' = with_objects
              (<[l := [("type"%string, JStr type); ("sentinel"%string, JStr sentinel)]]>
                 (objects σ)) σ
    /\ (indexOf (or_else rtvVersion EmptyString) "{" = -1 ->
        deserializeMessage (JStr wire) σ'
        = (Ret (JObj [("type"%string, JStr type); ("sentinel"%string, JStr sentinel)]),
           σ')).
Proof.
  exists (fresh (dom (objects σ) ∪ dom (prototypes σ))). do 2 eexists.
  split; [apply serializeMessage_default|].
  split.
  { apply not_elem_of_dom. intros H.
    apply (is_fresh (dom (objects σ) ∪ dom (prototypes σ))). set_solver. }
  split; [done|].
  intros Hv. by apply deserialize_versioned.
Qed.

Lemma serializeMessage_fresh_object_witness :
  exists l wire σ',
    serializeMessage "send-positions" "0-12" None (Some "01528"%string) top_page
    = (Ret wire, σ')
    /\ objects top_page !! l = None
    /\ σ' = with_objects
              (<[l := [("type"%string, JStr "send-positions");
                       ("sentinel"%string, JStr "0-12")]]>
                 (objects top_page)) top_page
    /\ (indexOf (or_else (Some "01528"%string) EmptyString) "{" = -1 ->
        deserializeMessage (JStr wire) σ'
        = (Ret (JObj [("type"%string, JStr "send-positions");
                      ("sentinel"%string, JStr "0-12")]), σ')).
Proof.
  apply (serializeMessage_fresh_object "send-positions" "0-12"
           (Some "01528"%string) top_page).
Defined.

(** X13.  The version token is dropped on decoding: for JSON-safe data and
    a version token without [{], [deserializeMessage] gives back the data
    object as [serializeMessage] left it, with type and sentinel, and no
    trace of the token. *)
Theorem version_token_discarded
    (type sentinel : string) (l : nat) (d : object)
    (rtvVersion : option string) (σ : World) :
  objects σ !! l = Some d ->
  json_safe (JObj d) = true ->
  indexOf (or_else rtvVersion EmptyString) "{" = -1 ->
  exists wire σ',
    serializeMessage type sentinel (Some l) rtvVersion σ = (Ret wire, σ')
    /\ deserializeMessage (JStr wire) σ'
       = (Ret (JObj (obj_set "sentinel" (JStr sentinel)
                       (obj_set "type" (JStr type) d))), σ').
Proof.
  intros Hl Hsafe Hv. do 2 eexists.
  split; [by apply serializeMessage_run|].
  apply deserialize_versioned; [done|]. by repeat apply json_safe_obj_set.
Qed.

Lemma version_token_discarded_witness :
  exists wire σ',
    serializeMessage "embed-size" "0-34821193" (Some 7%nat)
      (Some "011481323099490"%string) top_page
    = (Ret wire, σ')
    /\ deserializeMessage (JStr wire) σ'
       = (Ret (JObj [("width"%string, JNum (number_of_Z 300)); ("height"%string, JNum (number_of_Z 250));
                     ("type"%string, JStr "embed-size");
                     ("sentinel"%string, JStr "0-34821193")]), σ').
Proof.
  apply (version_token_discarded "embed-size" "0-34821193" 7
           [("width"%string, JNum (number_of_Z 300)); ("height"%string, JNum (number_of_Z 250))]
           (Some "011481323099490"%string) top_page);
    reflexivity.
Defined.

(** X14.  A field of the data whose value is [undefined] does not survive
    the round trip: for a data object with one entry per property whose
    other fields are JSON-safe, the decoded message has the fields of the
    data object as [serializeMessage] left it, except those that hold
    [undefined], which it lacks. *)
Theorem undefined_fields_dropped
    (type sentinel : string) (l : nat) (d : object) (σ : World) :
  objects σ !! l = Some d ->
  keys_distinct (List.map fst d) = true ->
  let sent := obj_set "sentinel" (JStr sentinel) (obj_set "type" (JStr type) d) in
  json_safe (JObj (List.filter (fun kv => negb (is_undefined (snd kv))) sent)) = true ->
  exists wire σ' m,
    serializeMessage type sentinel (Some l) None σ = (Ret wire, σ')
    /\ deserializeMessage (JStr wire) σ' = (Ret (JObj m), σ')
    /\ forall k, obj_get k m = match obj_get k sent with
                               | Some JUndefined => None
                               | x => x
                               end.
Proof.
  intros Hl Hd sent Hsafe.
  exists (AMP_MESSAGE_PREFIX +:+ EmptyString +:+ JSON_stringify sent),
    (with_objects (<[l := sent]> (objects σ)) σ),
    (List.filter (fun kv => negb (is_undefined (snd kv))) sent).
  split; [by apply serializeMessage_run|].
  split; [rewrite <- JSON_stringify_defined; by apply deserialize_wire|].
  intros k. apply obj_get_defined. by repeat apply keys_distinct_obj_set.
Qed.

Lemma undefined_fields_dropped_witness :
  exists wire σ' m,
    serializeMessage "embed-size" "0-1" (Some 7%nat) None
      (with_objects {[ 7%nat := [("width"%string, JNum (number_of_Z 300));
                                 ("height"%string, JUndefined)] ]} top_page)
    = (Ret wire, σ')
    /\ deserializeMessage (JStr wire) σ' = (Ret (JObj m), σ')
    /\ forall k,
         obj_get k m
         = match obj_get k [("width"%string, JNum (number_of_Z 300)); ("height"%string, JUndefined);
                            ("type"%string, JStr "embed-size");
                            ("sentinel"%string, JStr "0-1")] with
           | Some JUndefined => None
           | x => x
           end.
Proof.
  apply (undefined_fields_dropped "embed-size" "0-1" 7
           [("width"%string, JNum (number_of_Z 300)); ("height"%string, JUndefined)]
           (with_objects {[ 7%nat := [("width"%string, JNum (number_of_Z 300));
                                      ("height"%string, JUndefined)] ]} top_page));
    reflexivity.
Defined.

(** X15.  [deserializeMessage] returns either an object, and then the world
    is as before, or [null]; it never returns a number, a string or an
    array, never throws, and changes nothing but the log, to which it adds
    one entry exactly when the value has the prefix and cannot be
    decoded. *)
Theorem deserializeMessage_outcome (m : json) (σ : World) :
  exists v σ',
    deserializeMessage m σ = (Ret v, σ')
    /\ ((exists o, v = JObj o) /\ σ' = σ
        \/ v = JNull /\ isAmpMessage m = false /\ σ' = σ
        \/ v = JNull /\ isAmpMessage m = true
           /\ exists s, m = JStr s
                /\ σ' = with_log
                          (log σ ++ [("MESSAGING"%string,
                                      "Failed to parse message: " +:+ s)]) σ).
Proof.
  unfold deserializeMessage. destruct (isAmpMessage m) eqn:E; simpl.
  2:{ do 2 eexists. split; [reflexivity|]. by right; left. }
  destruct (proj1 (isAmpMessage_spec m) E) as [r ->].
  set (s := AMP_MESSAGE_PREFIX +:+ r).
  destruct (Z.eqb_spec (indexOf s "{") (-1)) as [Hi|Hi].
  { do 2 eexists. split; [reflexivity|]. right; right. by eauto 6. }
  destruct (substr_indexOf s "{" _ eq_refl Hi) as [body Hb].
  destruct (JSON_parse (substr s (indexOf s "{"))) as [v|] eqn:Hp.
  - rewrite Hb in Hp. apply JSON_parse_object in Hp as [o ->].
    do 2 eexists. split; [reflexivity|]. left. by eauto.
  - do 2 eexists. split; [reflexivity|]. right; right. by eauto 6.
Qed.

(** X16.  The [json] attribute has precedence: when it holds the text of an
    object (with one entry per key, as [JSON.parse] gives it),
    [addDataAndJsonAttributes_] returns and the destination has every
    property of that object with its value, whatever the data attributes
    say.  The key [__proto__] is apart: on a destination that inherits the
    accessor of [Object.prototype] the assignment makes no property, and a
    value that is an object, an array or [null] becomes the prototype of
    the destination; on a destination that does not inherit it, the key is
    a property like the others. *)
Theorem json_attribute_has_precedence
    (dashToCamelCase : string -> string) (tryParseJson : string -> json)
    (element : Element) (l : nat) (σ : World) (d : object)
    (json : string) (o : object) :
  objects σ !! l = Some d ->
  if_truthy (getAttribute (element_attributes element) "json") = Some json ->
  tryParseJson json = JObj o ->
  keys_distinct (List.map fst o) = true ->
  exists σ' d',
    addDataAndJsonAttributes_ dashToCamelCase tryParseJson element l σ = (Ret tt, σ')
    /\ objects σ' !! l = Some d'
    /\ (forall k v, k <> "__proto__"%string ->
          obj_get k o = Some v -> obj_get k d' = Some v)
    /\ (reaches_proto_accessor d (prototypes σ !! l) = true ->
        forall v, obj_get "__proto__" o = Some v ->
          obj_get "__proto__" d' = None
          /\ prototypes σ' !! l
             = if object_like v then Some v else prototypes σ !! l)
    /\ (reaches_proto_accessor d (prototypes σ !! l) = false ->
        forall v, obj_get "__proto__" o = Some v ->
          obj_get "__proto__" d' = Some v).
Proof.
  intros Hl Hj Hp Hd.
  rewrite (addDataAndJsonAttributes_run _ _ _ l σ d Hl). rewrite Hj, Hp.
  cbn [is_undefined for_in].
  set (copied := assign_all (data_entries dashToCamelCase (element_attributes element))
                   (d, prototypes σ !! l)).
  destruct (put_object_lookup l (assign_all o copied) σ) as [Ho Hpr].
  do 2 eexists. split; [reflexivity|]. split; [exact Ho|]. split; [|split].
  - intros k v Hk Hg. by apply obj_get_assign_distinct.
  - intros Hr v Hv. rewrite Hpr.
    destruct (assign_all_keeps_accessor
                (data_entries dashToCamelCase (element_attributes element))
                (d, prototypes σ !! l) Hr (data_entries_strings _ _)) as [Hr1 Hp1].
    fold copied in Hr1, Hp1. cbn [snd] in Hp1.
    destruct (obj_get_split _ _ _ Hd Hv) as (a & b & -> & Ha & Hb).
    rewrite assign_all_app.
    destruct (assign_all_keeps_accessor a copied Hr1 (no_key_no_proto_object _ _ Ha))
      as [Hr2 Hp2].
    change (assign_all (("__proto__"%string, v) :: b) ?x)
      with (assign_all b (assign x ("__proto__"%string, v))).
    rewrite obj_get_assign_other, proto_assign_other by done.
    rewrite (assign_proto_reached _ v Hr2).
    destruct (object_like v); cbn [fst snd].
    + split; [by eapply reaches_no_own_proto|done].
    + split; [by eapply reaches_no_own_proto|congruence].
  - intros Hr v Hv.
    pose proof (assign_all_no_accessor
                  (data_entries dashToCamelCase (element_attributes element))
                  (d, prototypes σ !! l) Hr) as Hr1.
    fold copied in Hr1.
    destruct (obj_get_split _ _ _ Hd Hv) as (a & b & -> & Ha & Hb).
    rewrite assign_all_app.
    pose proof (assign_all_no_accessor a copied Hr1) as Hr2.
    change (assign_all (("__proto__"%string, v) :: b) ?x)
      with (assign_all b (assign x ("__proto__"%string, v))).
    rewrite obj_get_assign_other by done.
    rewrite (proj1 (assign_no_accessor _ ("__proto__"%string, v) Hr2)).
    cbn [fst snd]. apply obj_get_set_eq.
Qed.

Lemma json_attribute_has_precedence_witness :
  exists σ' d',
    addDataAndJsonAttributes_ example_dashToCamelCase example_tryParseJson
      (example_element
         (JSON_stringify [("__proto__"%string, JObj [("foo"%string, JNum (number_of_Z 1))]);
                          ("slot"%string, JStr "9")]))
      7 top_page
    = (Ret tt, σ')
    /\ objects σ' !! 7%nat = Some d'
    /\ (forall k v, k <> "__proto__"%string ->
          obj_get k [("__proto__"%string, JObj [("foo"%string, JNum (number_of_Z 1))]);
                     ("slot"%string, JStr "9")] = Some v ->
          obj_get k d' = Some v)
    /\ (reaches_proto_accessor
          [("width"%string, JNum (number_of_Z 300));
           ("height"%string, JNum (number_of_Z 250))] (prototypes top_page !! 7%nat)
        = true ->
        forall v,
          obj_get "__proto__"
            [("__proto__"%string, JObj [("foo"%string, JNum (number_of_Z 1))]);
             ("slot"%string, JStr "9")] = Some v ->
          obj_get "__proto__" d' = None
          /\ prototypes σ' !! 7%nat
             = if object_like v then Some v else prototypes top_page !! 7%nat)
    /\ (reaches_proto_accessor
          [("width"%string, JNum (number_of_Z 300));
           ("height"%string, JNum (number_of_Z 250))] (prototypes top_page !! 7%nat)
        = false ->
        forall v,
          obj_get "__proto__"
            [("__proto__"%string, JObj [("foo"%string, JNum (number_of_Z 1))]);
             ("slot"%string, JStr "9")] = Some v ->
          obj_get "__proto__" d' = Some v).
Proof.
  apply (json_attribute_has_precedence example_dashToCamelCase
           example_tryParseJson _ 7 top_page
           [("width"%string, JNum (number_of_Z 300));
            ("height"%string, JNum (number_of_Z 250))]
           (JSON_stringify [("__proto__"%string, JObj [("foo"%string, JNum (number_of_Z 1))]);
                            ("slot"%string, JStr "9")]));
    vm_compute; reflexivity.
Defined.

(** X17.  When the [json] attribute holds a text that is not JSON,
    [addDataAndJsonAttributes_] throws, and by then the data attributes
    have been assigned: the destination is left with the own properties
    these assignments give it, and nothing else has changed. *)
Theorem malformed_json_attribute
    (dashToCamelCase : string -> string) (tryParseJson : string -> json)
    (element : Element) (l : nat) (σ : World) (d : object) (json : string) :
  objects σ !! l = Some d ->
  if_truthy (getAttribute (element_attributes element) "json") = Some json ->
  tryParseJson json = JUndefined ->
  exists msg,
    addDataAndJsonAttributes_ dashToCamelCase tryParseJson element l σ
    = (Throw (AssertionFailure msg),
       with_objects
         (<[l := fst (assign_all
                        (data_entries dashToCamelCase (element_attributes element))
                        (d, prototypes σ !! l))]>
            (objects σ)) σ).
Proof.
  intros Hl Hj Hp.
  rewrite (addDataAndJsonAttributes_run _ _ _ l σ d Hl). rewrite Hj, Hp.
  eexists. cbn [is_undefined]. f_equal.
  rewrite <- put_object_own. f_equal.
  rewrite (surjective_pairing (assign_all _ _)) at 1.
  by rewrite data_entries_proto.
Qed.

Lemma malformed_json_attribute_witness :
  exists msg,
    addDataAndJsonAttributes_ example_dashToCamelCase example_tryParseJson
      (example_element "{not json") 7 top_page
    = (Throw (AssertionFailure msg),
       with_objects
         (<[7%nat := fst (assign_all
                            (data_entries example_dashToCamelCase
                               (element_attributes (example_element "{not json")))
                            ([("width"%string, JNum (number_of_Z 300));
                              ("height"%string, JNum (number_of_Z 250))],
                             prototypes top_page !! 7%nat))]>
            (objects top_page)) top_page).
Proof.
  apply (malformed_json_attribute example_dashToCamelCase example_tryParseJson
           (example_element "{not json") 7 top_page
           [("width"%string, JNum (number_of_Z 300));
            ("height"%string, JNum (number_of_Z 250))] "{not json");
    vm_compute; reflexivity.
Defined.

(** X18.  A data attribute arrives under its name without [data-], in camel
    case: after [addDataAndJsonAttributes_], thrown or not, the destination
    holds its value under that key, unless the key is [__proto__] or a
    later data attribute or the [json] attribute writes the same key. *)
Theorem data_attribute_copied
    (dashToCamelCase : string -> string) (tryParseJson : string -> json)
    (element : Element) (l : nat) (σ : World) (d : object)
    (before after : list (string * string)) (name value : string) :
  objects σ !! l = Some d ->
  element_attributes element = before ++ (name, value) :: after ->
  indexOf name "data-" = 0 ->
  dashToCamelCase (substr name 5) <> "__proto__"%string ->
  existsb (string_eqb (dashToCamelCase (substr name 5)))
    (List.map fst (data_entries dashToCamelCase after
                   ++ json_entries tryParseJson (element_attributes element)))
  = false ->
  exists d',
    objects (snd (addDataAndJsonAttributes_ dashToCamelCase tryParseJson element l σ))
      !! l = Some d'
    /\ obj_get (dashToCamelCase (substr name 5)) d' = Some (JStr value).
Proof.
  intros Hl Ha Hn Hproto Hk.
  rewrite (addDataAndJsonAttributes_store _ _ _ l σ d Hl).
  eexists. split; [apply put_object_lookup|].
  rewrite Ha at 1. unfold data_entries.
  rewrite List.filter_app, List.map_app. cbn [List.filter fst]. rewrite Hn.
  cbn [Z.eqb List.map fst snd].
  rewrite <- List.app_assoc. cbn [app]. by apply obj_get_assign_last.
Qed.

Lemma data_attribute_copied_witness :
  exists d',
    objects (snd (addDataAndJsonAttributes_ example_dashToCamelCase
                    example_tryParseJson
                    (example_element (JSON_stringify [("slot"%string, JStr "9")]))
                    7 top_page)) !! 7%nat = Some d'
    /\ obj_get (example_dashToCamelCase (substr "data-ad-client" 5)) d'
       = Some (JStr "ca-pub-1").
Proof.
  apply (data_attribute_copied example_dashToCamelCase example_tryParseJson
           (example_element (JSON_stringify [("slot"%string, JStr "9")]))
           7 top_page
           [("width"%string, JNum (number_of_Z 300));
            ("height"%string, JNum (number_of_Z 250))]
           [("type"%string, "adsense"%string)]
           [("data-slot"%string, "7"%string);
            ("json"%string, JSON_stringify [("slot"%string, JStr "9")])]
           "data-ad-client" "ca-pub-1");
    try (vm_compute; reflexivity).
  vm_compute. discriminate.
Defined.

(** X19.  [addDataAndJsonAttributes_] depends on the data attributes and on
    the [json] attribute only, and touches what they name only: two
    elements with the same data attributes and the same [json] attribute
    give the same outcome; an own property of the destination whose key
    neither names keeps its value, the destination keeps its prototype
    when neither names [__proto__], and all other objects, the windows and
    the log are as before. *)
Theorem other_attributes_ignored
    (dashToCamelCase : string -> string) (tryParseJson : string -> json)
    (element : Element) (l : nat) (σ : World) :
  (forall element',
     List.filter (fun a => indexOf (fst a) "data-" =? 0) (element_attributes element')
     = List.filter (fun a => indexOf (fst a) "data-" =? 0) (element_attributes element) ->
     getAttribute (element_attributes element') "json"
     = getAttribute (element_attributes element) "json" ->
     addDataAndJsonAttributes_ dashToCamelCase tryParseJson element' l σ
     = addDataAndJsonAttributes_ dashToCamelCase tryParseJson element l σ)
  /\ (forall d,
        objects σ !! l = Some d ->
        let named :=
          List.map fst
            (data_entries dashToCamelCase (element_attributes element)
             ++ json_entries tryParseJson (element_attributes element)) in
        exists d' p',
          snd (addDataAndJsonAttributes_ dashToCamelCase tryParseJson element l σ)
          = put_object l (d', p') σ
          /\ (forall k, existsb (string_eqb k) named = false ->
                obj_get k d' = obj_get k d)
          /\ (existsb (string_eqb "__proto__") named = false ->
              p' = prototypes σ !! l)).
Proof.
  split.
  - intros element' Hf Hj. unfold addDataAndJsonAttributes_.
    rewrite !bind_unfold, Hj.
    rewrite (copyDataAttributes_filter _ (element_attributes element')).
    rewrite (copyDataAttributes_filter _ (element_attributes element)).
    by rewrite Hf.
  - intros d Hl named. rewrite (addDataAndJsonAttributes_store _ _ _ l σ d Hl).
    do 2 eexists. split; [by rewrite <- surjective_pairing|]. split.
    + intros k Hk. by rewrite obj_get_assign_other.
    + intros Hk. by rewrite proto_assign_other.
Qed.

Lemma other_attributes_ignored_witness :
  exists d' p',
    snd (addDataAndJsonAttributes_ example_dashToCamelCase example_tryParseJson
           (example_element (JSON_stringify [("slot"%string, JStr "9")]))
           7 top_page)
    = put_object 7 (d', p') top_page
    /\ (forall k,
          existsb (string_eqb k)
            (List.map fst
               (data_entries example_dashToCamelCase
                  (element_attributes
                     (example_element (JSON_stringify [("slot"%string, JStr "9")])))
                ++ json_entries example_tryParseJson
                     (element_attributes
                        (example_element (JSON_stringify [("slot"%string, JStr "9")])))))
          = false ->
          obj_get k d'
          = obj_get k [("width"%string, JNum (number_of_Z 300));
                       ("height"%string, JNum (number_of_Z 250))])
    /\ (existsb (string_eqb "__proto__")
          (List.map fst
             (data_entries example_dashToCamelCase
                (element_attributes
                   (example_element (JSON_stringify [("slot"%string, JStr "9")])))
              ++ json_entries example_tryParseJson
                   (element_attributes
                      (example_element (JSON_stringify [("slot"%string, JStr "9")])))))
        = false ->
        p' = prototypes top_page !! 7%nat).
Proof.
  apply (proj2 (other_attributes_ignored example_dashToCamelCase
                  example_tryParseJson
                  (example_element (JSON_stringify [("slot"%string, JStr "9")]))
                  7 top_page)).
  reflexivity.
Defined.

(** X20.  When [preloadBootstrap] returns it has asked for two preloads,
    first the bootstrap URL as document, then the integration script: the
    document URL is the one [getBootstrapBaseUrl] returns for that window
    from then on, and outside local development the script URL is
    [<third-party host>/<version token>/f.js], custom bootstrap URL or
    not. *)
Theorem preload_matches_resolver
    (parseUrl : string -> Url) (irv : string) (mode : Mode) (urls : Urls)
    (win : nat) (preconnect preconnect' : Preloads) (σ σ' : World) :
  preloadBootstrap parseUrl irv mode urls win preconnect σ
  = (Ret tt, (σ', preconnect')) ->
  exists url script,
    preconnect' = preconnect ++ [(url, "document"%string); (script, "script"%string)]
    /\ (forall strict,
          getBootstrapBaseUrl parseUrl irv mode urls win strict σ' = (Ret url, σ'))
    /\ (localDev mode = false ->
        script = thirdParty urls +:+ "/" +:+ irv +:+ "/f.js").
Proof.
  rewrite preloadBootstrap_unfold. intros H.
  destruct (getBootstrapBaseUrl parseUrl irv mode urls win false σ)
    as [[url|e] σ1] eqn:Hb; [|done].
  pose proof (fun strict =>
    getBootstrapBaseUrl_twice parseUrl irv mode urls win false strict σ url σ1 Hb)
    as Ht.
  destruct (localDev mode).
  - destruct (getAdsLocalhost urls win σ1) as [[host|e] σ2]; [|done].
    inversion H; subst. do 2 eexists.
    split; [by rewrite <- List.app_assoc|]. by split.
  - inversion H; subst. do 2 eexists.
    split; [by rewrite <- List.app_assoc|]. by split.
Qed.

Lemma preload_matches_resolver_witness :
  exists url script,
    snd (snd (preloadBootstrap example_parseUrl "1.0" production example_urls 0 []
                (custom_page "https://3p.example.com/frame.html")))
    = [] ++ [(url, "document"%string); (script, "script"%string)]
    /\ (forall strict,
          getBootstrapBaseUrl example_parseUrl "1.0" production example_urls 0 strict
            (fst (snd (preloadBootstrap example_parseUrl "1.0" production
                         example_urls 0 []
                         (custom_page "https://3p.example.com/frame.html"))))
          = (Ret url,
             fst (snd (preloadBootstrap example_parseUrl "1.0" production
                         example_urls 0 []
                         (custom_page "https://3p.example.com/frame.html")))))
    /\ (localDev production = false ->
        script = thirdParty example_urls +:+ "/" +:+ "1.0" +:+ "/f.js").
Proof.
  apply (preload_matches_resolver example_parseUrl "1.0" production example_urls
           0 [] _ (custom_page "https://3p.example.com/frame.html")).
  vm_compute. reflexivity.
Defined.

(** X21.  When the bootstrap URL cannot be resolved, [preloadBootstrap]
    throws the error of [getBootstrapBaseUrl], asks for no preload and
    leaves the world as it is. *)
Theorem preload_nothing_on_failure
    (parseUrl : string -> Url) (irv : string) (mode : Mode) (urls : Urls)
    (win : nat) (preconnect : Preloads) (σ σ0 : World) (e : error) :
  getBootstrapBaseUrl parseUrl irv mode urls win false σ = (Throw e, σ0) ->
  preloadBootstrap parseUrl irv mode urls win preconnect σ
  = (Throw e, (σ, preconnect)).
Proof.
  intros H. pose proof (getBootstrapBaseUrl_throw _ _ _ _ _ _ _ _ _ H). subst.
  rewrite preloadBootstrap_unfold. by rewrite H.
Qed.

Lemma preload_nothing_on_failure_witness :
  preloadBootstrap example_parseUrl "1.0" production example_urls 0 []
    (custom_page "https://localhost:8000/frame.html?x=1")
  = (Throw (AssertionFailure "3p iframe url must not include query string"),
     (custom_page "https://localhost:8000/frame.html?x=1", [])).
Proof.
  apply (preload_nothing_on_failure example_parseUrl "1.0" production
           example_urls 0 []
           (custom_page "https://localhost:8000/frame.html?x=1")
           (custom_page "https://localhost:8000/frame.html?x=1")).
  vm_compute. reflexivity.
Defined.

(** X22.  What the codec makes of any data: for a data object with values
    of every kind and a version token without [{], [deserializeMessage]
    gives back the object that [serializeMessage] left, with [undefined]
    turned into [null] inside arrays and its properties left out,
    not-a-number and the infinities turned into [null], and the negative
    zero turned into zero; that is the object itself exactly when it is
    JSON-safe. *)
Theorem codec_normal_form
    (type sentinel : string) (l : nat) (d : object)
    (rtvVersion : option string) (σ : World) :
  objects σ !! l = Some d ->
  well_formed (JObj d) = true ->
  indexOf (or_else rtvVersion EmptyString) "{" = -1 ->
  let sent := obj_set "sentinel" (JStr sentinel) (obj_set "type" (JStr type) d) in
  exists wire σ',
    serializeMessage type sentinel (Some l) rtvVersion σ = (Ret wire, σ')
    /\ deserializeMessage (JStr wire) σ' = (Ret (transmitted (JObj sent)), σ')
    /\ (transmitted (JObj sent) = JObj sent <-> json_safe (JObj sent) = true).
Proof.
  intros Hl Hw Hv sent.
  assert (well_formed (JObj sent) = true) as Hs
    by by repeat apply well_formed_obj_set.
  do 2 eexists. split; [by apply serializeMessage_run|]. split.
  - fold sent. unfold JSON_stringify.
    rewrite <- (stringify_transmitted (JObj sent)), transmitted_JObj.
    apply deserialize_versioned; [done|].
    rewrite <- transmitted_JObj. by apply transmitted_safe.
  - by apply transmitted_fixed.
Qed.

Lemma codec_normal_form_witness :
  exists wire σ',
    serializeMessage "embed-size" "0-1" (Some 9%nat) None lossy_page = (Ret wire, σ')
    /\ deserializeMessage (JStr wire) σ'
       = (Ret (JObj [("width"%string, JNull);
                     ("left"%string, JNum (Finite false 0 (-1074)));
                     ("sizes"%string, JArr [JNull; JNull; JNum (number_of_Z 1)]);
                     ("type"%string, JStr "embed-size");
                     ("sentinel"%string, JStr "0-1")]), σ')
    /\ (transmitted
          (JObj (obj_set "sentinel" (JStr "0-1")
                   (obj_set "type" (JStr "embed-size") example_lossy)))
        = JObj (obj_set "sentinel" (JStr "0-1")
                  (obj_set "type" (JStr "embed-size") example_lossy))
        <-> json_safe
              (JObj (obj_set "sentinel" (JStr "0-1")
                       (obj_set "type" (JStr "embed-size") example_lossy)))
            = true).
Proof.
  apply (codec_normal_form "embed-size" "0-1" 9 example_lossy None lossy_page);
    vm_compute; reflexivity.
Defined.

(** X23.  A message whose text from the first [{] on is JSON is decoded:
    [deserializeMessage] returns the value of that text, whatever stands
    between the prefix and the [{], and it writes nothing to the log. *)
Theorem wellformed_payload_decoded (r : string) (v : json) (σ : World) :
  let s := AMP_MESSAGE_PREFIX +:+ r in
  indexOf s "{" <> -1 ->
  JSON_parse (substr s (indexOf s "{")) = Some v ->
  deserializeMessage (JStr s) σ = (Ret v, σ).
Proof.
  intros s Hi Hp. unfold deserializeMessage.
  assert (isAmpMessage (JStr s) = true) as -> by (apply isAmpMessage_spec; by eexists).
  cbn [negb]. apply Z.eqb_neq in Hi. by rewrite Hi, Hp.
Qed.

Lemma wellformed_payload_decoded_witness :
  deserializeMessage
    (JStr (AMP_MESSAGE_PREFIX +:+ "011 {" +:+ quote "ratio" +:+ ": 0.5e1, "
           +:+ quote "label" +:+ ":" +:+ String dquote ("\u20ac\n" +:+ String dquote " }")))
    top_page
  = (Ret (JObj [("ratio"%string, JNum (number_of_Z 5));
                ("label"%string,
                 JStr (String (Code "032" "172") (String (Code "000" "010") EmptyString)))]),
     top_page).
Proof.
  apply (wellformed_payload_decoded
           ("011 {" +:+ quote "ratio" +:+ ": 0.5e1, "
            +:+ quote "label" +:+ ":" +:+ String dquote ("\u20ac\n" +:+ String dquote " }"))
           _ top_page);
    vm_compute; [discriminate|reflexivity].
Defined.
